(** * DiskWiper: the wipe engine of DiskWiper.cpp

    A shallow embedding of the policy tables, [FillBlock] and the pass and
    session loop of [DiskWiper::main], with the properties of the engine
    stated against it.

    Conventions of the embedding.
    - C integers ([int], [unsigned int]) are [Z]; array indices are turned
      into [nat] where a list is read or written.
    - A [const char *] is [option (list byte)]: [None] is the null pointer,
      [Some s] points to the array [s] (a string literal with its final NUL).
    - An array access out of bounds, a null dereference and a loop that never
      ends are not given a value: they are [Fault]s of the [outcome] monad.
    - The operating system is a set of oracles: the bytes /dev/random hands
      out, the number of bytes the device accepts at each write, the clock. *)

From Stdlib Require Import ZArith Lia Strings.Byte String Ascii DecimalString.
From stdpp Require Import base numbers strings list list_numbers.

Open Scope Z_scope.

#[global] Instance byte_eq_dec : EqDecision byte := Byte.byte_eq_dec.

(** ** Return codes *)

Definition E_SUCCESS : Z := 0.
Definition E_FAILURE : Z := 1.
Definition E_CONTINUE : Z := 2.

(** ** Rules and policies *)

(** [typedef struct OverWriteRule_s]. *)
Record OverWriteRule := mkRule {
  data : option (list byte);
  datalen : Z;
  random : Z;
  _reserved : Z
}.

(** A string literal: its bytes followed by the terminating NUL. *)
Definition lit (bs : list byte) : option (list byte) := Some (bs ++ [x00]).

(** The initializer [{0,0,1,0}]. *)
Definition rnd_rule : OverWriteRule := mkRule None 0 1 0.

(** The initializer [{"...",n,0,0}]. *)
Definition pat_rule (bs : list byte) (n : Z) : OverWriteRule := mkRule (lit bs) n 0 0.

Definition r_Gutmann : list OverWriteRule := [
  rnd_rule;
  rnd_rule;
  rnd_rule;
  rnd_rule;
  pat_rule [x55] 1;
  pat_rule [xaa] 1;
  pat_rule [x92; x49; x24] 3;
  pat_rule [x49; x24; x92] 3;
  pat_rule [x24; x92; x49] 3;
  pat_rule [x00] 1;
  pat_rule [x11] 1;
  pat_rule [x22] 1;
  pat_rule [x33] 1;
  pat_rule [x44] 1;
  pat_rule [x55] 1;
  pat_rule [x66] 1;
  pat_rule [x77] 1;
  pat_rule [x88] 1;
  pat_rule [x99] 1;
  pat_rule [xaa] 1;
  pat_rule [xbb] 1;
  pat_rule [xcc] 1;
  pat_rule [xdd] 1;
  pat_rule [xee] 1;
  pat_rule [xff] 1;
  pat_rule [x92; x49; x24] 3;
  pat_rule [x49; x24; x92] 3;
  pat_rule [x24; x92; x49] 3;
  pat_rule [x6d; xb6; xdb] 3;
  pat_rule [xb6; xdb; x6d] 3;
  pat_rule [xdb; x92; x49] 3;
  rnd_rule;
  rnd_rule;
  rnd_rule;
  rnd_rule
].

Definition r_Fast : list OverWriteRule := [
  pat_rule [x00] 1
].

Definition r_Gost : list OverWriteRule := [
  pat_rule [x00] 1;
  rnd_rule
].

Definition r_UsDod5220_22_M : list OverWriteRule := [
  pat_rule [x00] 1;
  pat_rule [xff] 1;
  rnd_rule
].

Definition r_VSITR : list OverWriteRule := [
  pat_rule [x00] 1;
  pat_rule [xff] 1;
  pat_rule [x00] 1;
  pat_rule [xff] 1;
  pat_rule [x00] 1;
  pat_rule [xff] 1;
  pat_rule [xaa] 1
].

(** [typedef struct WipePolicy_s]. *)
Record WipePolicy := mkPolicy {
  name : string;
  passes : Z;
  rules : list OverWriteRule
}.

(** [#define COUNT_PASSES(x) sizeof(x)/sizeof(OverWriteRule)]. *)
Definition COUNT_PASSES (x : list OverWriteRule) : Z := Z.of_nat (length x).

Definition FastPolicy : WipePolicy :=
  mkPolicy "Fast" (COUNT_PASSES r_Fast) r_Fast.
Definition GostPolicy : WipePolicy :=
  mkPolicy "Russian GOST P50739-95" (COUNT_PASSES r_Gost) r_Gost.
Definition PeterGutmannPolicy : WipePolicy :=
  mkPolicy "Peter Gutmann" (COUNT_PASSES r_Gutmann) r_Gutmann.
Definition DOD522022MPolicy : WipePolicy :=
  mkPolicy "US DOD 5220.22-M" (COUNT_PASSES r_UsDod5220_22_M) r_UsDod5220_22_M.
Definition VsitrPolicy : WipePolicy :=
  mkPolicy "German VSITR" (COUNT_PASSES r_VSITR) r_VSITR.

Definition wPolicies : list WipePolicy := [
  FastPolicy;
  GostPolicy;
  DOD522022MPolicy;
  VsitrPolicy;
  PeterGutmannPolicy
].

(** [#define N_POLICIES sizeof(wPolicies)/sizeof(WipePolicy)]. *)
Definition N_POLICIES : Z := Z.of_nat (length wPolicies).

(** [static const int blockSize = 98304]. *)
Definition blockSize : Z := 98304.

(** ** What a rule means

    The pass a rule stands for, as [ShowPolicyDetail] and [FillBlock] read
    it: random when [random] is set, otherwise the first [datalen] bytes of
    [data]. *)
Inductive PassKind :=
  | Random
  | Fixed (pattern : list byte).

#[global] Instance PassKind_eq_dec : EqDecision PassKind.
Proof. solve_decision. Defined.

Definition pattern_of (r : OverWriteRule) : list byte :=
  take (Z.to_nat (datalen r)) (default [] (data r)).

Definition kind_of (r : OverWriteRule) : PassKind :=
  if random r =? 0 then Fixed (pattern_of r) else Random.

(** ** Faults and outcomes

    What C++ leaves undefined is a [fault] here, and so is a loop that never
    ends. *)
Inductive fault :=
  | NullDeref                  (* [rules->data[dl]] through the null pointer *)
  | DataOverread (dl : Z)      (* [rules->data[dl]] outside the literal *)
  | BlockOverrun (off : Z)     (* [owBlock[off]] outside the block *)
  | RuleOverread (step : Z)    (* [rules[step]] outside the rule array *)
  | PolicyOverread (sel : Z)   (* [wPolicies[sel]] outside the catalog *)
  | Diverges.                  (* the loop never ends *)

Inductive outcome (A : Type) :=
  | Ok (a : A)
  | Fault (f : fault).
Arguments Ok {A} a.
Arguments Fault {A} f.

#[global] Instance outcome_ret : MRet outcome := fun A a => Ok a.
#[global] Instance outcome_bind : MBind outcome := fun A B k m =>
  match m with
  | Ok a => k a
  | Fault f => Fault f
  end.

(** [for (i = lo; i < hi; i++) body], the counter never assigned in [body]:
    the body runs for [lo], [lo+1], ..., [hi-1], and stops at a fault. *)
Fixpoint for_go {St : Type} (n : nat) (i : Z) (body : Z → St → outcome St) (s : St)
    : outcome St :=
  match n with
  | O => Ok s
  | S n' => s' ← body i s; for_go n' (i + 1) body s'
  end.

Definition for_loop {St : Type} (lo hi : Z) (body : Z → St → outcome St) (s : St)
    : outcome St :=
  for_go (Z.to_nat (hi - lo)) lo body s.

(** Conversion of a value to [int], as the assignment [b += rules->datalen]
    does after the unsigned addition. *)
Definition to_int (z : Z) : Z := (z + 2 ^ 31) mod 2 ^ 32 - 2 ^ 31.

(** ** The block filler, pattern branch *)

(** [rules->data[dl]]. *)
Definition load (rules : OverWriteRule) (dl : Z) : outcome byte :=
  match data rules with
  | None => Fault NullDeref
  | Some s =>
      match s !! Z.to_nat dl with
      | Some c => Ok c
      | None => Fault (DataOverread dl)
      end
  end.

(** [owBlock[i] = c]. *)
Definition store (owBlock : list byte) (i : Z) (c : byte) : outcome (list byte) :=
  if bool_decide (0 ≤ i < Z.of_nat (length owBlock))
  then Ok (<[Z.to_nat i := c]> owBlock)
  else Fault (BlockOverrun i).

(** [for (int dl = 0; dl < rules->datalen; dl++) owBlock[b+dl] = rules->data[dl];] *)
Definition copy_pattern (rules : OverWriteRule) (b : Z) (owBlock : list byte)
    : outcome (list byte) :=
  for_loop 0 (datalen rules)
    (fun dl blk => c ← load rules dl; store blk (b + dl) c) owBlock.

(** [for (int b = 0; b < blockSize; b += rules->datalen) ...], the block size
    [bs] a parameter. Each round that ends moves [b] up by at least one when
    [datalen] is not 0, so [bs] rounds of fuel are never used up then; with
    [datalen = 0] the loop of the source has no end, and the fuel runs out. *)
Fixpoint tile_go (fuel : nat) (bs : Z) (rules : OverWriteRule) (b : Z)
    (owBlock : list byte) : outcome (list byte) :=
  if b <? bs then
    match fuel with
    | O => Fault Diverges
    | S fuel' =>
        blk ← copy_pattern rules b owBlock;
        tile_go fuel' bs rules (to_int (b + datalen rules)) blk
    end
  else Ok owBlock.

(** The branch [if ( !rules->random )] of [FillBlock] over a block of [bs]
    bytes. *)
Definition fill_pattern (bs : Z) (rules : OverWriteRule) (owBlock : list byte)
    : outcome (list byte) :=
  tile_go (Z.to_nat bs) bs rules 0 owBlock.

(** ** The report log *)

(** [std::tm], the fields [strftime] reads. *)
Record tm := mkTm {
  tm_year : Z;
  tm_mon : Z;
  tm_mday : Z;
  tm_hour : Z;
  tm_min : Z;
  tm_sec : Z
}.

(** The calls [Log.Log(fmt, ...)] of [main]: one constructor per format
    string, with its arguments. *)
Inductive LogMsg :=
  | MsgSessionStart
  | MsgPolicySelected (name : string)
  | MsgPasses (n : Z)
  | MsgTargetDevice (dev : string)
  | MsgDevice (dev : string)
  | MsgDeviceSize (size : Z)
  | MsgInvalidSize
  | MsgSessionAborted
  | MsgBuilding (step : Z)
  | MsgScheduling (step : Z)
  | MsgStepStart (step : Z)
  | MsgStepDone (step : Z)
  | MsgSessionDone
  | MsgSeparator.

#[global] Instance LogMsg_eq_dec : EqDecision LogMsg.
Proof. solve_decision. Defined.

(** [%d] and [%lu]. *)
Definition dec (z : Z) : string := NilZero.string_of_int (Z.to_int z).

(** Two digits, zero padded: [%m], [%d], [%H], [%M], [%S] of [strftime]. *)
Definition dec2 (z : Z) : string :=
  let s := dec z in
  if (String.length s <? 2)%nat then String.append "0" s else s.

(** [vsnprintf(mbuffer, 1024, fmt, args)]: at most 1023 characters. *)
Definition render (m : LogMsg) : string :=
  String.substring 0 1023
    match m with
    | MsgSessionStart => "DiskWiper session start"
    | MsgPolicySelected n => String.append "WipePolicy Selected: " n
    | MsgPasses n => String.append "Passes: " (dec n)
    | MsgTargetDevice d => String.append "Target device: " d
    | MsgDevice d => String.append "device: " d
    | MsgDeviceSize n => String.append "Device/File Size: " (dec n)
    | MsgInvalidSize => "Invalid Disk/File Size"
    | MsgSessionAborted => "DiskWiper session aborted"
    | MsgBuilding n => String.append "Building overwrite block for step " (dec n)
    | MsgScheduling n =>
        String.append "Scheduling random overwrite block for step " (dec n)
    | MsgStepStart n => String.append (String.append "Step " (dec n)) ": start"
    | MsgStepDone n => String.append (String.append "Step " (dec n)) ": done"
    | MsgSessionDone => "DiskWiper session done"
    | MsgSeparator => "----------------------"
    end.

(** [std::strftime(tbuffer, 80, "%Y-%m-%d-%H-%M-%SZ", timeinfo)]. *)
Definition strftime (t : tm) : string :=
  String.concat "-" [
    dec (tm_year t + 1900);
    dec2 (tm_mon t + 1);
    dec2 (tm_mday t);
    dec2 (tm_hour t);
    dec2 (tm_min t);
    String.append (dec2 (tm_sec t)) "Z"
  ].

(** A line of the log as it reaches a stream: [tbuffer << " " << mbuffer]. *)
Definition line (e : tm * LogMsg) : string :=
  String.append (strftime e.1) (String.append " " (render e.2)).

(** [class ReportLog]. [calls] keeps every message handed to [Log], [cout]
    and [fd] what went to the standard output and to the report file, each
    entry with the time read for it; [ticks] counts the readings of the
    clock. *)
Record ReportLog := mkLog {
  _enabled : bool;
  _silent : bool;
  ticks : nat;
  calls : list LogMsg;
  cout : list (tm * LogMsg);
  fd : list (tm * LogMsg)
}.

Definition ReportLog_new : ReportLog := mkLog false false 0 [] [] [].

Definition SetQuite (flag : bool) (l : ReportLog) : ReportLog :=
  mkLog (_enabled l) flag (ticks l) (calls l) (cout l) (fd l).

Definition Open (l : ReportLog) : ReportLog :=
  mkLog true (_silent l) (ticks l) (calls l) (cout l) (fd l).

(** ** The process and its target *)

(** What the engine does to the world outside, in the order it does it. *)
Inductive Event :=
  | EvSeek                       (* [devfd.seekp(0)] *)
  | EvFill                       (* [FillBlock], pattern branch *)
  | EvRandom (n : nat)           (* [FillBlock], random branch: the draw number [n] of /dev/random *)
  | EvWrite (count : Z) (bytes : list byte).
                                 (* [devfd.write(owBlock, count)]; [bytes] are the first [count] bytes of [owBlock] at the call *)

#[global] Instance Event_eq_dec : EqDecision Event.
Proof. solve_decision. Defined.

Record World := mkWorld {
  w_block : list byte;    (* [char owBlock[blockSize]] *)
  w_target : list byte;   (* the bytes of the device or file *)
  w_pos : Z;              (* the put position of [devfd] *)
  w_bad : bool;           (* [devfd] is in an error state *)
  w_nwrite : nat;         (* calls of [devfd.write] so far *)
  w_nrandom : nat;        (* calls of [OS::GetRandomData] so far *)
  w_trace : list Event;
  w_log : ReportLog
}.

Definition set_log (l : ReportLog) (w : World) : World :=
  mkWorld (w_block w) (w_target w) (w_pos w) (w_bad w) (w_nwrite w) (w_nrandom w)
    (w_trace w) l.

(** [DiskWiper] after [ParseOption] answered [E_CONTINUE]. *)
Record Options := mkOptions {
  _ValidPolicySel : Z;
  _DeviceName : string;
  _Reporting : bool;
  _Quite : bool
}.

(** The target as the operating system shows it. *)
Record Target := mkTarget {
  t_size : Z;             (* the answer of [OS::GetDeviceSize] *)
  t_bytes : list byte;    (* its content before the session *)
  t_blk : bool;           (* a device: opening it for writing keeps its bytes; a regular file is emptied *)
  t_opens : bool          (* [std::ofstream devfd(...)] opens it *)
}.

Section Engine.

(** The oracles: the bytes the [n]-th reading of /dev/random delivers, the
    number of bytes the target takes at the [n]-th call of [write] when
    [count] bytes are handed over, the time at the [n]-th reading of the
    clock. *)
Variable rnd : nat → list byte.
Variable io : nat → Z → Z.
Variable clock : nat → tm.

(** [ReportLog::Log]. *)
Definition Log_ (m : LogMsg) (l : ReportLog) : ReportLog :=
  if _silent l && negb (_enabled l)
  then mkLog (_enabled l) (_silent l) (ticks l) (calls l ++ [m]) (cout l) (fd l)
  else
    let e := (clock (ticks l), m) in
    mkLog (_enabled l) (_silent l) (S (ticks l)) (calls l ++ [m])
      (if _silent l then cout l else cout l ++ [e])
      (if _enabled l then fd l ++ [e] else fd l).

(** [Log.Log(...)] in [main]. *)
Definition Log (m : LogMsg) (w : World) : World := set_log (Log_ m (w_log w)) w.

(** [OS::GetRandomData(owBlock, sz)]: [rfd.read] puts the bytes it gets at
    the start of the block and leaves the rest. *)
Definition GetRandomData (sz : Z) (w : World) : World :=
  let got := take (Z.to_nat sz) (rnd (w_nrandom w)) in
  mkWorld (got ++ drop (length got) (w_block w)) (w_target w) (w_pos w) (w_bad w)
    (w_nwrite w) (S (w_nrandom w)) (w_trace w ++ [EvRandom (w_nrandom w)]) (w_log w).

(** [DiskWiper::FillBlock(owBlock, rules)]. *)
Definition FillBlock (rules : OverWriteRule) (w : World) : outcome World :=
  if random rules =? 0 then
    blk ← fill_pattern blockSize rules (w_block w);
    Ok (mkWorld blk (w_target w) (w_pos w) (w_bad w) (w_nwrite w) (w_nrandom w)
          (w_trace w ++ [EvFill]) (w_log w))
  else Ok (GetRandomData blockSize w).

(** [devfd.seekp(0)]: nothing moves once the stream is in an error state. *)
Definition seekp0 (w : World) : World :=
  mkWorld (w_block w) (w_target w) (if w_bad w then w_pos w else 0) (w_bad w)
    (w_nwrite w) (w_nrandom w) (w_trace w ++ [EvSeek]) (w_log w).

(** The bytes of [bytes] put on the target from position [p] on. *)
Definition put_at (p : nat) (bytes : list byte) (target : list byte) : list byte :=
  take p target ++ bytes ++ drop (p + length bytes) target.

(** [devfd.write(owBlock, count)]. A stream in an error state writes
    nothing. Otherwise the target takes the first [io n count] bytes; fewer
    than [count] puts the stream in the error state. The result of the call
    is not looked at by [main]. *)
Definition write (count : Z) (w : World) : World :=
  let bytes := take (Z.to_nat count) (w_block w) in
  let tr := w_trace w ++ [EvWrite count bytes] in
  if w_bad w then
    mkWorld (w_block w) (w_target w) (w_pos w) true (S (w_nwrite w)) (w_nrandom w)
      tr (w_log w)
  else
    let taken := take (Z.to_nat (io (w_nwrite w) count)) bytes in
    mkWorld (w_block w) (put_at (Z.to_nat (w_pos w)) taken (w_target w))
      (w_pos w + Z.of_nat (length taken)) (Z.of_nat (length taken) <? count)
      (S (w_nwrite w)) (w_nrandom w) tr (w_log w).

(** One round of either write loop:
    [if ( rules->random ) FillBlock(owBlock,rules); devfd.write(owBlock, count);] *)
Definition cycle (rules : OverWriteRule) (count : Z) (w : World) : outcome World :=
  w1 ← (if random rules =? 0 then Ok w else FillBlock rules w);
  Ok (write count w1).

(** [&wPolicies[_ValidPolicySel].rules[step]]. *)
Definition rule_at (P : WipePolicy) (step : Z) : outcome OverWriteRule :=
  match rules P !! Z.to_nat step with
  | Some r => Ok r
  | None => Fault (RuleOverread step)
  end.

(** The body of the loop over [step] in [main]: one pass. *)
Definition pass (P : WipePolicy) (size : Z) (step : Z) (w : World) : outcome World :=
  rules ← rule_at P step;
  let w := seekp0 w in
  let w := Log (if random rules =? 0 then MsgBuilding step else MsgScheduling step) w in
  let w := Log (MsgStepStart step) w in
  w ← FillBlock rules w;
  w ← for_loop 1 (size / blockSize) (fun cs => cycle rules blockSize) w;
  w ← for_loop 0 (size mod blockSize) (fun cb => cycle rules 1) w;
  Ok (Log (MsgStepDone step) w).

(** [wPolicies[_ValidPolicySel]]. *)
Definition policy_at (sel : Z) : outcome WipePolicy :=
  match wPolicies !! Z.to_nat sel with
  | Some P => if bool_decide (0 ≤ sel) then Ok P else Fault (PolicyOverread sel)
  | None => Fault (PolicyOverread sel)
  end.

(** The world when [main] starts: nothing written, nothing logged, the block
    [owBlock] holding whatever the stack holds. *)
Definition boot (t : Target) (stack : list byte) : World :=
  mkWorld (resize (Z.to_nat blockSize) x00 stack) (t_bytes t) 0 false 0 0 []
    ReportLog_new.

(** [std::ofstream devfd(_DeviceName.c_str())]. *)
Definition open_devfd (t : Target) (w : World) : World :=
  mkWorld (w_block w)
    (if t_opens t && negb (t_blk t) then [] else w_target w)
    0 (negb (t_opens t)) (w_nwrite w) (w_nrandom w) (w_trace w) (w_log w).

(** [DiskWiper::main] from the point where [ParseOption] has answered
    [E_CONTINUE]. The answer is the return code with the world left. *)
Definition main (o : Options) (t : Target) (stack : list byte) : outcome (Z * World) :=
  let w := boot t stack in
  let w := if _Reporting o then set_log (Open (w_log w)) w else w in
  let w := if _Quite o then set_log (SetQuite true (w_log w)) w else w in
  let w := Log MsgSessionStart w in
  P ← policy_at (_ValidPolicySel o);
  let w := Log (MsgPolicySelected (name P)) w in
  let w := Log (MsgPasses (passes P)) w in
  let w := Log (MsgTargetDevice (_DeviceName o)) w in
  let w := Log (MsgDevice (_DeviceName o)) w in
  let size := t_size t in
  let w := Log (MsgDeviceSize size) w in
  if size =? 0 then
    let w := Log MsgInvalidSize w in
    let w := Log MsgSessionAborted w in
    Ok (E_FAILURE, w)
  else
    let w := open_devfd t w in
    w ← for_loop 0 (passes P) (pass P size) w;
    let w := Log MsgSessionDone w in
    let w := Log MsgSeparator w in
    Ok (E_SUCCESS, w).

End Engine.

(** ** Notions the properties are stated with *)

(** The counts of the [write] calls of a trace, in order. *)
Definition writes_of (tr : list Event) : list Z :=
  omap (fun e => match e with EvWrite c _ => Some c | _ => None end) tr.

(** The random draws of a trace, in order. *)
Definition draws_of (tr : list Event) : list nat :=
  omap (fun e => match e with EvRandom n => Some n | _ => None end) tr.

(** A target that takes every byte handed to it. *)
Definition io_all : nat → Z → Z := fun _ count => count.



(** A rule made by one of the two initializers of the tables: random with
    a null [data], or a pattern of 1 or 3 bytes with its exact length. *)
Definition catalog_rule (r : OverWriteRule) : Prop :=
  r = rnd_rule ∨ ∃ bs, r = pat_rule bs (Z.of_nat (length bs)) ∧
                        (length bs = 1%nat ∨ length bs = 3%nat).

(** The three rotations of a 3-byte pattern. *)
Definition rot3 (a b c : byte) : list PassKind :=
  [Fixed [a; b; c]; Fixed [b; c; a]; Fixed [c; a; b]].

(** The 16 one-byte patterns 0x00, 0x11, ..., 0xFF. *)
Definition walking_nibble : list PassKind :=
  (fun i => Fixed [default x00 (Byte.of_N (N.of_nat (17 * i)))]) <$> seq 0 16.

(** The 35 passes of the method as Gutmann's paper tabulates them: passes
    1-4 random, 5-6 [55] and [AA], 7-9 the rotations of [92 49 24], 10-25
    [00], [11], ..., [FF], 26-28 the rotations of [92 49 24] again, 29-31
    the rotations of [6D B6 DB], 32-35 random. *)
Definition Gutmann_published : list PassKind :=
  replicate 4 Random
  ++ [Fixed [x55]; Fixed [xaa]]
  ++ rot3 x92 x49 x24
  ++ walking_nibble
  ++ rot3 x92 x49 x24
  ++ rot3 x6d xb6 xdb
  ++ replicate 4 Random.

(** The messages [main] hands to the log before the size is looked at. *)
Definition log_header (P : WipePolicy) (dev : string) (size : Z) : list LogMsg :=
  [MsgSessionStart; MsgPolicySelected (name P); MsgPasses (passes P);
   MsgTargetDevice dev; MsgDevice dev; MsgDeviceSize size].

(** The messages of pass [step]. *)
Definition log_pass (P : WipePolicy) (step : Z) : list LogMsg :=
  match rules P !! Z.to_nat step with
  | Some r =>
      [if random r =? 0 then MsgBuilding step else MsgScheduling step;
       MsgStepStart step; MsgStepDone step]
  | None => []
  end.

(** The messages of a whole session. *)
Definition log_session (P : WipePolicy) (dev : string) (size : Z) : list LogMsg :=
  log_header P dev size ++
  if size =? 0 then [MsgInvalidSize; MsgSessionAborted]
  else concat (log_pass P <$> seqZ 0 (passes P)) ++ [MsgSessionDone; MsgSeparator].

(** The kinds of event the specification of the log names, and two more for
    the lines that have no name there. *)
Inductive EventKind :=
  | KSessionStart
  | KPolicyName
  | KPassCount
  | KTargetId
  | KTargetSize
  | KSizeInvalid
  | KPassStart (step : Z)
  | KPassDone (step : Z)
  | KSessionDone
  | KSessionAborted
  | KBlockPrepared (step : Z)
  | KSeparator.

#[global] Instance EventKind_eq_dec : EqDecision EventKind.
Proof. solve_decision. Defined.

Definition kind_of_msg (m : LogMsg) : EventKind :=
  match m with
  | MsgSessionStart => KSessionStart
  | MsgPolicySelected _ => KPolicyName
  | MsgPasses _ => KPassCount
  | MsgTargetDevice _ => KTargetId
  | MsgDevice _ => KTargetId
  | MsgDeviceSize _ => KTargetSize
  | MsgInvalidSize => KSizeInvalid
  | MsgSessionAborted => KSessionAborted
  | MsgBuilding s => KBlockPrepared s
  | MsgScheduling s => KBlockPrepared s
  | MsgStepStart s => KPassStart s
  | MsgStepDone s => KPassDone s
  | MsgSessionDone => KSessionDone
  | MsgSeparator => KSeparator
  end.

(** The order of events as the specification words it: session-start,
    policy-name, pass-count, target-identifier, target-size (or size-invalid
    abort), then per pass pass-start and pass-done, finally session-done or
    session-aborted. *)
Definition spec_order (npasses : Z) (size : Z) : list EventKind :=
  [KSessionStart; KPolicyName; KPassCount; KTargetId] ++
  if size =? 0 then [KSizeInvalid; KSessionAborted]
  else [KTargetSize]
       ++ concat ((fun s => [KPassStart s; KPassDone s]) <$> seqZ 0 npasses)
       ++ [KSessionDone].

(** The form YYYY-MM-DD-HH-MM-SSZ: digits where the letters are. *)
Definition is_digit (c : ascii) : bool :=
  (48 <=? nat_of_ascii c)%nat && (nat_of_ascii c <=? 57)%nat.

Fixpoint shape (s : string) : string :=
  match s with
  | EmptyString => EmptyString
  | String c s' => String (if is_digit c then "d"%char else c) (shape s')
  end.

Definition is_timestamp (s : string) : bool :=
  bool_decide (shape s = "dddd-dd-dd-dd-dd-ddZ").

(** The times [std::gmtime] gives in the years 1000 to 9999. *)
Definition tm_valid (t : tm) : Prop :=
  1000 ≤ tm_year t + 1900 ≤ 9999 ∧ 0 ≤ tm_mon t ≤ 11 ∧ 1 ≤ tm_mday t ≤ 31 ∧
  0 ≤ tm_hour t ≤ 23 ∧ 0 ≤ tm_min t ≤ 59 ∧ 0 ≤ tm_sec t ≤ 60.

(** One round of a write loop as a function of the world: the block is
    drawn again for a random rule and left alone for a pattern rule, then
    written. *)
Definition refill (rnd : nat → list byte) (rules : OverWriteRule) (w : World) : World :=
  if random rules =? 0 then w else GetRandomData rnd blockSize w.

Definition round (rnd : nat → list byte) (io : nat → Z → Z) (rules : OverWriteRule)
    (count : Z) (w : World) : World :=
  write io count (refill rnd rules w).

(** The world of a pass when the first [FillBlock] is reached. *)
Definition prologue (clock : nat → tm) (rules : OverWriteRule) (step : Z) (w : World)
    : World :=
  Log clock (MsgStepStart step)
    (Log clock (if random rules =? 0 then MsgBuilding step else MsgScheduling step)
       (seekp0 w)).

(** The two write loops and the closing message of a pass, from the world
    [w] the first [FillBlock] leaves. *)
Definition epilogue (rnd : nat → list byte) (io : nat → Z → Z) (clock : nat → tm)
    (rules : OverWriteRule) (size step : Z) (w : World) : World :=
  Log clock (MsgStepDone step)
    (Nat.iter (Z.to_nat (size mod blockSize)) (round rnd io rules 1)
       (Nat.iter (Z.to_nat (size / blockSize - 1)) (round rnd io rules blockSize) w)).

(** The report log of [main] once the options are applied. *)
Definition log_boot (o : Options) : ReportLog :=
  mkLog (_Reporting o) (_Quite o) 0 [] [] [].

(** The report log after the messages [ms]. *)
Definition log_after (clock : nat → tm) (l : ReportLog) (ms : list LogMsg) : ReportLog :=
  foldl (fun l m => Log_ clock m l) l ms.
Arguments log_after : simpl never.

(** The events a world has seen since an earlier one. *)
Definition since (w w' : World) : list Event :=
  drop (length (w_trace w)) (w_trace w').


(** The world of [main] after the message with the size. *)
Definition header_world (clock : nat → tm) (o : Options) (t : Target)
    (stack : list byte) (P : WipePolicy) : World :=
  let w := boot t stack in
  let w := if _Reporting o then set_log (Open (w_log w)) w else w in
  let w := if _Quite o then set_log (SetQuite true (w_log w)) w else w in
  let w := Log clock MsgSessionStart w in
  let w := Log clock (MsgPolicySelected (name P)) w in
  let w := Log clock (MsgPasses (passes P)) w in
  let w := Log clock (MsgTargetDevice (_DeviceName o)) w in
  let w := Log clock (MsgDevice (_DeviceName o)) w in
  Log clock (MsgDeviceSize (t_size t)) w.

(** The messages [ms] with the times read for them, the clock at its
    [n]-th reading when the first is logged. *)
Definition stamped (clock : nat → tm) (n : nat) (ms : list LogMsg) : list (tm * LogMsg) :=
  imap (fun i m => (clock (n + i)%nat, m)) ms.

(** The number of bytes a pass hands to [write]: the counts of its calls
    added up. *)
Definition handed (size : Z) : Z :=
  Z.of_nat (Z.to_nat (size / blockSize - 1)) * blockSize
  + Z.of_nat (Z.to_nat (size mod blockSize)).

(** The put position is inside the target or at its end. *)
Definition pos_ok (w : World) : Prop :=
  0 ≤ w_pos w ≤ Z.of_nat (length (w_target w)).

(** Inputs for the examples: a random source that delivers blocks of
    zeroes, no randomness at all, a clock stopped on 2013-01-01, a quiet
    stack. *)
Definition rnd_zero : nat → list byte := fun _ => replicate (Z.to_nat blockSize) x00.
Definition rnd_dry : nat → list byte := fun _ => [].
Definition clock_2013 : nat → tm := fun _ => mkTm 113 0 1 0 0 0.

(** ** The rest of the program: the wrappers of the operating system, the
    options, the help and the policy pages *)

(** Values of the system headers the source names: [ENOENT] of <errno.h>,
    [W_OK] of <unistd.h>, [S_IFBLK] (octal 0060000), [S_IFCHR] (0020000),
    [S_IFDIR] (0040000) and [S_IFREG] (0100000) of <sys/stat.h>. *)
Definition ENOENT : Z := 2.
Definition W_OK : Z := 2.
Definition S_IFBLK : Z := 24576.
Definition S_IFCHR : Z := 8192.
Definition S_IFDIR : Z := 16384.
Definition S_IFREG : Z := 32768.

(** Conversion of a value to [unsigned int]. *)
Definition to_uint (z : Z) : Z := z mod 2 ^ 32.

(** The standard error stream, line by line, the files the program has
    created, and the number of questions asked to the file system so far. *)
Record Host := mkHost {
  h_cerr : list string;
  h_created : list string;
  h_asked : nat
}.

(** [std::cerr << text << std::endl]. *)
Definition say (text : string) (h : Host) : Host :=
  mkHost (h_cerr h ++ [text]) (h_created h) (h_asked h).

(** What [open], [fstat] and the two [ioctl] calls of [OS::GetDeviceSize]
    leave in its variables. *)
Record DeviceAnswers := mkAnswers {
  a_fd : Z;             (* [fd = open(device,O_RDONLY)] *)
  a_mode : Z;           (* [st.st_mode] *)
  a_size : Z;           (* [st.st_size] *)
  a_block_size : Z;     (* [block_size], an [unsigned int], after [DKIOCGETPHYSICALBLOCKSIZE] *)
  a_block_count : Z     (* [block_count], an [unsigned int], after [DKIOCGETBLOCKCOUNT] *)
}.

Module OS.

Definition AccessOK : Z := 0.

Module Perm.
Definition W : Z := W_OK.
End Perm.

Section Files.

(** The answers of the file system to its [n]-th question: the value of
    [access(path,mode)] with [errno], and whether
    [std::ofstream testfd(path,std::fstream::out)] is open. *)
Variable os_access : nat → string → Z → Z * Z.
Variable os_create : nat → string → bool.

(** [OS::AccessFile(path, mode)]. *)
Definition AccessFile (path : string) (mode : Z) (h : Host) : Z * Host :=
  let '(ret, errno) := os_access (h_asked h) path mode in
  if (ret <? 0) && (errno =? ENOENT) then
    if os_create (h_asked h) path
    then (0, mkHost (h_cerr h) (h_created h ++ [path]) (S (h_asked h)))
    else (ret, mkHost (h_cerr h) (h_created h) (S (h_asked h)))
  else (ret, mkHost (h_cerr h) (h_created h) (S (h_asked h))).

End Files.

(** [OS::GetDeviceSize(device)], the branch [#ifdef __APPLE__]. *)
Definition GetDeviceSize (a : DeviceAnswers) : Z :=
  let size := 0 in
  if 0 <? a_fd a then
    if Z.land (a_mode a) S_IFBLK =? 0
    then to_uint (a_size a)
    else to_uint (a_block_count a * a_block_size a)
  else size.

End OS.

(** The value a function gives back: a code, or nothing that the source
    defines when the function ends without a [return]. *)
Inductive retval :=
  | Code (c : Z)
  | Indeterminate.

(** How [DiskWiper::main] ends: with the code of [ParseOption] before any
    session, with [ret] holding no value the source defines, with the session
    run, or with a read of [_ValidPolicySel] that nothing has set. *)
Inductive finished :=
  | Exit (c : Z)
  | Undefined
  | Session (code : Z) (w : World)
  | Unset.

Definition TAB : string := String "009"%char EmptyString.

(** A digit of [std::hex << std::uppercase]. *)
Definition hex_digit (n : Z) : ascii :=
  default "?"%char (list_ascii_of_string "0123456789ABCDEF" !! Z.to_nat n).

(** [tmp << std::hex << std::uppercase << (rule->data[k] & 0xFF)]: a value
    from 0 to 255, no padding. *)
Definition hex (v : Z) : string :=
  if v <? 16 then String (hex_digit v) EmptyString
  else String (hex_digit (v / 16)) (String (hex_digit (v mod 16)) EmptyString).

(** [for ( int z = 0; z < 8; z++ ) tmp << ((raw >> z) & 0x1);] *)
Definition bits (raw : Z) : string :=
  string_of_list_ascii
    ((fun z => if Z.land (Z.shiftr raw z) 1 =? 0 then "0"%char else "1"%char)
     <$> seqZ 0 8).

(** [rule->data[k] & 0xFF]. *)
Definition byte_value (c : byte) : Z := Z.land (Z.of_N (Byte.to_N c)) 255.

Module DiskWiper.

(** The members of [class DiskWiper]. [_ValidPolicySel] is [None] until it
    is assigned: the constructor leaves it alone. *)
Record t := mk {
  _PolicySelection : string;
  _DeviceName : string;
  _ReportFile : string;
  _ShowDetails : string;
  _Quite : bool;
  _Help : bool;
  _Show : bool;
  _Policy : bool;
  _Device : bool;
  _Reporting : bool;
  _ValidPolicySel : option Z
}.

(** [DiskWiper::DiskWiper()]. *)
Definition new : t := mk "" "" "" "" false false false false false false None.

(** The line of a policy in the help page. *)
Definition policy_line (i : Z) (Pol : WipePolicy) : string :=
  dec (i + 1) +:+ ") " +:+ name Pol +:+ " ( " +:+ dec (passes Pol) +:+ " passes ) ".

(** [DiskWiper::Usage()]; it returns [E_FAILURE]. *)
Definition Usage (h : Host) : Host :=
  let h := say "DiskWiper, Giacomo Milani, 0.2" h in
  let h := say "" h in
  let h := say "./diskwiper [-r <report.log>] -p <policy number> -d </dev/hdX>" h in
  let h := say ("-h" +:+ TAB +:+ TAB +:+ "this help page") h in
  let h := say ("-s <dgt>" +:+ TAB +:+ "show details about a <dgt> wipe policy number") h in
  let h := say ("-p <dgt>" +:+ TAB +:+ "select <dgt> policy number for the wipe process") h in
  let h := say ("-r <file>" +:+ TAB +:+ "write a report log to file") h in
  let h := say ("-d <dev>" +:+ TAB +:+ "disk divice to wipe") h in
  let h := say "" h in
  let h := say "Wipe Policies: " h in
  let h := foldl (fun h iP => say (policy_line (Z.of_nat iP.1) iP.2) h) h
             (imap pair wPolicies) in
  say "" h.

(** The two loops over [k] of [ShowPolicyDetail]: the bytes in hexadecimal,
    a colon, the bytes bit by bit. *)
Definition rule_text (rule : OverWriteRule) : outcome string :=
  tmp ← for_loop 0 (datalen rule)
          (fun k tmp => c ← load rule k; Ok (tmp +:+ hex (byte_value c) +:+ " ")) "";
  let tmp := tmp +:+ ": " in
  for_loop 0 (datalen rule)
    (fun k tmp => c ← load rule k; Ok (tmp +:+ bits (byte_value c) +:+ " ")) tmp.

(** The body of the loop over [i] of [ShowPolicyDetail]. *)
Definition show_step (policy : WipePolicy) (i : Z) (h : Host) : outcome Host :=
  match rules policy !! Z.to_nat i with
  | None => Fault (RuleOverread i)
  | Some rule =>
      if random rule =? 0 then
        tmp ← rule_text rule;
        Ok (say ("Step " +:+ dec (i + 1) +:+ ": " +:+ tmp) h)
      else Ok (say ("Step " +:+ dec (i + 1) +:+ ": random bytes") h)
  end.

(** [DiskWiper::ShowPolicyDetail(policy)]. The function ends without a
    [return]: its value is [Indeterminate]. *)
Definition ShowPolicyDetail (policy : WipePolicy) (h : Host) : outcome Host :=
  let h := say ("Policy: " +:+ name policy) h in
  let h := say ("Passes: " +:+ dec (passes policy)) h in
  h ← for_loop 0 (passes policy) (show_step policy) h;
  Ok (say "" h).

(** The [switch] of the loop over [getopt(ac,av,"hs:p:d:r:q")]: [cmd] is
    the letter [getopt] gives back, [optarg] its argument. *)
Definition getopt_case (dw : t) (o : ascii * string) : t :=
  let '(cmd, optarg) := o in
  if Ascii.eqb cmd "h" then
    mk (_PolicySelection dw) (_DeviceName dw) (_ReportFile dw) (_ShowDetails dw)
      (_Quite dw) true (_Show dw) (_Policy dw) (_Device dw) (_Reporting dw)
      (_ValidPolicySel dw)
  else if Ascii.eqb cmd "q" then
    mk (_PolicySelection dw) (_DeviceName dw) (_ReportFile dw) (_ShowDetails dw)
      true (_Help dw) (_Show dw) (_Policy dw) (_Device dw) (_Reporting dw)
      (_ValidPolicySel dw)
  else if Ascii.eqb cmd "s" then
    mk (_PolicySelection dw) (_DeviceName dw) (_ReportFile dw) optarg
      (_Quite dw) (_Help dw) true (_Policy dw) (_Device dw) (_Reporting dw)
      (_ValidPolicySel dw)
  else if Ascii.eqb cmd "p" then
    mk optarg (_DeviceName dw) (_ReportFile dw) (_ShowDetails dw)
      (_Quite dw) (_Help dw) (_Show dw) true (_Device dw) (_Reporting dw)
      (_ValidPolicySel dw)
  else if Ascii.eqb cmd "d" then
    mk (_PolicySelection dw) optarg (_ReportFile dw) (_ShowDetails dw)
      (_Quite dw) (_Help dw) (_Show dw) (_Policy dw) true (_Reporting dw)
      (_ValidPolicySel dw)
  else if Ascii.eqb cmd "r" then
    mk (_PolicySelection dw) (_DeviceName dw) optarg (_ShowDetails dw)
      (_Quite dw) (_Help dw) (_Show dw) (_Policy dw) (_Device dw) true
      (_ValidPolicySel dw)
  else dw.

(** What a call of [getopt] does besides giving back a letter. [opterr] is
    never cleared and the option string does not begin with a colon, so for
    a letter that is not in the string, and for a letter whose argument is
    missing, [getopt] writes one line of its own to the standard error
    stream and gives back '?'; for every other letter it writes nothing.
    The entry of a '?' in the list of what [getopt] gives back carries that
    line, whose wording is the C library's, in the place of [optarg], which
    the switch does not read then. *)
Definition getopt_cerr (h : Host) (o : ascii * string) : Host :=
  let '(cmd, line) := o in
  if Ascii.eqb cmd "?" then say line h else h.

(** [_ValidPolicySel = sel-1]. *)
Definition set_ValidPolicySel (v : Z) (dw : t) : t :=
  mk (_PolicySelection dw) (_DeviceName dw) (_ReportFile dw) (_ShowDetails dw)
    (_Quite dw) (_Help dw) (_Show dw) (_Policy dw) (_Device dw) (_Reporting dw)
    (Some v).

Section Program.

(** [atoi] of the C library, and the oracles of the file system, of the
    random source, of the target and of the clock. *)
Variable atoi : string → Z.
Variable os_access : nat → string → Z → Z * Z.
Variable os_create : nat → string → bool.
Variable rnd : nat → list byte.
Variable io : nat → Z → Z.
Variable clock : nat → tm.

(** [DiskWiper::ParseOption(ac, av)], [opts] being what the calls of
    [getopt] give back in turn: the loop sets the members, and the standard
    error stream gets the lines [getopt] writes while it runs. In
    [sel > N_POLICIES] the number [sel] is at least 1, so its conversion to
    the unsigned type of [N_POLICIES] keeps its value. *)
Definition ParseOption (opts : list (ascii * string)) (dw : t) (h : Host)
    : outcome (retval * t * Host) :=
  let dw := foldl getopt_case dw opts in
  let h := foldl getopt_cerr h opts in
  if _Help dw then Ok (Code E_FAILURE, dw, Usage h)
  else if _Show dw then
    let sel := atoi (_ShowDetails dw) in
    if (sel <? 1) || (N_POLICIES <? sel)
    then Ok (Code E_FAILURE, dw, say "Bad Option (-s): Invalid Policy Number" h)
    else
      policy ← policy_at (sel - 1);
      h ← ShowPolicyDetail policy h;
      Ok (Indeterminate, dw, h)
  else
    match
      (if _Policy dw then
         let sel := atoi (_PolicySelection dw) in
         if (sel <? 1) || (N_POLICIES <? sel)
         then inl (say "Bad Option (-p): Invalid Policy Number" h)
         else if negb (_Device dw)
         then inl (say "Bad Parameters: you have select valid policy (-p) but a valid device (-d) is missing" h)
         else inr (set_ValidPolicySel (sel - 1) dw, h)
       else inr (dw, h))
    with
    | inl h => Ok (Code E_FAILURE, dw, h)
    | inr (dw, h) =>
        match
          (if _Device dw then
             let '(acc, h) := OS.AccessFile os_access os_create (_DeviceName dw) OS.Perm.W h in
             if negb (acc =? OS.AccessOK)
             then inl (say ("Bad Device File Access: Check file path and permissions: "
                            +:+ _DeviceName dw) h)
             else if negb (_Policy dw)
             then inl (say "Bad Parameters: you have select a valid device name (-d) but a valid policy (-p) is missing" h)
             else inr h
           else inr h)
        with
        | inl h => Ok (Code E_FAILURE, dw, h)
        | inr h =>
            match
              (if _Reporting dw then
                 let '(acc, h) := OS.AccessFile os_access os_create (_ReportFile dw) OS.Perm.W h in
                 if negb (acc =? OS.AccessOK)
                 then inl (say ("Bad Report File Access: Check path and permissions: "
                                +:+ _ReportFile dw) h)
                 else inr h
               else inr h)
            with
            | inl h => Ok (Code E_FAILURE, dw, h)
            | inr h =>
                if negb (_Device dw) || negb (_Policy dw)
                then Ok (Code E_FAILURE, dw,
                         say "Please read diskwiper inline help: ./diskwiper -h" h)
                else Ok (Code E_CONTINUE, dw, h)
            end
        end
    end.

(** [DiskWiper::main(argc, argv)]: the options, and then the session of
    [main] above on the target, with the size [OS::GetDeviceSize] finds. *)
Definition main (opts : list (ascii * string)) (a : DeviceAnswers)
    (bytes : list byte) (blk opens : bool) (stack : list byte) (h : Host)
    : outcome (finished * Host) :=
  '(ret, dw, h) ← ParseOption opts new h;
  match ret with
  | Indeterminate => Ok (Undefined, h)
  | Code c =>
      if c =? E_CONTINUE then
        match _ValidPolicySel dw with
        | None => Ok (Unset, h)
        | Some sel =>
            '(code, w) ← main rnd io clock
                           (mkOptions sel (_DeviceName dw) (_Reporting dw) (_Quite dw))
                           (mkTarget (OS.GetDeviceSize a) bytes blk opens) stack;
            Ok (Session code w, h)
        end
      else Ok (Exit c, h)
  end.

End Program.

End DiskWiper.

(** The letters [getopt] gave back, whether [c] is among them, and the
    argument of the last [c]. *)
Definition letters (opts : list (ascii * string)) : list ascii := opts.*1.

Definition given (c : ascii) (opts : list (ascii * string)) : bool :=
  bool_decide (c ∈ letters opts).

Definition last_arg (c : ascii) (opts : list (ascii * string)) : string :=
  default "" (last (filter (fun o => o.1 = c) opts).*2).

(** The lines [getopt] wrote to the standard error stream, one for each
    '?' it gave back, and the host after the loop over [getopt]. *)
Definition complaints (opts : list (ascii * string)) : list string :=
  (filter (fun o => o.1 = "?"%char) opts).*2.

Definition heard (opts : list (ascii * string)) (h : Host) : Host :=
  mkHost (h_cerr h ++ complaints opts) (h_created h) (h_asked h).

(** The parts of a step line of the policy page, byte by byte. *)
Definition hex_part (d : list byte) : string :=
  foldr (fun c s => hex (byte_value c) +:+ " " +:+ s) "" d.

Definition bits_part (d : list byte) : string :=
  foldr (fun c s => bits (byte_value c) +:+ " " +:+ s) "" d.

(** The line of step [i] of a policy page for the rule [r], the page of a
    policy, and the policies whose page can be made: every step up to
    [passes] has a rule, and a rule that is not random has [datalen] bytes
    behind [data]. *)
Definition step_line (r : OverWriteRule) (i : Z) : string :=
  "Step " +:+ dec (i + 1) +:+ ": "
  +:+ (if random r =? 0 then
         hex_part (pattern_of r) +:+ ": " +:+ bits_part (pattern_of r)
       else "random bytes").

Definition page (P : WipePolicy) : list string :=
  ["Policy: " +:+ name P; "Passes: " +:+ dec (passes P)]
  ++ ((fun i => match rules P !! Z.to_nat i with
                | Some r => step_line r i
                | None => ""
                end) <$> seqZ 0 (passes P))
  ++ [""].

Definition showable (P : WipePolicy) : Prop :=
  ∀ i, 0 ≤ i < passes P →
    ∃ r, rules P !! Z.to_nat i = Some r
      ∧ (random r = 0 → ∃ d, data r = Some d ∧ datalen r ≤ Z.of_nat (length d)).

(** What [ParseOption] does after the loop over [getopt] when neither [-h]
    nor [-s] is given, told by the options: the value it returns and the
    host it leaves, from the host [h] the loop has left. *)
Definition checks (atoi : string → Z) (os_access : nat → string → Z → Z * Z)
    (os_create : nat → string → bool) (opts : list (ascii * string)) (h : Host)
    : retval * Host :=
  let sel := atoi (last_arg "p" opts) in
  let dev := last_arg "d" opts in
  let rep := last_arg "r" opts in
  if given "p" opts && ((sel <? 1) || (N_POLICIES <? sel))
  then (Code E_FAILURE, say "Bad Option (-p): Invalid Policy Number" h)
  else if given "p" opts && negb (given "d" opts)
  then (Code E_FAILURE,
        say "Bad Parameters: you have select valid policy (-p) but a valid device (-d) is missing" h)
  else
    let a1 := OS.AccessFile os_access os_create dev OS.Perm.W h in
    if given "d" opts && negb (a1.1 =? OS.AccessOK)
    then (Code E_FAILURE,
          say ("Bad Device File Access: Check file path and permissions: " +:+ dev) a1.2)
    else if given "d" opts && negb (given "p" opts)
    then (Code E_FAILURE,
          say "Bad Parameters: you have select a valid device name (-d) but a valid policy (-p) is missing" a1.2)
    else
      let h1 := if given "d" opts then a1.2 else h in
      let a2 := OS.AccessFile os_access os_create rep OS.Perm.W h1 in
      if given "r" opts && negb (a2.1 =? OS.AccessOK)
      then (Code E_FAILURE,
            say ("Bad Report File Access: Check path and permissions: " +:+ rep) a2.2)
      else
        let h2 := if given "r" opts then a2.2 else h1 in
        if negb (given "d" opts) || negb (given "p" opts)
        then (Code E_FAILURE, say "Please read diskwiper inline help: ./diskwiper -h" h2)
        else (Code E_CONTINUE, h2).

(** Example answers: an [atoi] for plain numerals, a file system where
    every path is writable, one where no path exists yet and every file can
    be made, and a regular file of 4 GiB. *)
Definition atoi_plain (s : string) : Z :=
  match NilZero.int_of_string s with
  | Some d => Z.of_int d
  | None => 0
  end.

Definition access_ok : nat → string → Z → Z * Z := fun _ _ _ => (0, 0).

Definition access_missing : nat → string → Z → Z * Z := fun _ _ _ => (-1, ENOENT).

Definition create_ok : nat → string → bool := fun _ _ => true.

Definition create_no : nat → string → bool := fun _ _ => false.

Definition host0 : Host := mkHost [] [] 0.

(** Example command lines, as [getopt] hands them over, and example
    devices. *)
Definition opts_help : list (ascii * string) :=
  [("p"%char, "1"); ("d"%char, "/dev/disk1"); ("h"%char, "")].

Definition opts_show : list (ascii * string) :=
  [("s"%char, "3"); ("d"%char, "/dev/disk1")].

Definition opts_bad : list (ascii * string) :=
  [("d"%char, "disk.img"); ("p"%char, "6"); ("r"%char, "report.log")].

Definition opts_device : list (ascii * string) := [("d"%char, "disk.img")].

Definition opts_report : list (ascii * string) := [("r"%char, "report.log")].

Definition opts_run : list (ascii * string) :=
  [("q"%char, ""); ("p"%char, "1"); ("p"%char, "3"); ("d"%char, "disk.img");
   ("r"%char, "report.log")].

(** The command line [-z -q -p 1 -d f5], with the line [getopt] writes
    for the letter it does not know. *)
Definition opts_odd : list (ascii * string) :=
  [("?"%char, "diskwiper: illegal option -- z"); ("q"%char, "");
   ("p"%char, "1"); ("d"%char, "f5")].

Definition disk1 : DeviceAnswers := mkAnswers 3 S_IFBLK 0 512 1000.

Definition file_4GiB : DeviceAnswers := mkAnswers 3 S_IFREG (2 ^ 32) 0 0.

(** A world whose block holds 0xFF throughout, and a pattern rule of no
    bytes. *)
Definition world_ff : World :=
  mkWorld (replicate (Z.to_nat blockSize) xff) [] 0 false 0 0 [] ReportLog_new.

Definition rule_empty : OverWriteRule := mkRule (lit []) 0 0 0.

(** The stream is good, and the target is as long as it was, [L], or as far
    as the put position has come. *)
Definition grown (L : Z) (w : World) : Prop :=
  w_bad w = false ∧ 0 ≤ w_pos w
  ∧ Z.of_nat (length (w_target w)) = Z.max L (w_pos w)
  ∧ Z.of_nat (length (w_block w)) = blockSize.

(** The block is the one of [w0], and what was handed to [write] since
    [w0] was cut from it. *)
Definition stale (w0 w : World) : Prop :=
  w_block w = w_block w0
  ∧ ∃ tr, w_trace w = w_trace w0 ++ tr
      ∧ ∀ count bs, EvWrite count bs ∈ tr → bs = take (Z.to_nat count) (w_block w0).

(** The eight binary digits of a value from 0 to 255, the most significant
    first. *)
Definition binary8 (v : Z) : string :=
  string_of_list_ascii
    ((fun z => if Z.testbit v (7 - z) then "1"%char else "0"%char) <$> seqZ 0 8).

(** The value of a numeral in base 16 with the digits 0-9 and A-F. *)
Definition hex_value (s : string) : option Z :=
  foldl (fun acc c =>
           v ← acc;
           d ← list_find (fun x => x = c) (list_ascii_of_string "0123456789ABCDEF");
           Some (16 * v + Z.of_nat d.1))
        (Some 0) (list_ascii_of_string s).

(** * Properties *)

(** ** The policy tables *)

Lemma wPolicies_cases (P : WipePolicy) :
  P ∈ wPolicies →
  P = FastPolicy ∨ P = GostPolicy ∨ P = DOD522022MPolicy ∨ P = VsitrPolicy
  ∨ P = PeterGutmannPolicy.
Proof.
  unfold wPolicies. rewrite !elem_of_cons, elem_of_nil. tauto.
Qed.

Lemma passes_length (P : WipePolicy) :
  P ∈ wPolicies → passes P = Z.of_nat (length (rules P)).
Proof.
  intros HP. apply wPolicies_cases in HP.
  destruct HP as [->|[->|[->|[->| ->]]]]; reflexivity.
Qed.

Lemma catalog_rule_dec (r : OverWriteRule) :
  (random r =? 1) && bool_decide (data r = None) && (datalen r =? 0)
    && (_reserved r =? 0)
  || (random r =? 0) && (_reserved r =? 0)
     && match data r with
        | Some [a; z] => bool_decide (z = x00) && (datalen r =? 1)
        | Some [a; b; c; z] => bool_decide (z = x00) && (datalen r =? 3)
        | _ => false
        end = true →
  catalog_rule r.
Proof.
  destruct r as [d l rn rs]; simpl. intros H.
  apply orb_true_iff in H as [H|H].
  - left. repeat (apply andb_true_iff in H as [H ?]).
    apply Z.eqb_eq in H. apply bool_decide_eq_true in H2.
    repeat match goal with E : (_ =? _) = true |- _ => apply Z.eqb_eq in E end.
    subst. reflexivity.
  - right. repeat (apply andb_true_iff in H as [H ?]).
    repeat match goal with E : (_ =? _) = true |- _ => apply Z.eqb_eq in E end.
    subst.
    destruct d as [[|a [|b [|c [|z [|? ?]]]]]|]; try discriminate.
    + apply andb_true_iff in H0 as [Hz Hl].
      apply bool_decide_eq_true in Hz. apply Z.eqb_eq in Hl. subst.
      exists [a]. split; [reflexivity | left; reflexivity].
    + apply andb_true_iff in H0 as [Hz Hl].
      apply bool_decide_eq_true in Hz. apply Z.eqb_eq in Hl. subst.
      exists [a; b; c]. split; [reflexivity | right; reflexivity].
Qed.

Lemma catalog_rules (P : WipePolicy) (r : OverWriteRule) :
  P ∈ wPolicies → r ∈ rules P → catalog_rule r.
Proof.
  intros HP Hr. apply wPolicies_cases in HP.
  destruct HP as [->|[->|[->|[->| ->]]]]; simpl in Hr;
    unfold r_Fast, r_Gost, r_UsDod5220_22_M, r_VSITR, r_Gutmann in Hr;
    rewrite ?elem_of_cons, elem_of_nil in Hr;
    repeat (destruct Hr as [->|Hr]; [apply catalog_rule_dec; reflexivity|]);
    destruct Hr.
Qed.

(** C6. For every policy of the built-in catalog the stored pass count is
    the length of its rule sequence; Fast is one pass of 0x00, GOST
    P50739-95 is 0x00 then random, DoD 5220.22-M is 0x00, 0xFF, random, and
    German VSITR is the seven fixed passes 0x00, 0xFF, 0x00, 0xFF, 0x00,
    0xFF, 0xAA. *)
Theorem catalog_counts_and_sequences :
  (∀ P, P ∈ wPolicies → passes P = Z.of_nat (length (rules P))) ∧
  name <$> wPolicies =
    ["Fast"; "Russian GOST P50739-95"; "US DOD 5220.22-M"; "German VSITR";
     "Peter Gutmann"]%string ∧
  passes <$> wPolicies = [1; 2; 3; 7; 35] ∧
  kind_of <$> rules FastPolicy = [Fixed [x00]] ∧
  kind_of <$> rules GostPolicy = [Fixed [x00]; Random] ∧
  kind_of <$> rules DOD522022MPolicy = [Fixed [x00]; Fixed [xff]; Random] ∧
  kind_of <$> rules VsitrPolicy =
    [Fixed [x00]; Fixed [xff]; Fixed [x00]; Fixed [xff]; Fixed [x00];
     Fixed [xff]; Fixed [xaa]].
Proof.
  split; [exact passes_length|]. repeat split; reflexivity.
Qed.

(** C2. The Gutmann table of the source has 35 rules, 4 random, 27 fixed,
    4 random, and agrees with the published table everywhere but at its
    31st rule (index 30): there the source has the bytes DB 92 49 where the
    published method, and the comment of that very line, have DB 6D B6. *)
Theorem Gutmann_rule_31_differs :
  length r_Gutmann = 35%nat ∧
  take 4 (kind_of <$> r_Gutmann) = replicate 4 Random ∧
  drop 31 (kind_of <$> r_Gutmann) = replicate 4 Random ∧
  Forall (fun k => k ≠ Random) (take 27 (drop 4 (kind_of <$> r_Gutmann))) ∧
  (kind_of <$> r_Gutmann) !! 30%nat = Some (Fixed [xdb; x92; x49]) ∧
  Gutmann_published !! 30%nat = Some (Fixed [xdb; x6d; xb6]) ∧
  <[30%nat := Fixed [xdb; x6d; xb6]]> (kind_of <$> r_Gutmann) = Gutmann_published ∧
  kind_of <$> r_Gutmann ≠ Gutmann_published.
Proof.
  repeat split; try reflexivity.
  - vm_compute. repeat constructor; discriminate.
  - intros H. apply (f_equal (fun l => l !! 30%nat)) in H. vm_compute in H.
    discriminate.
Qed.

(** ** The outcome monad and the loops *)

Lemma bind_Ok {A B} (a : A) (k : A → outcome B) : (Ok a ≫= k) = k a.
Proof. reflexivity. Qed.

Lemma bind_Fault {A B} (f : fault) (k : A → outcome B) : (Fault f ≫= k) = Fault f.
Proof. reflexivity. Qed.

Lemma for_go_S {St} n i (body : Z → St → outcome St) s :
  for_go (S n) i body s = body i s ≫= for_go n (i + 1) body.
Proof. reflexivity. Qed.

(** A loop whose body never faults is the iteration of a function. *)
Lemma for_go_pure {St} (f : St → St) (body : Z → St → outcome St) n i s :
  (∀ j s, body j s = Ok (f s)) → for_go n i body s = Ok (Nat.iter n f s).
Proof.
  intros Hb. revert i s. induction n as [|n IH]; intros i s; [reflexivity|].
  rewrite for_go_S, Hb, bind_Ok, IH. f_equal. simpl. apply Nat.iter_swap.
Qed.

(** Invariant rule for the counted loop. *)
Lemma for_go_invariant {St} (I : Z → St → Prop) (body : Z → St → outcome St) n i s :
  I i s →
  (∀ j s, i ≤ j < i + Z.of_nat n → I j s → ∃ s', body j s = Ok s' ∧ I (j + 1) s') →
  ∃ s', for_go n i body s = Ok s' ∧ I (i + Z.of_nat n) s'.
Proof.
  revert i s. induction n as [|n IH]; intros i s Hi Hb.
  - exists s. split; [reflexivity|]. by replace (i + Z.of_nat 0) with i by lia.
  - destruct (Hb i s) as (s1 & E1 & I1); [lia|done|].
    destruct (IH (i + 1) s1) as (s2 & E2 & I2); [done| |].
    + intros j s' Hj. apply Hb. lia.
    + exists s2. rewrite for_go_S, E1, bind_Ok. split; [done|].
      by replace (i + Z.of_nat (S n)) with (i + 1 + Z.of_nat n) by lia.
Qed.

Lemma to_int_small z : - 2 ^ 31 ≤ z < 2 ^ 31 → to_int z = z.
Proof. intros H. unfold to_int. rewrite Z.mod_small; lia. Qed.

(** ** The pattern branch of the block filler *)

Section PatternFill.

(** A rule whose [data] points to at least [datalen] bytes. *)
Context (r : OverWriteRule) (s : list byte) (L : nat).
Hypothesis Hdata : data r = Some s.
Hypothesis Hlen : datalen r = Z.of_nat L.
Hypothesis HLs : (L ≤ length s)%nat.

Lemma pattern_of_take : pattern_of r = take L s.
Proof. unfold pattern_of. by rewrite Hdata, Hlen, Nat2Z.id. Qed.

Lemma load_ok dl c : s !! dl = Some c → load r (Z.of_nat dl) = Ok c.
Proof. intros E. unfold load. by rewrite Hdata, Nat2Z.id, E. Qed.

Lemma store_ok blk (i : nat) c :
  (i < length blk)%nat → store blk (Z.of_nat i) c = Ok (<[i := c]> blk).
Proof.
  intros Hi. unfold store. rewrite bool_decide_eq_true_2 by lia.
  by rewrite Nat2Z.id.
Qed.

Lemma store_overrun blk (i : nat) c :
  (length blk ≤ i)%nat → store blk (Z.of_nat i) c = Fault (BlockOverrun (Z.of_nat i)).
Proof. intros Hi. unfold store. by rewrite bool_decide_eq_false_2 by lia. Qed.

(** The inner loop from [dl] on, when the tile fits. *)
Lemma copy_go_ok (b n dl : nat) blk :
  (dl + n = L)%nat → (b + L ≤ length blk)%nat →
  for_go n (Z.of_nat dl)
    (fun dl blk => c ← load r dl; store blk (Z.of_nat b + dl) c) blk
  = Ok (take (b + dl) blk ++ drop dl (take L s) ++ drop (b + L) blk).
Proof.
  revert dl blk. induction n as [|n IH]; intros dl blk Hn Hb.
  - simpl. rewrite drop_ge by (rewrite length_take; lia). simpl.
    replace (b + dl)%nat with (b + L)%nat by lia. by rewrite take_drop.
  - destruct (lookup_lt_is_Some_2 s dl) as [c Hc]; [lia|].
    rewrite for_go_S, (load_ok _ _ Hc), bind_Ok.
    rewrite <- Nat2Z.inj_add, store_ok, bind_Ok by lia.
    replace (Z.of_nat dl + 1) with (Z.of_nat (S dl)) by lia.
    rewrite IH by (rewrite ?length_insert; lia). f_equal.
    rewrite (drop_S (take L s) c dl) by (rewrite lookup_take_lt by lia; done).
    replace (b + S dl)%nat with (S (b + dl)) by lia.
    rewrite (take_S_r _ _ c) by (apply list_lookup_insert_eq; lia).
    rewrite take_insert_ge by lia. rewrite drop_insert_lt by lia.
    by rewrite <- app_assoc.
Qed.

(** The inner loop from [dl] on, when the tile reaches past the block: the
    first store outside is at the offset just after the block. *)
Lemma copy_go_overrun (b n dl : nat) blk :
  (dl + n = L)%nat → (b + dl ≤ length blk < b + L)%nat →
  for_go n (Z.of_nat dl)
    (fun dl blk => c ← load r dl; store blk (Z.of_nat b + dl) c) blk
  = Fault (BlockOverrun (Z.of_nat (length blk))).
Proof.
  revert dl blk. induction n as [|n IH]; intros dl blk Hn Hb; [lia|].
  destruct (lookup_lt_is_Some_2 s dl) as [c Hc]; [lia|].
  rewrite for_go_S, (load_ok _ _ Hc), bind_Ok, <- Nat2Z.inj_add.
  destruct (decide (b + dl = length blk)%nat) as [E|E].
  - rewrite store_overrun by lia. by rewrite E.
  - rewrite store_ok, bind_Ok by lia.
    replace (Z.of_nat dl + 1) with (Z.of_nat (S dl)) by lia.
    rewrite IH by (rewrite ?length_insert; lia). by rewrite length_insert.
Qed.

Lemma copy_pattern_ok (b : nat) blk :
  (b + L ≤ length blk)%nat →
  copy_pattern r (Z.of_nat b) blk = Ok (take b blk ++ take L s ++ drop (b + L) blk).
Proof.
  intros Hb. unfold copy_pattern, for_loop.
  rewrite Hlen, Z.sub_0_r, Nat2Z.id.
  change 0 with (Z.of_nat 0) at 1.
  rewrite (copy_go_ok b L 0 blk) by lia. by rewrite Nat.add_0_r.
Qed.

Lemma copy_pattern_overrun (b : nat) blk :
  (b ≤ length blk < b + L)%nat →
  copy_pattern r (Z.of_nat b) blk = Fault (BlockOverrun (Z.of_nat (length blk))).
Proof.
  intros Hb. unfold copy_pattern, for_loop.
  rewrite Hlen, Z.sub_0_r, Nat2Z.id.
  change 0 with (Z.of_nat 0) at 1.
  by rewrite (copy_go_overrun b L 0 blk) by lia.
Qed.

Hypothesis HL1 : (1 ≤ L)%nat.

(** The outer loop from the tile boundary [j * L] on, the block a whole
    number of tiles. *)
Lemma tile_go_ok (bs fuel j : nat) blk :
  Z.of_nat bs < 2 ^ 31 → length blk = bs → (L | bs)%nat →
  (j * L ≤ bs)%nat → (bs - j * L ≤ fuel)%nat →
  ∃ blk', tile_go fuel (Z.of_nat bs) r (Z.of_nat (j * L)) blk = Ok blk'
    ∧ length blk' = bs
    ∧ (∀ k, (k < j * L)%nat → blk' !! k = blk !! k)
    ∧ (∀ k, (j * L ≤ k < bs)%nat → blk' !! k = take L s !! (k mod L)%nat).
Proof.
  intros Hint. revert j blk.
  induction fuel as [|fuel IH]; intros j blk Hblk [q Hq] Hj Hfuel.
  - exists blk. simpl. rewrite (proj2 (Z.ltb_ge _ _)) by lia.
    split_and!; [done|done|done|]. intros k Hk. lia.
  - simpl. destruct (Z.ltb_spec (Z.of_nat (j * L)) (Z.of_nat bs)) as [Hlt|Hge].
    + assert (j * L + L ≤ bs)%nat as Hfit.
      { apply Nat2Z.inj_lt in Hlt. rewrite Hq in Hlt |- *.
        apply Nat.mul_lt_mono_pos_r in Hlt; [|lia].
        replace (j * L + L)%nat with (S j * L)%nat by lia.
        apply Nat.mul_le_mono_r. lia. }
      rewrite copy_pattern_ok, bind_Ok by lia.
      rewrite Hlen, to_int_small by lia.
      replace (Z.of_nat (j * L) + Z.of_nat L) with (Z.of_nat (S j * L)) by lia.
      set (blk1 := take (j * L) blk ++ take L s ++ drop (j * L + L) blk).
      assert (length blk1 = bs) as Hblk1.
      { unfold blk1. rewrite !length_app, !length_take, length_drop. lia. }
      destruct (IH (S j) blk1) as (blk' & E & Hl' & Hlo & Hhi);
        [done|by exists q|lia|lia|].
      exists blk'. split_and!; [done|done| |].
      * intros k Hk. rewrite Hlo by lia. unfold blk1.
        rewrite lookup_app_l by (rewrite length_take; lia).
        by rewrite lookup_take_lt by lia.
      * intros k Hk. destruct (decide (k < S j * L)%nat) as [Hk'|Hk'].
        -- rewrite Hlo by done. unfold blk1.
           rewrite lookup_app_r by (rewrite length_take; lia).
           rewrite length_take, Nat.min_l by lia.
           rewrite lookup_app_l by (rewrite length_take; lia).
           f_equal. replace k with ((k - j * L) + j * L)%nat at 2 by lia.
           rewrite Nat.Div0.mod_add. rewrite Nat.mod_small; lia.
        -- apply Hhi. lia.
    + exists blk. split_and!; [done|done|done|]. intros k Hk. lia.
Qed.

(** The outer loop from the tile boundary [j * L] on, the block not a whole
    number of tiles: the last tile is copied in full and overruns. *)
Lemma tile_go_overrun (bs fuel j : nat) blk :
  Z.of_nat bs < 2 ^ 31 → length blk = bs → ¬ (L | bs)%nat →
  (j * L ≤ bs)%nat → (bs - j * L ≤ fuel)%nat →
  tile_go fuel (Z.of_nat bs) r (Z.of_nat (j * L)) blk
  = Fault (BlockOverrun (Z.of_nat bs)).
Proof.
  intros Hint. revert j blk.
  induction fuel as [|fuel IH]; intros j blk Hblk Hnd Hj Hfuel.
  - destruct Hnd. exists j. lia.
  - assert (j * L < bs)%nat as Hlt.
    { destruct (decide (j * L = bs)%nat) as [E|E]; [|lia]. destruct Hnd. by exists j. }
    simpl. rewrite (proj2 (Z.ltb_lt _ _)) by lia.
    destruct (decide (j * L + L ≤ bs)%nat) as [Hfit|Hfit].
    + rewrite copy_pattern_ok, bind_Ok by lia.
      rewrite Hlen, to_int_small by lia.
      replace (Z.of_nat (j * L) + Z.of_nat L) with (Z.of_nat (S j * L)) by lia.
      apply IH; [|done|lia|lia].
      rewrite !length_app, !length_take, length_drop. lia.
    + rewrite copy_pattern_overrun by lia. by rewrite Hblk.
Qed.

End PatternFill.

Lemma blockSize_pos : 0 < blockSize.
Proof. reflexivity. Qed.

Lemma blockSize_int : blockSize < 2 ^ 31.
Proof. reflexivity. Qed.

(** The pattern branch over a block of [C] bytes, the pattern of [L >= 1]
    bytes: the block is tiled when [L] divides [C], and overrun when not. *)
Lemma fill_pattern_spec (C : Z) (rules : OverWriteRule) (s blk : list byte) :
  data rules = Some s → 1 ≤ datalen rules ≤ Z.of_nat (length s) →
  0 ≤ C < 2 ^ 31 → Z.of_nat (length blk) = C →
  ((datalen rules | C) →
     ∃ blk', fill_pattern C rules blk = Ok blk' ∧ length blk' = length blk ∧
       ∀ k, 0 ≤ k < C →
         blk' !! Z.to_nat k = pattern_of rules !! Z.to_nat (k mod datalen rules))
  ∧ (¬ (datalen rules | C) → fill_pattern C rules blk = Fault (BlockOverrun C)).
Proof.
  intros Hd HL HC Hblk.
  set (L := Z.to_nat (datalen rules)).
  assert (datalen rules = Z.of_nat L) as HLZ by (unfold L; lia).
  assert (L ≤ length s)%nat as HLs by lia.
  assert (1 ≤ L)%nat as HL1 by lia.
  assert (C = Z.of_nat (length blk)) as HCn by lia.
  unfold fill_pattern. rewrite HCn, Nat2Z.id, HLZ, Nat2Z.divide.
  split; intros Hdiv.
  - destruct (tile_go_ok rules s L Hd HLZ HLs HL1 (length blk) (length blk) 0 blk)
      as (blk' & E & Hl & _ & Hhi); [lia|done|done|lia|lia|].
    exists blk'. split_and!; [done|done|].
    intros k Hk. rewrite Hhi by lia.
    rewrite (pattern_of_take rules s L Hd HLZ). f_equal.
    rewrite <- (Z2Nat.id k) at 2 by lia.
    by rewrite <- Nat2Z.inj_mod, Nat2Z.id.
  - apply (tile_go_overrun rules s L Hd HLZ HLs HL1 (length blk) (length blk) 0 blk);
      [lia|done|done|lia|lia].
Qed.

(** With [datalen = 0] the loop of the pattern branch never ends. *)
Lemma fill_pattern_datalen_0 (C : Z) (rules : OverWriteRule) (blk : list byte) :
  datalen rules = 0 → 0 < C → fill_pattern C rules blk = Fault Diverges.
Proof.
  intros H0 HC. unfold fill_pattern.
  assert (∀ fuel b, tile_go fuel C rules 0 b = Fault Diverges) as Hgo.
  { induction fuel as [|fuel IH]; intros b; simpl;
      rewrite (proj2 (Z.ltb_lt _ _)) by lia; [done|].
    unfold copy_pattern, for_loop. rewrite H0. simpl. apply IH. }
  apply Hgo.
Qed.

(** The pattern branch never changes the length of the block. *)
Lemma copy_go_length rules b n dl l l' :
  for_go n dl (fun dl blk => c ← load rules dl; store blk (b + dl) c) l = Ok l' →
  length l' = length l.
Proof.
  revert dl l. induction n as [|n IH]; intros dl l; simpl.
  - by intros [= <-].
  - destruct (load rules dl) as [c|]; [|done]. rewrite bind_Ok.
    destruct (store l (b + dl) c) as [l1|] eqn:Es; [|done]. rewrite bind_Ok.
    intros E. rewrite (IH _ _ E). unfold store in Es.
    case_bool_decide; [|done]. injection Es as <-. apply length_insert.
Qed.

Lemma tile_go_length fuel bs rules b l l' :
  tile_go fuel bs rules b l = Ok l' → length l' = length l.
Proof.
  revert b l. induction fuel as [|fuel IH]; intros b l; simpl;
    destruct (b <? bs).
  - done.
  - by intros [= <-].
  - destruct (copy_pattern rules b l) as [l1|] eqn:Ec; [|done].
    rewrite bind_Ok. intros E. rewrite (IH _ _ E).
    by apply copy_go_length in Ec.
  - by intros [= <-].
Qed.

Lemma fill_pattern_length bs rules l l' :
  fill_pattern bs rules l = Ok l' → length l' = length l.
Proof. apply tile_go_length. Qed.

(** The patterns of the tables, of 1 or 3 bytes, tile the block of 98304
    bytes. *)
Lemma fill_pattern_catalog (bytes blk : list byte) :
  length bytes = 1%nat ∨ length bytes = 3%nat →
  Z.of_nat (length blk) = blockSize →
  ∃ blk', fill_pattern blockSize (pat_rule bytes (Z.of_nat (length bytes))) blk = Ok blk'
    ∧ length blk' = length blk
    ∧ ∀ k, (k < length blk)%nat → blk' !! k = bytes !! (k mod length bytes)%nat.
Proof.
  intros Hb Hblk.
  destruct (fill_pattern_spec blockSize (pat_rule bytes (Z.of_nat (length bytes)))
              (bytes ++ [x00]) blk) as [Hok _]; simpl.
  - done.
  - rewrite length_app. simpl. lia.
  - pose proof blockSize_pos. pose proof blockSize_int. lia.
  - done.
  - destruct Hok as (blk' & E & Hl & Hk).
    { destruct Hb as [-> | ->]; [by exists 98304|by exists 32768]. }
    exists blk'. split_and!; [done|done|].
    intros k Hlt. specialize (Hk (Z.of_nat k)). rewrite Nat2Z.id in Hk.
    rewrite Hk by lia. unfold pattern_of. simpl.
    rewrite Nat2Z.id, take_app_length, <- Nat2Z.inj_mod, Nat2Z.id. done.
Qed.

(** ** The write loops *)

Section EngineFacts.

Context (rnd : nat → list byte) (io : nat → Z → Z) (clock : nat → tm).

Lemma cycle_round rules count w :
  cycle rnd io rules count w = Ok (round rnd io rules count w).
Proof.
  unfold cycle, round, refill, FillBlock.
  destruct (random rules =? 0); reflexivity.
Qed.

Lemma write_loop lo hi rules count w :
  for_loop lo hi (fun _ => cycle rnd io rules count) w
  = Ok (Nat.iter (Z.to_nat (hi - lo)) (round rnd io rules count) w).
Proof. unfold for_loop. apply for_go_pure. intros _ s. apply cycle_round. Qed.

(** A pass is its prologue, the first [FillBlock], and the epilogue. *)
Lemma pass_unfold P size step rules w w2 :
  rule_at P step = Ok rules →
  FillBlock rnd rules (prologue clock rules step w) = Ok w2 →
  pass rnd io clock P size step w = Ok (epilogue rnd io clock rules size step w2).
Proof.
  intros Hr Hf. unfold pass. rewrite Hr, bind_Ok.
  change (Log clock (MsgStepStart step) _) with (prologue clock rules step w).
  rewrite Hf, bind_Ok, write_loop, bind_Ok, write_loop, bind_Ok.
  unfold epilogue. by rewrite Z.sub_0_r.
Qed.

Lemma FillBlock_random rules w :
  random rules ≠ 0 → FillBlock rnd rules w = Ok (GetRandomData rnd blockSize w).
Proof.
  intros H. unfold FillBlock. by rewrite (proj2 (Z.eqb_neq _ _)).
Qed.

Lemma FillBlock_pattern bytes w :
  length bytes = 1%nat ∨ length bytes = 3%nat →
  Z.of_nat (length (w_block w)) = blockSize →
  ∃ blk', fill_pattern blockSize (pat_rule bytes (Z.of_nat (length bytes))) (w_block w)
          = Ok blk'
    ∧ FillBlock rnd (pat_rule bytes (Z.of_nat (length bytes))) w
      = Ok (mkWorld blk' (w_target w) (w_pos w) (w_bad w) (w_nwrite w)
              (w_nrandom w) (w_trace w ++ [EvFill]) (w_log w))
    ∧ length blk' = length (w_block w)
    ∧ ∀ k, (k < length blk')%nat → blk' !! k = bytes !! (k mod length bytes)%nat.
Proof.
  intros Hb Hblk.
  destruct (fill_pattern_catalog bytes (w_block w) Hb Hblk) as (blk' & E & Hl & Hk).
  exists blk'. unfold FillBlock.
  change (random (pat_rule bytes (Z.of_nat (length bytes))) =? 0) with true.
  cbv iota. rewrite E, bind_Ok.
  split_and!; [done|done|done|]. intros k Hlt. apply Hk. lia.
Qed.

(** *** What a round leaves alone *)

Lemma round_log rules count w : w_log (round rnd io rules count w) = w_log w.
Proof.
  unfold round, write, refill, GetRandomData.
  destruct (random rules =? 0); simpl; destruct (w_bad w); reflexivity.
Qed.

Lemma GetRandomData_length w :
  Z.of_nat (length (w_block w)) = blockSize →
  length (w_block (GetRandomData rnd blockSize w)) = length (w_block w).
Proof.
  intros H. unfold GetRandomData. simpl.
  rewrite length_app, length_drop, length_take. lia.
Qed.

Lemma round_block_length rules count w :
  Z.of_nat (length (w_block w)) = blockSize →
  Z.of_nat (length (w_block (round rnd io rules count w))) = blockSize.
Proof.
  intros H. unfold round, refill.
  assert (∀ v, w_block (write io count v) = w_block v) as Hw.
  { intros v. unfold write. by destruct (w_bad v). }
  rewrite Hw. destruct (random rules =? 0); [done|].
  by rewrite GetRandomData_length.
Qed.

Lemma rounds_log rules count n w :
  w_log (Nat.iter n (round rnd io rules count) w) = w_log w.
Proof.
  induction n as [|n IH]; [done|]. simpl. by rewrite round_log.
Qed.

Lemma rounds_block_length rules count n w :
  Z.of_nat (length (w_block w)) = blockSize →
  Z.of_nat (length (w_block (Nat.iter n (round rnd io rules count) w))) = blockSize.
Proof.
  intros H. induction n as [|n IH]; [done|]. simpl. by apply round_block_length.
Qed.

(** Once the stream is in the error state a round changes nothing on the
    target. *)
Lemma round_bad rules count w :
  w_bad w = true →
  let w' := round rnd io rules count w in
  w_bad w' = true ∧ w_target w' = w_target w ∧ w_pos w' = w_pos w.
Proof.
  intros H. unfold round, write, refill, GetRandomData.
  destruct (random rules =? 0); simpl; rewrite H; simpl; done.
Qed.

Lemma rounds_bad rules count n w :
  w_bad w = true →
  let w' := Nat.iter n (round rnd io rules count) w in
  w_bad w' = true ∧ w_target w' = w_target w ∧ w_pos w' = w_pos w.
Proof.
  intros H. induction n as [|n IH]; [done|]. simpl in *.
  destruct IH as (Hb & Ht & Hp).
  destruct (round_bad rules count _ Hb) as (Hb' & Ht' & Hp').
  split_and!; congruence.
Qed.

End EngineFacts.

(** ** The session *)

Section SessionFacts.

Context (rnd : nat → list byte) (io : nat → Z → Z) (clock : nat → tm).

Lemma policy_at_catalog sel P :
  policy_at sel = Ok P → P ∈ wPolicies ∧ wPolicies !! Z.to_nat sel = Some P ∧ 0 ≤ sel.
Proof.
  unfold policy_at. destruct (wPolicies !! Z.to_nat sel) as [Q|] eqn:E; [|done].
  case_bool_decide; [|done]. intros [= ->].
  split_and!; [|done|done]. by eapply list_elem_of_lookup_2.
Qed.

Lemma policy_at_valid sel :
  0 ≤ sel < N_POLICIES → ∃ P, policy_at sel = Ok P.
Proof.
  intros H. unfold policy_at.
  destruct (lookup_lt_is_Some_2 wPolicies (Z.to_nat sel)) as [P E].
  { unfold N_POLICIES in H. lia. }
  exists P. rewrite E. by rewrite bool_decide_eq_true_2 by lia.
Qed.

(** [main] after the header: the abort on a size of 0, or the passes. *)
Lemma main_unfold o t stack P :
  policy_at (_ValidPolicySel o) = Ok P →
  main rnd io clock o t stack =
    let hw := header_world clock o t stack P in
    if t_size t =? 0
    then Ok (E_FAILURE, Log clock MsgSessionAborted (Log clock MsgInvalidSize hw))
    else
      w ← for_loop 0 (passes P) (pass rnd io clock P (t_size t)) (open_devfd t hw);
      Ok (E_SUCCESS, Log clock MsgSeparator (Log clock MsgSessionDone w)).
Proof.
  intros HP. unfold main. rewrite HP, bind_Ok. reflexivity.
Qed.

Lemma FillBlock_frame rules w w' :
  FillBlock rnd rules w = Ok w' →
  w_log w' = w_log w ∧ w_target w' = w_target w ∧ w_pos w' = w_pos w
  ∧ w_bad w' = w_bad w ∧ w_nwrite w' = w_nwrite w.
Proof.
  unfold FillBlock. destruct (random rules =? 0).
  - destruct (fill_pattern _ _ _); [|done]. by intros [= <-].
  - by intros [= <-].
Qed.

(** A pass that ends is made of its three parts. *)
Lemma pass_inv P size step w w' :
  pass rnd io clock P size step w = Ok w' →
  ∃ rules w2, rule_at P step = Ok rules
    ∧ FillBlock rnd rules (prologue clock rules step w) = Ok w2
    ∧ w' = epilogue rnd io clock rules size step w2.
Proof.
  intros H. destruct (rule_at P step) as [rules|] eqn:Hr.
  - destruct (FillBlock rnd rules (prologue clock rules step w)) as [w2|] eqn:Hf.
    + rewrite (pass_unfold rnd io clock P size step rules w w2 Hr Hf) in H.
      injection H as <-. by exists rules, w2.
    + unfold pass in H. rewrite Hr, bind_Ok in H.
      change (Log clock (MsgStepStart step) _) with (prologue clock rules step w) in H.
      by rewrite Hf in H.
  - unfold pass in H. by rewrite Hr in H.
Qed.

Lemma rule_at_catalog P step :
  P ∈ wPolicies → 0 ≤ step < passes P →
  ∃ r, rule_at P step = Ok r ∧ rules P !! Z.to_nat step = Some r
    ∧ catalog_rule r.
Proof.
  intros HP Hs. rewrite (passes_length P HP) in Hs.
  destruct (lookup_lt_is_Some_2 (rules P) (Z.to_nat step)) as [r E]; [lia|].
  exists r. unfold rule_at. rewrite E. split_and!; [done|done|].
  eapply catalog_rules; [done|]. by eapply list_elem_of_lookup_2.
Qed.

(** Every pass of a catalog policy ends. *)
Lemma pass_total P size step w :
  P ∈ wPolicies → 0 ≤ step < passes P →
  Z.of_nat (length (w_block w)) = blockSize →
  ∃ rules w2, rule_at P step = Ok rules ∧ catalog_rule rules
    ∧ FillBlock rnd rules (prologue clock rules step w) = Ok w2
    ∧ Z.of_nat (length (w_block w2)) = blockSize
    ∧ pass rnd io clock P size step w = Ok (epilogue rnd io clock rules size step w2).
Proof.
  intros HP Hs Hb.
  destruct (rule_at_catalog P step HP Hs) as (rules & Hr & _ & Hc).
  assert (Z.of_nat (length (w_block (prologue clock rules step w))) = blockSize)
    as Hb' by done.
  assert (∃ w2, FillBlock rnd rules (prologue clock rules step w) = Ok w2
                ∧ Z.of_nat (length (w_block w2)) = blockSize) as (w2 & Hf & Hb2).
  { destruct Hc as [-> | (bytes & -> & Hlen)].
    - eexists. split; [by apply FillBlock_random|].
      by rewrite GetRandomData_length.
    - destruct (FillBlock_pattern rnd bytes _ Hlen Hb') as (blk' & _ & E & Hl & _).
      eexists. split; [exact E|]. simpl. by rewrite Hl. }
  exists rules, w2. split_and!; [done|done|done|done|].
  by apply pass_unfold.
Qed.

Lemma epilogue_block_length rules size step w :
  Z.of_nat (length (w_block w)) = blockSize →
  Z.of_nat (length (w_block (epilogue rnd io clock rules size step w))) = blockSize.
Proof.
  intros H. unfold epilogue. simpl. by do 2 apply rounds_block_length.
Qed.

(** The passes of a session all end, and carry along every invariant the
    single pass carries along. *)
Lemma passes_run (I : Z → World → Prop) P size w0 :
  P ∈ wPolicies →
  Z.of_nat (length (w_block w0)) = blockSize →
  I 0 w0 →
  (∀ j w w', 0 ≤ j < passes P → Z.of_nat (length (w_block w)) = blockSize →
     I j w → pass rnd io clock P size j w = Ok w' → I (j + 1) w') →
  ∃ w, for_loop 0 (passes P) (pass rnd io clock P size) w0 = Ok w
    ∧ I (passes P) w.
Proof.
  intros HP Hb0 HI0 Hstep. unfold for_loop.
  assert (0 ≤ passes P) as Hpos by (rewrite (passes_length P HP); lia).
  destruct (for_go_invariant
              (fun j w => I j w ∧ Z.of_nat (length (w_block w)) = blockSize)
              (pass rnd io clock P size) (Z.to_nat (passes P - 0)) 0 w0)
    as (w & E & HI & _); [done| |].
  - intros j w Hj [HIj Hbj].
    destruct (pass_total P size j w HP) as (rules & w2 & _ & _ & _ & Hb2 & Ep);
      [lia|done|].
    eexists. split; [exact Ep|]. split.
    + apply (Hstep j w); [lia|done|done|done].
    + by apply epilogue_block_length.
  - exists w. split; [done|].
    by replace (0 + Z.of_nat (Z.to_nat (passes P - 0))) with (passes P) in HI by lia.
Qed.

End SessionFacts.

(** ** The report log *)

Lemma shape_append a b : shape (String.append a b) = String.append (shape a) (shape b).
Proof. induction a as [|c a IH]; simpl; [done|]. by rewrite IH. Qed.

Lemma range_check (f : Z → bool) lo n :
  forallb f (seqZ lo n) = true → ∀ z, lo ≤ z < lo + n → f z = true.
Proof.
  intros H z Hz. rewrite forallb_forall in H. apply H.
  apply list_elem_of_In, elem_of_seqZ. lia.
Qed.

Lemma dec2_shape z : 0 ≤ z ≤ 99 → shape (dec2 z) = "dd"%string.
Proof.
  intros Hz.
  assert (forallb (fun z => bool_decide (shape (dec2 z) = "dd"%string))
            (seqZ 0 100) = true) as Hall by (vm_compute; reflexivity).
  pose proof (range_check _ 0 100 Hall z) as H.
  apply bool_decide_eq_true_1 in H; [done|lia].
Qed.

Lemma dec_year_shape z : 1000 ≤ z ≤ 9999 → shape (dec z) = "dddd"%string.
Proof.
  intros Hz.
  assert (forallb (fun z => bool_decide (shape (dec z) = "dddd"%string))
            (seqZ 1000 9000) = true) as Hall by (vm_compute; reflexivity).
  pose proof (range_check _ 1000 9000 Hall z) as H.
  apply bool_decide_eq_true_1 in H; [done|lia].
Qed.

(** The stamp of a valid time has the form YYYY-MM-DD-HH-MM-SSZ. *)
Lemma strftime_shape t : tm_valid t → is_timestamp (strftime t) = true.
Proof.
  intros (Hy & Hm & Hd & HH & HM & HS).
  apply bool_decide_eq_true_2. unfold strftime. cbn [String.concat].
  rewrite !shape_append, dec_year_shape, !dec2_shape by lia. reflexivity.
Qed.

Section LogFacts.

Context (clock : nat → tm).

Lemma log_after_snoc l ms m :
  log_after clock l (ms ++ [m]) = Log_ clock m (log_after clock l ms).
Proof. unfold log_after. by rewrite foldl_app. Qed.

Lemma log_after_2 l a b :
  log_after clock l [a; b] = Log_ clock b (Log_ clock a l).
Proof. reflexivity. Qed.

Lemma log_after_3 l a b c :
  log_after clock l [a; b; c] = Log_ clock c (Log_ clock b (Log_ clock a l)).
Proof. reflexivity. Qed.

Lemma log_after_app l ms ms' :
  log_after clock l (ms ++ ms') = log_after clock (log_after clock l ms) ms'.
Proof. unfold log_after. by rewrite foldl_app. Qed.

Lemma stamped_snoc n ms m :
  stamped clock n (ms ++ [m]) = stamped clock n ms ++ [(clock (n + length ms)%nat, m)].
Proof.
  unfold stamped. rewrite imap_app. simpl. by rewrite Nat.add_0_r.
Qed.

(** The report log after a run of messages, field by field. *)
Lemma log_after_fields l ms :
  let l' := log_after clock l ms in
  let mute := _silent l && negb (_enabled l) in
  _enabled l' = _enabled l ∧ _silent l' = _silent l
  ∧ calls l' = calls l ++ ms
  ∧ ticks l' = (if mute then ticks l else ticks l + length ms)%nat
  ∧ cout l' = cout l ++ (if _silent l then [] else stamped clock (ticks l) ms)
  ∧ fd l' = fd l ++ (if _enabled l then stamped clock (ticks l) ms else []).
Proof.
  induction ms as [|m ms IH] using rev_ind.
  - unfold log_after, stamped. simpl. rewrite !app_nil_r, Nat.add_0_r.
    destruct (_silent l), (_enabled l); simpl; rewrite ?app_nil_r; done.
  - simpl in *. destruct IH as (He & Hs & Hc & Ht & Ho & Hf).
    rewrite log_after_snoc. unfold Log_. rewrite He, Hs, Hc, Ht, Ho, Hf.
    rewrite stamped_snoc, length_app. simpl.
    destruct (_silent l), (_enabled l); simpl;
      rewrite ?app_nil_r, <- ?app_assoc; split_and!; try done; lia.
Qed.

Lemma stamped_messages n ms : (stamped clock n ms).*2 = ms.
Proof.
  unfold stamped. revert n. induction ms as [|m ms IH]; intros n; [done|].
  simpl. f_equal. rewrite <- (IH (S n)) at 2. f_equal.
  apply imap_ext. intros i x _. simpl. f_equal. f_equal. lia.
Qed.

Lemma stamped_times n ms e :
  e ∈ stamped clock n ms → ∃ i, e.1 = clock i.
Proof.
  unfold stamped. intros H. apply list_elem_of_lookup in H as [i H].
  rewrite list_lookup_imap in H.
  destruct (ms !! i); [|done]. injection H as <-. by eexists.
Qed.

End LogFacts.

(** ** The log of a session *)

Section SessionLog.

Context (rnd : nat → list byte) (io : nat → Z → Z) (clock : nat → tm).

Lemma Log_log m w : w_log (Log clock m w) = Log_ clock m (w_log w).
Proof. reflexivity. Qed.

Lemma open_devfd_log t w : w_log (open_devfd t w) = w_log w.
Proof. reflexivity. Qed.

Lemma open_devfd_block t w : w_block (open_devfd t w) = w_block w.
Proof. reflexivity. Qed.

Lemma seqZ_snoc j : 0 ≤ j → seqZ 0 (j + 1) = seqZ 0 j ++ [j].
Proof. intros H. by rewrite seqZ_app by lia. Qed.

Lemma epilogue_log rules size step w :
  w_log (epilogue rnd io clock rules size step w)
  = Log_ clock (MsgStepDone step) (w_log w).
Proof. unfold epilogue. simpl. by rewrite !rounds_log. Qed.

(** A pass adds its three messages to the log and nothing else, whatever
    the writes did. *)
Lemma pass_log P size step w w' :
  pass rnd io clock P size step w = Ok w' →
  w_log w' = log_after clock (w_log w) (log_pass P step).
Proof.
  intros H. apply pass_inv in H as (r & w2 & Hr & Hf & ->).
  rewrite epilogue_log. apply FillBlock_frame in Hf as (-> & _).
  unfold log_pass. unfold rule_at in Hr.
  destruct (rules P !! Z.to_nat step) as [r'|]; [|done].
  injection Hr as ->. rewrite log_after_3. unfold prologue.
  by rewrite !Log_log.
Qed.

Lemma header_world_frame o t stack P :
  let hw := header_world clock o t stack P in
  w_block hw = resize (Z.to_nat blockSize) x00 stack ∧ w_target hw = t_bytes t
  ∧ w_trace hw = [] ∧ w_nwrite hw = 0%nat ∧ w_nrandom hw = 0%nat.
Proof.
  unfold header_world. destruct (_Reporting o), (_Quite o); done.
Qed.

Lemma header_world_log o t stack P :
  w_log (header_world clock o t stack P)
  = log_after clock (log_boot o) (log_header P (_DeviceName o) (t_size t)).
Proof.
  unfold header_world. cbv zeta. rewrite !Log_log.
  unfold log_header, log_after, log_boot. simpl foldl.
  destruct (_Reporting o), (_Quite o); reflexivity.
Qed.

Lemma header_world_block o t stack P :
  Z.of_nat (length (w_block (header_world clock o t stack P))) = blockSize.
Proof.
  destruct (header_world_frame o t stack P) as (-> & _).
  rewrite length_resize. pose proof blockSize_pos. lia.
Qed.

(** A session on a target of size 0 ends with the failure code. *)
Lemma main_abort o t stack P :
  policy_at (_ValidPolicySel o) = Ok P → t_size t = 0 →
  main rnd io clock o t stack
  = Ok (E_FAILURE, Log clock MsgSessionAborted
                     (Log clock MsgInvalidSize (header_world clock o t stack P))).
Proof.
  intros HP Hsz. rewrite (main_unfold rnd io clock o t stack P HP). cbv zeta.
  by rewrite Hsz.
Qed.

(** A session on a target of another size is the run of its passes. *)
Lemma main_run o t stack P w :
  policy_at (_ValidPolicySel o) = Ok P → t_size t ≠ 0 →
  for_loop 0 (passes P) (pass rnd io clock P (t_size t))
    (open_devfd t (header_world clock o t stack P)) = Ok w →
  main rnd io clock o t stack
  = Ok (E_SUCCESS, Log clock MsgSeparator (Log clock MsgSessionDone w)).
Proof.
  intros HP Hsz E. rewrite (main_unfold rnd io clock o t stack P HP). cbv zeta.
  rewrite (proj2 (Z.eqb_neq _ _) Hsz), E. reflexivity.
Qed.

Lemma passes_log P size dev l w0 :
  P ∈ wPolicies → Z.of_nat (length (w_block w0)) = blockSize →
  w_log w0 = log_after clock l (log_header P dev size) →
  ∃ w, for_loop 0 (passes P) (pass rnd io clock P size) w0 = Ok w
    ∧ w_log w = log_after clock l
                  (log_header P dev size ++ concat (log_pass P <$> seqZ 0 (passes P))).
Proof.
  intros Hin Hblk Hlog.
  apply (passes_run rnd io clock
           (fun j w => w_log w = log_after clock l
              (log_header P dev size ++ concat (log_pass P <$> seqZ 0 j))));
    [done|done| |].
  - rewrite app_nil_r. exact Hlog.
  - intros j w w' Hj _ HIj Hp. apply pass_log in Hp. rewrite Hp, HIj.
    rewrite seqZ_snoc, fmap_app, concat_app by lia.
    cbn [fmap list_fmap concat]. rewrite app_nil_r, app_assoc.
    symmetry. apply log_after_app.
Qed.

(** A session over a policy of the catalog ends, with the failure code when
    the size is 0 and the success code otherwise, and its log is the log
    of [log_session]. *)
Lemma session_log o t stack P :
  policy_at (_ValidPolicySel o) = Ok P →
  ∃ w, main rnd io clock o t stack
       = Ok (if t_size t =? 0 then E_FAILURE else E_SUCCESS, w)
    ∧ w_log w = log_after clock (log_boot o)
                  (log_session P (_DeviceName o) (t_size t)).
Proof.
  intros HP. unfold log_session.
  destruct (Z.eqb_spec (t_size t) 0) as [Hsz|Hsz].
  - rewrite (main_abort o t stack P HP Hsz). eexists. split; [reflexivity|].
    by rewrite !Log_log, header_world_log, log_after_app, log_after_2, Hsz.
  - destruct (policy_at_catalog _ _ HP) as (Hin & _ & _).
    destruct (passes_log P (t_size t) (_DeviceName o) (log_boot o)
                (open_devfd t (header_world clock o t stack P)))
      as (w & E & HI); [done| | |].
    { rewrite open_devfd_block. apply header_world_block. }
    { rewrite open_devfd_log. apply header_world_log. }
    rewrite (main_run o t stack P w HP Hsz E).
    eexists. split; [reflexivity|].
    rewrite !Log_log, HI, <- log_after_2.
    rewrite (app_assoc (log_header _ _ _)). symmetry. apply log_after_app.
Qed.

End SessionLog.

(** ** Traces, positions and the bytes of the target *)

Section TargetFacts.

Context (rnd : nat → list byte) (io : nat → Z → Z) (clock : nat → tm).

Lemma Log_frame m w :
  let w' := Log clock m w in
  w_block w' = w_block w ∧ w_target w' = w_target w ∧ w_pos w' = w_pos w
  ∧ w_bad w' = w_bad w ∧ w_nwrite w' = w_nwrite w ∧ w_nrandom w' = w_nrandom w
  ∧ w_trace w' = w_trace w.
Proof. done. Qed.

Lemma prologue_frame rules step w :
  let w' := prologue clock rules step w in
  w_block w' = w_block w ∧ w_target w' = w_target w
  ∧ w_pos w' = (if w_bad w then w_pos w else 0)
  ∧ w_bad w' = w_bad w ∧ w_nwrite w' = w_nwrite w ∧ w_nrandom w' = w_nrandom w
  ∧ w_trace w' = w_trace w ++ [EvSeek].
Proof. done. Qed.

Lemma writes_of_app tr tr' : writes_of (tr ++ tr') = writes_of tr ++ writes_of tr'.
Proof. unfold writes_of. apply omap_app. Qed.

Lemma FillBlock_trace rules w w' :
  FillBlock rnd rules w = Ok w' →
  w_trace w' = w_trace w
               ++ [if random rules =? 0 then EvFill else EvRandom (w_nrandom w)]
  ∧ w_nrandom w' = (if random rules =? 0 then w_nrandom w else S (w_nrandom w)).
Proof.
  unfold FillBlock. destruct (random rules =? 0).
  - destruct (fill_pattern _ _ _); [|done]. by intros [= <-].
  - by intros [= <-].
Qed.

Lemma refill_frame rules w :
  let w' := refill rnd rules w in
  w_target w' = w_target w ∧ w_pos w' = w_pos w ∧ w_bad w' = w_bad w
  ∧ w_nwrite w' = w_nwrite w ∧ w_log w' = w_log w
  ∧ w_trace w' = w_trace w
                 ++ (if random rules =? 0 then [] else [EvRandom (w_nrandom w)])
  ∧ w_nrandom w' = (if random rules =? 0 then w_nrandom w else S (w_nrandom w)).
Proof.
  unfold refill. destruct (random rules =? 0); simpl; by rewrite ?app_nil_r.
Qed.

Lemma write_frame count w :
  let w' := write io count w in
  w_block w' = w_block w ∧ w_nrandom w' = w_nrandom w ∧ w_log w' = w_log w
  ∧ w_nwrite w' = S (w_nwrite w)
  ∧ w_trace w' = w_trace w ++ [EvWrite count (take (Z.to_nat count) (w_block w))].
Proof. unfold write. by destruct (w_bad w). Qed.

(** A round makes one call of [write], with the count of its loop. *)
Lemma round_writes rules count w :
  writes_of (w_trace (round rnd io rules count w)) = writes_of (w_trace w) ++ [count].
Proof.
  unfold round.
  destruct (write_frame count (refill rnd rules w)) as (_ & _ & _ & _ & ->).
  destruct (refill_frame rules w) as (_ & _ & _ & _ & _ & -> & _).
  rewrite !writes_of_app. destruct (random rules =? 0); simpl;
    by rewrite ?app_nil_r.
Qed.

Lemma rounds_writes rules count n w :
  writes_of (w_trace (Nat.iter n (round rnd io rules count) w))
  = writes_of (w_trace w) ++ replicate n count.
Proof.
  induction n as [|n IH]; simpl; [by rewrite app_nil_r|].
  rewrite round_writes, IH, <- app_assoc. f_equal.
  change (count :: replicate n count) with (replicate (S n) count).
  by rewrite replicate_S_end.
Qed.

(** The [write] calls of a pass: one less than [size / blockSize] calls for
    a whole block, then [size mod blockSize] calls for one byte. *)
Lemma pass_writes P size step w w' :
  pass rnd io clock P size step w = Ok w' →
  writes_of (w_trace w')
  = writes_of (w_trace w)
    ++ replicate (Z.to_nat (size / blockSize - 1)) blockSize
    ++ replicate (Z.to_nat (size mod blockSize)) 1.
Proof.
  intros H. apply pass_inv in H as (r & w2 & Hr & Hf & ->).
  unfold epilogue.
  destruct (Log_frame (MsgStepDone step)
              (Nat.iter (Z.to_nat (size mod blockSize)) (round rnd io r 1)
                 (Nat.iter (Z.to_nat (size / blockSize - 1))
                    (round rnd io r blockSize) w2)))
    as (_ & _ & _ & _ & _ & _ & ->).
  rewrite !rounds_writes.
  apply FillBlock_trace in Hf as (-> & _).
  destruct (prologue_frame r step w) as (_ & _ & _ & _ & _ & _ & ->).
  rewrite !writes_of_app. destruct (random r =? 0); simpl;
    by rewrite ?app_nil_r, <- ?app_assoc.
Qed.

End TargetFacts.

Section SessionRuns.

Context (rnd : nat → list byte) (io : nat → Z → Z) (clock : nat → tm).

(** A session over a policy of the catalog and a size other than 0 runs
    all its passes, ends with the success code, and carries along every
    invariant the single pass carries along. *)
Lemma session_invariant (I : Z → World → Prop) o t stack P :
  policy_at (_ValidPolicySel o) = Ok P → t_size t ≠ 0 →
  I 0 (open_devfd t (header_world clock o t stack P)) →
  (∀ j w w', 0 ≤ j < passes P → Z.of_nat (length (w_block w)) = blockSize →
     I j w → pass rnd io clock P (t_size t) j w = Ok w' → I (j + 1) w') →
  ∃ w, main rnd io clock o t stack
       = Ok (E_SUCCESS, Log clock MsgSeparator (Log clock MsgSessionDone w))
    ∧ I (passes P) w.
Proof.
  intros HP Hsz HI0 Hstep.
  destruct (policy_at_catalog _ _ HP) as (Hin & _ & _).
  destruct (passes_run rnd io clock I P (t_size t)
              (open_devfd t (header_world clock o t stack P)))
    as (w & E & HI); [done| |done|done|].
  { rewrite open_devfd_block. apply header_world_block. }
  exists w. split; [|done]. by apply (main_run rnd io clock o t stack P).
Qed.

Lemma open_devfd_frame t w :
  let w' := open_devfd t w in
  w_trace w' = w_trace w ∧ w_pos w' = 0 ∧ w_bad w' = negb (t_opens t)
  ∧ w_target w' = (if t_opens t && negb (t_blk t) then [] else w_target w)
  ∧ w_nwrite w' = w_nwrite w ∧ w_nrandom w' = w_nrandom w.
Proof. done. Qed.

(** The [write] calls of a whole session. *)
Lemma session_writes o t stack P :
  policy_at (_ValidPolicySel o) = Ok P → t_size t ≠ 0 →
  ∃ w, main rnd io clock o t stack = Ok (E_SUCCESS, w)
    ∧ writes_of (w_trace w)
      = concat (replicate (Z.to_nat (passes P))
                  (replicate (Z.to_nat (t_size t / blockSize - 1)) blockSize
                   ++ replicate (Z.to_nat (t_size t mod blockSize)) 1)).
Proof.
  intros HP Hsz.
  set (per_pass := replicate (Z.to_nat (t_size t / blockSize - 1)) blockSize
                   ++ replicate (Z.to_nat (t_size t mod blockSize)) 1).
  destruct (session_invariant
              (fun j w => writes_of (w_trace w)
                          = concat (replicate (Z.to_nat j) per_pass))
              o t stack P HP Hsz) as (w & E & HI).
  - destruct (open_devfd_frame t (header_world clock o t stack P)) as (-> & _).
    by destruct (header_world_frame clock o t stack P) as (_ & _ & -> & _).
  - intros j w w' Hj _ HIj Hp.
    rewrite (pass_writes rnd io clock _ _ _ _ _ Hp), HIj.
    replace (Z.to_nat (j + 1)) with (S (Z.to_nat j)) by lia.
    rewrite replicate_S_end, concat_app. simpl. by rewrite app_nil_r.
  - eexists. split; [exact E|]. exact HI.
Qed.

End SessionRuns.

(** ** The reach of the writes *)

Section Reach.

Context (rnd : nat → list byte) (io : nat → Z → Z) (clock : nat → tm).

Lemma put_at_beyond (p : nat) bytes target k :
  (p ≤ length target)%nat → (p + length bytes ≤ k)%nat →
  put_at p bytes target !! k = target !! k.
Proof.
  intros Hp Hk. unfold put_at.
  rewrite lookup_app_r by (rewrite length_take; lia).
  rewrite lookup_app_r by (rewrite length_take; lia).
  rewrite lookup_drop, length_take. f_equal. lia.
Qed.

Lemma put_at_length (p : nat) bytes target :
  (p ≤ length target)%nat → (p + length bytes ≤ length (put_at p bytes target))%nat.
Proof.
  intros Hp. unfold put_at. rewrite !length_app, length_take, length_drop. lia.
Qed.

(** A write moves the position by at most its count and changes nothing
    beyond. *)
Lemma write_reach count b w :
  0 ≤ count → pos_ok w → (w_bad w = true ∨ w_pos w ≤ b) →
  let w' := write io count w in
  pos_ok w' ∧ (w_bad w' = true ∨ w_pos w' ≤ b + count)
  ∧ ∀ k, b + count ≤ Z.of_nat k → w_target w' !! k = w_target w !! k.
Proof.
  intros Hc [Hp0 Hp1] Hb. unfold write, pos_ok.
  destruct (w_bad w) eqn:Hbad; simpl.
  - split_and!; [done|done|by left|done].
  - destruct Hb as [Hb|Hb]; [done|].
    set (taken := take (Z.to_nat (io (w_nwrite w) count))
                    (take (Z.to_nat count) (w_block w))).
    assert (length taken ≤ Z.to_nat count)%nat as Hlen.
    { unfold taken. rewrite !length_take. lia. }
    pose proof (put_at_length (Z.to_nat (w_pos w)) taken (w_target w)).
    split_and!; [lia|lia|right; lia|].
    intros k Hk. apply put_at_beyond; lia.
Qed.

Lemma round_reach rules count b w :
  0 ≤ count → pos_ok w → (w_bad w = true ∨ w_pos w ≤ b) →
  let w' := round rnd io rules count w in
  pos_ok w' ∧ (w_bad w' = true ∨ w_pos w' ≤ b + count)
  ∧ ∀ k, b + count ≤ Z.of_nat k → w_target w' !! k = w_target w !! k.
Proof.
  intros Hc Hp Hb. unfold round.
  destruct (refill_frame rnd rules w) as (Ht & Hpos & Hbad & _).
  destruct (write_reach count b (refill rnd rules w)) as (H1 & H2 & H3);
    [done|unfold pos_ok; by rewrite Ht, Hpos|by rewrite Hbad, Hpos|].
  split_and!; [done|done|]. intros k Hk. by rewrite H3, Ht.
Qed.

Lemma rounds_reach rules count n b w :
  0 ≤ count → pos_ok w → (w_bad w = true ∨ w_pos w ≤ b) →
  let w' := Nat.iter n (round rnd io rules count) w in
  pos_ok w' ∧ (w_bad w' = true ∨ w_pos w' ≤ b + Z.of_nat n * count)
  ∧ ∀ k, b + Z.of_nat n * count ≤ Z.of_nat k → w_target w' !! k = w_target w !! k.
Proof.
  intros Hc Hp Hb. induction n as [|n IH]; simpl.
  - split_and!; [done|destruct Hb; [by left|right; lia]|done].
  - destruct IH as (H1 & H2 & H3).
    destruct (round_reach rules count (b + Z.of_nat n * count) _ Hc H1 H2)
      as (G1 & G2 & G3).
    split_and!; [done|destruct G2; [by left|right; lia]|].
    intros k Hk. rewrite G3 by lia. apply H3. lia.
Qed.

(** A pass changes no byte of the target from the offset [handed size]
    on. *)
Lemma pass_reach P size step w w' :
  pos_ok w → pass rnd io clock P size step w = Ok w' →
  pos_ok w' ∧ ∀ k, handed size ≤ Z.of_nat k → w_target w' !! k = w_target w !! k.
Proof.
  intros Hp H. apply pass_inv in H as (r & w2 & Hr & Hf & ->).
  apply FillBlock_frame in Hf as (_ & Ht2 & Hp2 & Hb2 & _).
  destruct (prologue_frame clock r step w) as (_ & Ht1 & Hp1 & Hb1 & _).
  assert (pos_ok w2) as Hok2.
  { unfold pos_ok in *. rewrite Ht2, Hp2, Ht1, Hp1. destruct (w_bad w); lia. }
  assert (w_bad w2 = true ∨ w_pos w2 ≤ 0) as Hs2.
  { rewrite Hb2, Hp2, Hb1, Hp1. destruct (w_bad w); [by left|by right]. }
  pose proof blockSize_pos as Hbs.
  destruct (rounds_reach r blockSize (Z.to_nat (size / blockSize - 1)) 0 w2)
    as (A1 & A2 & A3); [lia|done|done|].
  destruct (rounds_reach r 1 (Z.to_nat (size mod blockSize)) _ _ ltac:(lia) A1 A2)
    as (B1 & B2 & B3).
  unfold epilogue.
  match goal with |- context [Log clock ?m ?v] =>
    destruct (Log_frame clock m v) as (_ & Ht & Hpos & _) end.
  unfold pos_ok. rewrite Ht, Hpos. split; [exact B1|].
  intros k Hk. unfold handed in Hk.
  rewrite B3 by lia. rewrite A3 by lia. by rewrite Ht2, Ht1.
Qed.

(** A session changes no byte of the target from the offset
    [handed (t_size t)] on. *)
Lemma session_reach o t stack P :
  policy_at (_ValidPolicySel o) = Ok P → t_size t ≠ 0 →
  ∃ w, main rnd io clock o t stack = Ok (E_SUCCESS, w)
    ∧ ∀ k, handed (t_size t) ≤ Z.of_nat k →
        w_target w !! k
        = (if t_opens t && negb (t_blk t) then [] else t_bytes t) !! k.
Proof.
  intros HP Hsz.
  set (w0 := open_devfd t (header_world clock o t stack P)).
  destruct (session_invariant rnd io clock
              (fun j w => pos_ok w ∧ ∀ k, handed (t_size t) ≤ Z.of_nat k →
                                        w_target w !! k = w_target w0 !! k)
              o t stack P HP Hsz) as (w & E & _ & HI).
  - split; [|done]. unfold pos_ok.
    destruct (open_devfd_frame t (header_world clock o t stack P))
      as (_ & -> & _). lia.
  - intros j w w' Hj _ [Hok HIj] Hp.
    destruct (pass_reach _ _ _ _ _ Hok Hp) as (Hok' & Hk).
    split; [done|]. intros k Hle. rewrite Hk by done. by apply HIj.
  - eexists. split; [exact E|]. intros k Hk.
    match goal with |- context [Log clock ?m (Log clock ?m' w)] =>
      destruct (Log_frame clock m (Log clock m' w)) as (_ & -> & _);
      destruct (Log_frame clock m' w) as (_ & -> & _) end.
    rewrite HI by done. unfold w0.
    destruct (open_devfd_frame t (header_world clock o t stack P))
      as (_ & _ & _ & -> & _).
    by destruct (header_world_frame clock o t stack P) as (_ & -> & _).
Qed.

End Reach.

(** ** A target that takes every byte *)

Section TakesAll.

Context (rnd : nat → list byte) (clock : nat → tm).

Lemma refill_block_length rules w :
  Z.of_nat (length (w_block w)) = blockSize →
  Z.of_nat (length (w_block (refill rnd rules w))) = blockSize.
Proof.
  intros H. unfold refill. destruct (random rules =? 0); [done|].
  by rewrite GetRandomData_length.
Qed.

Lemma FillBlock_block_length rules w w' :
  FillBlock rnd rules w = Ok w' →
  Z.of_nat (length (w_block w)) = blockSize →
  length (w_block w') = length (w_block w).
Proof.
  unfold FillBlock. destruct (random rules =? 0).
  - destruct (fill_pattern blockSize rules _) as [blk|] eqn:Ef; [|done].
    intros [= <-] _. simpl. by apply fill_pattern_length in Ef.
  - intros [= <-] H. by apply GetRandomData_length.
Qed.

Lemma round_all rules count w :
  w_bad w = false → 0 ≤ count ≤ blockSize →
  Z.of_nat (length (w_block w)) = blockSize →
  let w' := round rnd io_all rules count w in
  w_bad w' = false ∧ w_pos w' = w_pos w + count.
Proof.
  intros Hbad Hc Hblk. unfold round.
  pose proof (refill_block_length rules w Hblk) as Hblk'.
  destruct (refill_frame rnd rules w) as (_ & Hpos & Hbad' & _).
  unfold write. rewrite Hbad', Hbad. simpl. unfold io_all.
  rewrite !length_take, Hpos. split; [apply Z.ltb_ge|]; lia.
Qed.

Lemma rounds_all rules count n w :
  w_bad w = false → 0 ≤ count ≤ blockSize →
  Z.of_nat (length (w_block w)) = blockSize →
  let w' := Nat.iter n (round rnd io_all rules count) w in
  w_bad w' = false ∧ w_pos w' = w_pos w + Z.of_nat n * count.
Proof.
  intros Hbad Hc Hblk. induction n as [|n IH]; simpl; [split; [done|lia]|].
  destruct IH as (H1 & H2).
  destruct (round_all rules count _ H1 Hc) as (G1 & G2).
  { by apply rounds_block_length. }
  split; [done|]. rewrite G2, H2. lia.
Qed.

(** With such a target a pass ends with the position at [handed size]. *)
Lemma pass_all P size step w w' :
  w_bad w = false → Z.of_nat (length (w_block w)) = blockSize →
  pass rnd io_all clock P size step w = Ok w' →
  w_bad w' = false ∧ w_pos w' = handed size.
Proof.
  intros Hbad Hblk H.
  destruct (pass_inv _ _ _ _ _ _ _ _ H) as (r & w2 & Hr & Hf & ->).
  assert (Z.of_nat (length (w_block w2)) = blockSize) as Hblk2.
  { by rewrite (FillBlock_block_length _ _ _ Hf). }
  apply FillBlock_frame in Hf as (_ & _ & Hp2 & Hb2 & _).
  destruct (prologue_frame clock r step w) as (_ & _ & Hp1 & Hb1 & _).
  pose proof blockSize_pos as Hbs.
  destruct (rounds_all r blockSize (Z.to_nat (size / blockSize - 1)) w2)
    as (A1 & A2); [by rewrite Hb2, Hb1|lia|done|].
  destruct (rounds_all r 1 (Z.to_nat (size mod blockSize)) _ A1)
    as (B1 & B2); [lia|by apply rounds_block_length|].
  unfold epilogue.
  match goal with |- context [Log clock ?m ?v] =>
    destruct (Log_frame clock m v) as (_ & _ & -> & -> & _) end.
  split; [done|]. rewrite B2, A2, Hp2, Hp1, Hbad. unfold handed. lia.
Qed.

Lemma session_all o t stack P :
  policy_at (_ValidPolicySel o) = Ok P → t_size t ≠ 0 → t_opens t = true →
  ∃ w, main rnd io_all clock o t stack = Ok (E_SUCCESS, w)
    ∧ w_bad w = false ∧ w_pos w = handed (t_size t).
Proof.
  intros HP Hsz Hopen.
  destruct (policy_at_catalog _ _ HP) as (Hin & _ & _).
  assert (0 < passes P) as Hpos.
  { apply wPolicies_cases in Hin.
    destruct Hin as [->|[->|[->|[->| ->]]]]; reflexivity. }
  destruct (session_invariant rnd io_all clock
              (fun j w => w_bad w = false ∧ (0 < j → w_pos w = handed (t_size t)))
              o t stack P HP Hsz) as (w & E & Hb & Hp).
  - destruct (open_devfd_frame t (header_world clock o t stack P))
      as (_ & _ & -> & _). rewrite Hopen. split; [done|lia].
  - intros j w w' Hj Hblk [Hb _] Hp.
    destruct (pass_all _ _ _ _ _ Hb Hblk Hp) as (? & ?). by split.
  - eexists. split; [exact E|]. split; [exact Hb|]. by apply Hp.
Qed.

End TakesAll.

Lemma handed_large size : blockSize ≤ size → handed size = size - blockSize.
Proof.
  intros H. pose proof blockSize_pos as Hbs. unfold handed.
  pose proof (Z.div_mod size blockSize ltac:(lia)) as Hdm.
  pose proof (Z.mod_pos_bound size blockSize Hbs) as Hm.
  assert (1 ≤ size / blockSize) by (apply Z.div_le_lower_bound; lia).
  rewrite !Z2Nat.id by lia. lia.
Qed.

Lemma handed_small size : 0 ≤ size < blockSize → handed size = size.
Proof.
  intros H. unfold handed.
  rewrite Z.div_small, Z.mod_small by lia. simpl. lia.
Qed.

(** ** What the Fast policy leaves on the target *)

Section OneBytePattern.

Context (rnd : nat → list byte) (clock : nat → tm).

(** The target holds [c] up to the put position and, from there on, the
    bytes of [t0]. *)
Lemma write_const (c : byte) t0 count w :
  w_bad w = false → 0 ≤ count ≤ blockSize → 0 ≤ w_pos w →
  w_block w = replicate (Z.to_nat blockSize) c →
  w_target w = replicate (Z.to_nat (w_pos w)) c ++ drop (Z.to_nat (w_pos w)) t0 →
  let w' := write io_all count w in
  w_bad w' = false ∧ w_pos w' = w_pos w + count ∧ w_block w' = w_block w
  ∧ w_target w' = replicate (Z.to_nat (w_pos w')) c ++ drop (Z.to_nat (w_pos w')) t0.
Proof.
  intros Hbad Hc Hpos Hblk Ht. unfold write, io_all. rewrite Hbad. cbn.
  rewrite Hblk, !take_replicate, !length_replicate.
  replace (Z.to_nat count `min` (Z.to_nat count `min` Z.to_nat blockSize))%nat
    with (Z.to_nat count) by lia.
  replace (Z.to_nat count `min` Z.to_nat blockSize)%nat
    with (Z.to_nat count) by lia.
  split_and!; [apply Z.ltb_ge; lia|lia|done|].
  unfold put_at. rewrite Ht, length_replicate.
  rewrite take_app_length' by (by rewrite length_replicate).
  rewrite drop_app_add' by (by rewrite length_replicate).
  rewrite drop_drop, app_assoc, <- replicate_add.
  replace (Z.to_nat (w_pos w + Z.of_nat (Z.to_nat count)))
    with (Z.to_nat (w_pos w) + Z.to_nat count)%nat by lia.
  done.
Qed.

Lemma rounds_const (c : byte) t0 rules count n w :
  random rules = 0 →
  w_bad w = false → 0 ≤ count ≤ blockSize → 0 ≤ w_pos w →
  w_block w = replicate (Z.to_nat blockSize) c →
  w_target w = replicate (Z.to_nat (w_pos w)) c ++ drop (Z.to_nat (w_pos w)) t0 →
  let w' := Nat.iter n (round rnd io_all rules count) w in
  w_bad w' = false ∧ w_pos w' = w_pos w + Z.of_nat n * count
  ∧ w_block w' = w_block w
  ∧ w_target w' = replicate (Z.to_nat (w_pos w')) c ++ drop (Z.to_nat (w_pos w')) t0.
Proof.
  intros Hr Hbad Hc Hpos Hblk Ht. induction n as [|n IH].
  - cbn. split_and!; [done|lia|done|done].
  - destruct IH as (H1 & H2 & H3 & H4). cbv zeta. rewrite Nat.iter_succ.
    set (v := Nat.iter n (round rnd io_all rules count) w) in *.
    assert (round rnd io_all rules count v = write io_all count v) as ->.
    { unfold round, refill. by rewrite Hr. }
    destruct (write_const c t0 count v H1 Hc ltac:(lia) ltac:(congruence) H4)
      as (G1 & G2 & G3 & G4).
    split_and!; [done|lia|congruence|done].
Qed.

(** A pass of a one-byte pattern on a target that takes every byte: the
    first [handed size] bytes are the pattern, the rest is as before. *)
Lemma pass_const (c : byte) P size step w w' :
  rule_at P step = Ok (pat_rule [c] 1) →
  w_bad w = false → Z.of_nat (length (w_block w)) = blockSize →
  pass rnd io_all clock P size step w = Ok w' →
  w_bad w' = false
  ∧ w_target w' = replicate (Z.to_nat (handed size)) c
                  ++ drop (Z.to_nat (handed size)) (w_target w).
Proof.
  intros Hr Hbad Hblk H. pose proof blockSize_pos as Hbs.
  apply pass_inv in H as (r & w2 & Hr' & Hf & ->).
  rewrite Hr in Hr'. injection Hr' as <-.
  destruct (prologue_frame clock (pat_rule [c] 1) step w)
    as (Pb & Pt & Pp & Pbad & _).
  destruct (FillBlock_pattern rnd [c] (prologue clock (pat_rule [c] 1) step w))
    as (blk & _ & E & Hl & Hk); [by left|by rewrite Pb|].
  change (Z.of_nat (length [c])) with 1 in E.
  assert (blk = replicate (Z.to_nat blockSize) c) as ->.
  { apply list_eq. intros k. destruct (decide (k < length blk)%nat) as [Hlt|Hge].
    - rewrite Hk by done. rewrite lookup_replicate_2 by (rewrite Pb in Hl; lia).
      by rewrite Nat.mod_1_r.
    - rewrite lookup_ge_None_2 by lia.
      symmetry. apply lookup_replicate_None. rewrite Pb in Hl. lia. }
  assert (w_block w2 = replicate (Z.to_nat blockSize) c) as Hb2.
  { rewrite E in Hf. clear -Hf. revert Hf.
    generalize (replicate (Z.to_nat blockSize) c). intros B Hf.
    injection Hf as <-. reflexivity. }
  destruct (FillBlock_frame rnd _ _ _ Hf) as (_ & Ft & Fp & Fb & _).
  rewrite Pt in Ft. rewrite Pp, Hbad in Fp. rewrite Pbad, Hbad in Fb.
  destruct (rounds_const c (w_target w) (pat_rule [c] 1) blockSize
              (Z.to_nat (size / blockSize - 1)) w2)
    as (A1 & A2 & A3 & A4); [done|done|lia|lia|done|by rewrite Ft, Fp|].
  destruct (rounds_const c (w_target w) (pat_rule [c] 1) 1
              (Z.to_nat (size mod blockSize)) _ eq_refl A1)
    as (B1 & B2 & B3 & B4); [lia| |congruence|done|].
  { rewrite A2, Fp. apply Z.add_nonneg_nonneg; [lia|].
    apply Z.mul_nonneg_nonneg; lia. }
  unfold epilogue.
  match goal with |- context [Log clock ?m ?v] =>
    destruct (Log_frame clock m v) as (_ & -> & _ & -> & _) end.
  split; [done|]. rewrite B4, B2, A2, Fp. unfold handed.
  by replace (0 + Z.of_nat (Z.to_nat (size / blockSize - 1)) * blockSize
              + Z.of_nat (Z.to_nat (size mod blockSize)) * 1)
    with (Z.of_nat (Z.to_nat (size / blockSize - 1)) * blockSize
          + Z.of_nat (Z.to_nat (size mod blockSize))) by lia.
Qed.

(** The Fast policy on a device that takes every byte: the first
    [handed size] bytes read 0x00, the rest is as before. *)
Lemma Fast_target o t stack :
  _ValidPolicySel o = 0 → t_size t ≠ 0 → t_opens t = true → t_blk t = true →
  ∃ w, main rnd io_all clock o t stack = Ok (E_SUCCESS, w)
    ∧ w_target w = replicate (Z.to_nat (handed (t_size t))) x00
                   ++ drop (Z.to_nat (handed (t_size t))) (t_bytes t).
Proof.
  intros Hsel Hsz Hopen Hblk.
  assert (policy_at (_ValidPolicySel o) = Ok FastPolicy) as HP by (by rewrite Hsel).
  set (w0 := open_devfd t (header_world clock o t stack FastPolicy)).
  destruct (session_invariant rnd io_all clock
              (fun j w => w_bad w = false
                 ∧ (j = 0 → w_target w = t_bytes t)
                 ∧ (j = 1 → w_target w
                            = replicate (Z.to_nat (handed (t_size t))) x00
                              ++ drop (Z.to_nat (handed (t_size t))) (t_bytes t)))
              o t stack FastPolicy HP Hsz) as (w & E & _ & _ & Ht).
  - destruct (open_devfd_frame t (header_world clock o t stack FastPolicy))
      as (_ & _ & -> & -> & _).
    destruct (header_world_frame clock o t stack FastPolicy) as (_ & -> & _).
    rewrite Hopen, Hblk. split_and!; [done|done|discriminate].
  - intros j w w' Hj Hb (Hbad & Ht0 & _) Hp. change (passes FastPolicy) with 1 in Hj.
    assert (j = 0) as -> by lia.
    destruct (pass_const x00 FastPolicy (t_size t) 0 w w' eq_refl Hbad Hb Hp)
      as (Hbad' & Ht').
    split_and!; [done|discriminate|]. intros _. by rewrite Ht', Ht0.
  - eexists. split; [exact E|].
    match goal with |- context [Log clock ?m (Log clock ?m' w)] =>
      destruct (Log_frame clock m (Log clock m' w)) as (_ & -> & _);
      destruct (Log_frame clock m' w) as (_ & -> & _) end.
    by apply Ht.
Qed.

(** Below one block the Fast policy leaves 0x00 at every offset of the
    device. *)
Lemma Fast_zeroes_small_device o t stack :
  _ValidPolicySel o = 0 → 0 < t_size t < blockSize →
  t_opens t = true → t_blk t = true → Z.of_nat (length (t_bytes t)) = t_size t →
  ∃ w, main rnd io_all clock o t stack = Ok (E_SUCCESS, w)
    ∧ w_target w = replicate (Z.to_nat (t_size t)) x00.
Proof.
  intros Hsel Hsz Hopen Hblk Hlen.
  destruct (Fast_target o t stack Hsel ltac:(lia) Hopen Hblk) as (w & E & Ht).
  exists w. split; [done|]. rewrite Ht, handed_small by lia.
  rewrite drop_ge by lia. apply app_nil_r.
Qed.

End OneBytePattern.

(** ** Sessions with a size of 0, and sessions of 100000 and of 98304 bytes *)

Lemma main_functional {rnd io clock o t stack} {r r' : Z} {w w' : World} :
  main rnd io clock o t stack = Ok (r, w) →
  main rnd io clock o t stack = Ok (r', w') → w' = w.
Proof. intros E E'. rewrite E in E'. by injection E' as _ <-. Qed.

(** Whatever the size, every byte of a device from the offset
    [size - blockSize] on is left as it was, when the size is at least a
    block. *)
Lemma last_block_untouched rnd io clock o t stack P :
  policy_at (_ValidPolicySel o) = Ok P → blockSize ≤ t_size t →
  t_blk t = true →
  ∃ w, main rnd io clock o t stack = Ok (E_SUCCESS, w)
    ∧ ∀ k, t_size t - blockSize ≤ Z.of_nat k → w_target w !! k = t_bytes t !! k.
Proof.
  intros HP Hsz Hblk. pose proof blockSize_pos.
  destruct (session_reach rnd io clock o t stack P HP) as (w & E & Hk); [lia|].
  exists w. split; [done|]. intros k Hle.
  rewrite Hk by (rewrite handed_large; lia).
  by rewrite Hblk, andb_false_r.
Qed.

(** C1. A pass over a target of 100000 bytes with the block of 98304 bytes:
    [100000 / 98304] is 1 and the loop over the whole blocks starts its
    counter at 1, so no whole block is written; the 1696 calls for one byte
    follow, the position ends at 1696 and not at 100000, and the bytes of
    the target from the offset 1696 on are left as they were. *)
Theorem pass_over_100000_bytes rnd clock dev rep quiet bytes stack :
  ∃ w, main rnd io_all clock (mkOptions 0 dev rep quiet)
         (mkTarget 100000 bytes true true) stack = Ok (E_SUCCESS, w)
    ∧ 100000 / blockSize = 1 ∧ 100000 mod blockSize = 1696
    ∧ writes_of (w_trace w) = replicate 1696 1
    ∧ w_pos w = 1696
    ∧ ∀ k, (1696 ≤ k)%nat → w_target w !! k = bytes !! k.
Proof.
  set (o := mkOptions 0 dev rep quiet).
  set (t := mkTarget 100000 bytes true true).
  assert (policy_at (_ValidPolicySel o) = Ok FastPolicy) as HP by reflexivity.
  assert (t_size t ≠ 0) as Hsz by done.
  destruct (session_writes rnd io_all clock o t stack _ HP Hsz) as (w & E & Hw).
  destruct (session_all rnd clock o t stack _ HP Hsz eq_refl) as (w1 & E1 & _ & Hp).
  destruct (session_reach rnd io_all clock o t stack _ HP Hsz) as (w2 & E2 & Hk).
  rewrite (main_functional E E1) in Hp. rewrite (main_functional E E2) in Hk.
  exists w. split_and!; [done|reflexivity|reflexivity| | |].
  - rewrite Hw. reflexivity.
  - rewrite Hp. reflexivity.
  - intros k Hle. rewrite Hk; [done|].
    change (handed (t_size t)) with 1696. lia.
Qed.

(** C4. The Fast policy on a device of 98304 bytes, each of them 0xFF:
    the session ends with the success code without a single call of
    [write], and every byte of the device still reads 0xFF. *)
Theorem Fast_on_98304_bytes rnd io clock dev rep quiet stack :
  ∃ w, main rnd io clock (mkOptions 0 dev rep quiet)
         (mkTarget 98304 (replicate (Z.to_nat 98304) xff) true true) stack
       = Ok (E_SUCCESS, w)
    ∧ writes_of (w_trace w) = []
    ∧ w_target w = replicate (Z.to_nat 98304) xff
    ∧ ∀ k, 0 ≤ k < 98304 → w_target w !! Z.to_nat k = Some xff.
Proof.
  set (o := mkOptions 0 dev rep quiet).
  set (t := mkTarget 98304 (replicate (Z.to_nat 98304) xff) true true).
  assert (policy_at (_ValidPolicySel o) = Ok FastPolicy) as HP by reflexivity.
  assert (t_size t ≠ 0) as Hsz by done.
  destruct (session_writes rnd io clock o t stack _ HP Hsz) as (w & E & Hw).
  destruct (session_reach rnd io clock o t stack _ HP Hsz) as (w2 & E2 & Hk).
  rewrite (main_functional E E2) in Hk.
  assert (w_target w = replicate (Z.to_nat 98304) xff) as Ht.
  { apply list_eq. intros k. rewrite Hk; [done|].
    change (handed (t_size t)) with 0. lia. }
  exists w. split_and!; [done| |done|].
  - rewrite Hw. reflexivity.
  - intros k Hk'. rewrite Ht. apply lookup_replicate_2. lia.
Qed.

(** C7. When [OS::GetDeviceSize] answers 0 the session ends at once with
    the failure code: the target is not opened, no byte of it changes, the
    trace holds no seek, no fill and no call of [write], and the messages
    of the log end with the invalid size and the aborted session. They
    reach the standard output unless the session is quiet, and the report
    file when there is one. *)
Theorem size_zero_aborts rnd io clock o t stack :
  0 ≤ _ValidPolicySel o < N_POLICIES → t_size t = 0 →
  ∃ P w, policy_at (_ValidPolicySel o) = Ok P
    ∧ main rnd io clock o t stack = Ok (E_FAILURE, w)
    ∧ w_trace w = [] ∧ w_nwrite w = 0%nat ∧ w_target w = t_bytes t
    ∧ calls (w_log w)
      = [MsgSessionStart; MsgPolicySelected (name P); MsgPasses (passes P);
         MsgTargetDevice (_DeviceName o); MsgDevice (_DeviceName o);
         MsgDeviceSize 0; MsgInvalidSize; MsgSessionAborted]
    ∧ (cout (w_log w)).*2 = (if _Quite o then [] else calls (w_log w))
    ∧ (fd (w_log w)).*2 = (if _Reporting o then calls (w_log w) else []).
Proof.
  intros Hsel Hsz.
  destruct (policy_at_valid _ Hsel) as [P HP]. exists P.
  destruct (session_log rnd io clock o t stack P HP) as (w & E & Hlog).
  rewrite Hsz in E, Hlog. simpl in E. exists w.
  pose proof (main_abort rnd io clock o t stack P HP Hsz) as E'.
  rewrite E in E'. injection E' as Hw.
  destruct (log_after_fields clock (log_boot o) (log_session P (_DeviceName o) 0))
    as (_ & _ & Hc & _ & Ho & Hf).
  rewrite <- Hlog in Hc, Ho, Hf.
  split_and!; [done|done| | | |exact Hc| |].
  - rewrite Hw.
    repeat match goal with |- context [Log clock ?m ?v] =>
      destruct (Log_frame clock m v) as (_ & _ & _ & _ & _ & _ & ->) end.
    by destruct (header_world_frame clock o t stack P) as (_ & _ & -> & _).
  - rewrite Hw.
    repeat match goal with |- context [Log clock ?m ?v] =>
      destruct (Log_frame clock m v) as (_ & _ & _ & _ & -> & _) end.
    by destruct (header_world_frame clock o t stack P) as (_ & _ & _ & -> & _).
  - rewrite Hw.
    repeat match goal with |- context [Log clock ?m ?v] =>
      destruct (Log_frame clock m v) as (_ & -> & _) end.
    by destruct (header_world_frame clock o t stack P) as (_ & -> & _).
  - rewrite Ho, Hc. simpl. destruct (_Quite o); [done|].
    by rewrite stamped_messages.
  - rewrite Hf, Hc. simpl. destruct (_Reporting o); [|done].
    by rewrite stamped_messages.
Qed.

Lemma size_zero_aborts_witness :
  0 ≤ _ValidPolicySel (mkOptions 0 "/dev/disk2" true false) < N_POLICIES
  ∧ t_size (mkTarget 0 [xff; xff] true true) = 0
  ∧ ∃ P w, policy_at (_ValidPolicySel (mkOptions 0 "/dev/disk2" true false)) = Ok P
    ∧ main rnd_dry io_all clock_2013
        (mkOptions 0 "/dev/disk2" true false) (mkTarget 0 [xff; xff] true true) []
      = Ok (E_FAILURE, w)
    ∧ w_trace w = [] ∧ w_nwrite w = 0%nat ∧ w_target w = [xff; xff]
    ∧ calls (w_log w)
      = [MsgSessionStart; MsgPolicySelected (name P); MsgPasses (passes P);
         MsgTargetDevice "/dev/disk2"; MsgDevice "/dev/disk2";
         MsgDeviceSize 0; MsgInvalidSize; MsgSessionAborted]
    ∧ (cout (w_log w)).*2 = calls (w_log w)
    ∧ (fd (w_log w)).*2 = calls (w_log w).
Proof.
  assert (0 ≤ _ValidPolicySel (mkOptions 0 "/dev/disk2" true false) < N_POLICIES)
    as Hsel by (vm_compute; split; [discriminate|reflexivity]).
  split; [exact Hsel|]. split; [reflexivity|].
  exact (size_zero_aborts rnd_dry io_all clock_2013
           (mkOptions 0 "/dev/disk2" true false) (mkTarget 0 [xff; xff] true true) []
           Hsel eq_refl).
Defined.

(** ** The order of the log *)

(** The log of a concrete session of one pass, against the order of the
    specification: the device is named twice, a line on the block comes
    before the start of the pass, and a line of dashes ends the log. *)
Lemma log_order_counterexample :
  ∃ w, main rnd_dry io_all clock_2013
         (mkOptions 0 "/dev/disk2" false false) (mkTarget 1 [xff] true true) []
       = Ok (E_SUCCESS, w)
    ∧ kind_of_msg <$> calls (w_log w)
      = [KSessionStart; KPolicyName; KPassCount; KTargetId; KTargetId;
         KTargetSize; KBlockPrepared 0; KPassStart 0; KPassDone 0;
         KSessionDone; KSeparator]
    ∧ spec_order 1 1
      = [KSessionStart; KPolicyName; KPassCount; KTargetId; KTargetSize;
         KPassStart 0; KPassDone 0; KSessionDone]
    ∧ kind_of_msg <$> calls (w_log w) ≠ spec_order 1 1.
Proof.
  destruct (session_log rnd_dry io_all clock_2013
              (mkOptions 0 "/dev/disk2" false false) (mkTarget 1 [xff] true true) []
              FastPolicy eq_refl) as (w & E & Hlog).
  exists w. cbn [_DeviceName t_size] in Hlog.
  destruct (log_after_fields clock_2013
              (log_boot (mkOptions 0 "/dev/disk2" false false))
              (log_session FastPolicy "/dev/disk2" 1)) as (_ & _ & Hc & _).
  rewrite <- Hlog in Hc. simpl in Hc.
  split_and!; [exact E| | |]; rewrite ?Hc; [reflexivity|reflexivity|discriminate].
Qed.

(** C9, as the code has it. The messages of every session are, in this
    order: session start, policy name, pass count, the device twice
    ("Target device" and "device"), the size; then, the size being 0, the
    invalid size and the aborted session, and otherwise for each pass in
    order a line on its block ("Building overwrite block" or "Scheduling
    random overwrite block"), its start and its end, and at last the
    session done and a line of dashes. Every line that reaches the standard
    output or the report file carries the time read for it, in the form
    YYYY-MM-DD-HH-MM-SSZ for the years 1000 to 9999, the clock read once
    per line and in order. *)
Theorem session_log_order rnd io clock o t stack :
  0 ≤ _ValidPolicySel o < N_POLICIES → (∀ n, tm_valid (clock n)) →
  ∃ P ret w, policy_at (_ValidPolicySel o) = Ok P
    ∧ main rnd io clock o t stack = Ok (ret, w)
    ∧ calls (w_log w)
      = [MsgSessionStart; MsgPolicySelected (name P); MsgPasses (passes P);
         MsgTargetDevice (_DeviceName o); MsgDevice (_DeviceName o);
         MsgDeviceSize (t_size t)]
        ++ (if t_size t =? 0 then [MsgInvalidSize; MsgSessionAborted]
            else concat (log_pass P <$> seqZ 0 (passes P))
                 ++ [MsgSessionDone; MsgSeparator])
    ∧ (∀ step, 0 ≤ step < passes P →
         ∃ r, rules P !! Z.to_nat step = Some r
           ∧ log_pass P step
             = [if random r =? 0 then MsgBuilding step else MsgScheduling step;
                MsgStepStart step; MsgStepDone step])
    ∧ cout (w_log w)
      = (if _Quite o then [] else stamped clock 0 (calls (w_log w)))
    ∧ fd (w_log w)
      = (if _Reporting o then stamped clock 0 (calls (w_log w)) else [])
    ∧ Forall (fun e => is_timestamp (strftime e.1) = true)
        (cout (w_log w) ++ fd (w_log w)).
Proof.
  intros Hsel Hclock.
  destruct (policy_at_valid _ Hsel) as [P HP].
  destruct (session_log rnd io clock o t stack P HP) as (w & E & Hlog).
  exists P, (if t_size t =? 0 then E_FAILURE else E_SUCCESS), w.
  destruct (log_after_fields clock (log_boot o)
              (log_session P (_DeviceName o) (t_size t)))
    as (_ & _ & Hc & _ & Ho & Hf).
  rewrite <- Hlog in Hc, Ho, Hf. simpl in Hc, Ho, Hf.
  assert (cout (w_log w)
          = (if _Quite o then [] else stamped clock 0 (calls (w_log w)))) as Ho'.
  { rewrite Ho, Hc. by destruct (_Quite o). }
  assert (fd (w_log w)
          = (if _Reporting o then stamped clock 0 (calls (w_log w)) else [])) as Hf'.
  { rewrite Hf, Hc. by destruct (_Reporting o). }
  split_and!; [done|done|exact Hc| |exact Ho'|exact Hf'|].
  - intros step Hs. destruct (policy_at_catalog _ _ HP) as (Hin & _).
    destruct (rule_at_catalog P step Hin Hs) as (r & _ & Er & _).
    exists r. split; [done|]. unfold log_pass. by rewrite Er.
  - rewrite Ho', Hf'. apply Forall_forall. intros e He.
    assert (e ∈ stamped clock 0 (calls (w_log w))) as He'.
    { apply elem_of_app in He as [He|He].
      - destruct (_Quite o); [by apply elem_of_nil in He|done].
      - destruct (_Reporting o); [done|by apply elem_of_nil in He]. }
    apply stamped_times in He' as [i ->]. by apply strftime_shape.
Qed.

Lemma session_log_order_witness :
  0 ≤ _ValidPolicySel (mkOptions 1 "/dev/disk2" true false) < N_POLICIES
  ∧ (∀ n, tm_valid (clock_2013 n))
  ∧ ∃ P ret w, policy_at (_ValidPolicySel (mkOptions 1 "/dev/disk2" true false)) = Ok P
    ∧ main rnd_dry io_all clock_2013
        (mkOptions 1 "/dev/disk2" true false) (mkTarget 1 [xff] true true) []
      = Ok (ret, w)
    ∧ calls (w_log w)
      = [MsgSessionStart; MsgPolicySelected (name P); MsgPasses (passes P);
         MsgTargetDevice "/dev/disk2"; MsgDevice "/dev/disk2"; MsgDeviceSize 1]
        ++ concat (log_pass P <$> seqZ 0 (passes P))
        ++ [MsgSessionDone; MsgSeparator]
    ∧ (∀ step, 0 ≤ step < passes P →
         ∃ r, rules P !! Z.to_nat step = Some r
           ∧ log_pass P step
             = [if random r =? 0 then MsgBuilding step else MsgScheduling step;
                MsgStepStart step; MsgStepDone step])
    ∧ cout (w_log w) = stamped clock_2013 0 (calls (w_log w))
    ∧ fd (w_log w) = stamped clock_2013 0 (calls (w_log w))
    ∧ Forall (fun e => is_timestamp (strftime e.1) = true)
        (cout (w_log w) ++ fd (w_log w)).
Proof.
  assert (0 ≤ _ValidPolicySel (mkOptions 1 "/dev/disk2" true false) < N_POLICIES)
    as Hsel by (vm_compute; split; [discriminate|reflexivity]).
  assert (∀ n : nat, tm_valid (clock_2013 n)) as Hclock.
  { intros n. unfold tm_valid. simpl. lia. }
  split; [exact Hsel|]. split; [exact Hclock|].
  exact (session_log_order rnd_dry io_all clock_2013
           (mkOptions 1 "/dev/disk2" true false) (mkTarget 1 [xff] true true) []
           Hsel Hclock).
Defined.

(** ** Writes that fail *)

Section FailingWrites.

Context (rnd : nat → list byte) (io : nat → Z → Z) (clock : nat → tm).



(** In the error state a pass changes nothing on the target, and the error
    state stays. *)
Lemma pass_bad P size step w w' :
  w_bad w = true → pass rnd io clock P size step w = Ok w' →
  w_bad w' = true ∧ w_target w' = w_target w.
Proof.
  intros Hbad H. apply pass_inv in H as (r & w2 & Hr & Hf & ->).
  apply FillBlock_frame in Hf as (_ & Ht2 & _ & Hb2 & _).
  destruct (prologue_frame clock r step w) as (_ & Ht1 & _ & Hb1 & _).
  assert (w_bad w2 = true) as Hbad2 by congruence.
  destruct (rounds_bad rnd io r blockSize (Z.to_nat (size / blockSize - 1)) w2 Hbad2)
    as (A1 & A2 & _).
  destruct (rounds_bad rnd io r 1 (Z.to_nat (size mod blockSize)) _ A1)
    as (B1 & B2 & _).
  unfold epilogue.
  match goal with |- context [Log clock ?m ?v] =>
    destruct (Log_frame clock m v) as (_ & -> & _ & -> & _) end.
  split; [done|]. congruence.
Qed.

Lemma log_pass_no_abort P step : MsgSessionAborted ∉ log_pass P step.
Proof.
  unfold log_pass. destruct (rules P !! Z.to_nat step) as [r|].
  - rewrite !not_elem_of_cons. split_and!; try done.
    + by destruct (random r =? 0).
    + apply not_elem_of_nil.
  - apply not_elem_of_nil.
Qed.

Lemma log_session_no_abort P dev size :
  size ≠ 0 → MsgSessionAborted ∉ log_session P dev size.
Proof.
  intros Hsz. unfold log_session, log_header.
  rewrite (proj2 (Z.eqb_neq _ _) Hsz).
  rewrite !not_elem_of_app, !not_elem_of_cons. split_and!; try done.
  - apply not_elem_of_nil.
  - intros H. apply list_elem_of_In, in_concat in H as (l & Hin & Hl).
    apply list_elem_of_In, list_elem_of_fmap in Hin as (step & -> & _).
    by apply list_elem_of_In, log_pass_no_abort in Hl.
  - apply not_elem_of_nil.
Qed.

End FailingWrites.

Section TakesNothing.

Context (rnd : nat → list byte) (clock : nat → tm).





End TakesNothing.




(** ** The block filler *)

(** A pattern of 5 bytes on the block of 98304 bytes: 98304 is not a
    multiple of 5, the last tile starts at offset 98300 and its fifth byte
    is stored at offset 98304, one past the end of the block. *)
Lemma fill_pattern_overrun_counterexample :
  98304 mod 5 = 4
  ∧ fill_pattern blockSize (pat_rule [x01; x02; x03; x04; x05] 5)
      (replicate (Z.to_nat blockSize) x00)
    = Fault (BlockOverrun 98304).
Proof.
  split; [reflexivity|].
  apply (fill_pattern_spec blockSize (pat_rule [x01; x02; x03; x04; x05] 5)
           ([x01; x02; x03; x04; x05] ++ [x00])).
  - reflexivity.
  - simpl. lia.
  - pose proof blockSize_pos. pose proof blockSize_int. lia.
  - rewrite length_replicate. pose proof blockSize_pos. lia.
  - simpl. intros [q Hq]. unfold blockSize in Hq. lia.
Qed.

(** C5, as the code has it. For a pattern of [L >= 1] bytes and a block of
    [C] bytes: when [L] divides [C] the filler leaves [P[k mod L]] at every
    offset [k] of the block and stores nothing outside; when [L] does not
    divide [C] the last tile is not cut, and the filler stores past the end
    of the block, first at the offset [C]. *)
Theorem fill_pattern_tiles (C : Z) (rules : OverWriteRule) (s blk : list byte) :
  data rules = Some s → 1 ≤ datalen rules ≤ Z.of_nat (length s) →
  0 ≤ C < 2 ^ 31 → Z.of_nat (length blk) = C →
  ((datalen rules | C) →
     ∃ blk', fill_pattern C rules blk = Ok blk' ∧ length blk' = length blk ∧
       ∀ k, 0 ≤ k < C →
         blk' !! Z.to_nat k = pattern_of rules !! Z.to_nat (k mod datalen rules))
  ∧ (¬ (datalen rules | C) → fill_pattern C rules blk = Fault (BlockOverrun C)).
Proof.
  intros Hd HL HC Hblk.
  destruct (fill_pattern_spec C rules s blk Hd HL HC Hblk) as [Hdiv Hndiv].
  split.
  - intros Hdivides. destruct (Hdiv Hdivides) as (blk' & E & Hl & Hk).
    exists blk'. split_and!; [exact E|exact Hl|exact Hk].
  - exact Hndiv.
Qed.

Lemma fill_pattern_tiles_witness :
  data (pat_rule [x92; x49; x24] 3) = Some [x92; x49; x24; x00]
  ∧ 1 ≤ datalen (pat_rule [x92; x49; x24] 3) ≤ Z.of_nat (length [x92; x49; x24; x00])
  ∧ 0 ≤ 12 < 2 ^ 31
  ∧ Z.of_nat (length (replicate 12 x00)) = 12
  ∧ ((datalen (pat_rule [x92; x49; x24] 3) | 12) →
       ∃ blk', fill_pattern 12 (pat_rule [x92; x49; x24] 3) (replicate 12 x00) = Ok blk'
         ∧ length blk' = length (replicate 12 x00) ∧
         ∀ k, 0 ≤ k < 12 →
           blk' !! Z.to_nat k
           = pattern_of (pat_rule [x92; x49; x24] 3)
             !! Z.to_nat (k mod datalen (pat_rule [x92; x49; x24] 3)))
  ∧ (¬ (datalen (pat_rule [x92; x49; x24] 3) | 12) →
       fill_pattern 12 (pat_rule [x92; x49; x24] 3) (replicate 12 x00)
       = Fault (BlockOverrun 12)).
Proof.
  assert (1 ≤ datalen (pat_rule [x92; x49; x24] 3)
          ≤ Z.of_nat (length [x92; x49; x24; x00])) as HL by (simpl; lia).
  assert (0 ≤ 12 < 2 ^ 31) as HC by lia.
  split; [reflexivity|]. split; [exact HL|]. split; [exact HC|].
  split; [reflexivity|].
  exact (fill_pattern_tiles 12 (pat_rule [x92; x49; x24] 3) [x92; x49; x24; x00]
           (replicate 12 x00) eq_refl HL HC eq_refl).
Defined.

(** C10. For every rule of the catalog and a block of 98304 bytes,
    [FillBlock] ends without a fault: no store outside the block, no read
    through a null pointer or outside a literal. A random rule has the null
    [data] and [FillBlock] does not depend on that field; a pattern rule
    has a pattern of 1 or 3 bytes, a length that divides 98304, and its
    stores fill the offsets 0 to 98303 with the pattern. *)
Theorem FillBlock_catalog_safe rnd P r w :
  P ∈ wPolicies → r ∈ rules P → Z.of_nat (length (w_block w)) = blockSize →
  (∃ w', FillBlock rnd r w = Ok w' ∧ Z.of_nat (length (w_block w')) = blockSize)
  ∧ (random r ≠ 0 →
       data r = None
       ∧ FillBlock rnd r w = Ok (GetRandomData rnd blockSize w)
       ∧ ∀ d, FillBlock rnd (mkRule d (datalen r) (random r) (_reserved r)) w
              = FillBlock rnd r w)
  ∧ (random r = 0 →
       (datalen r = 1 ∨ datalen r = 3) ∧ (datalen r | blockSize)
       ∧ ∃ blk, fill_pattern blockSize r (w_block w) = Ok blk
           ∧ FillBlock rnd r w
             = Ok (mkWorld blk (w_target w) (w_pos w) (w_bad w) (w_nwrite w)
                     (w_nrandom w) (w_trace w ++ [EvFill]) (w_log w))
           ∧ length blk = length (w_block w)
           ∧ ∀ k, 0 ≤ k < blockSize →
               blk !! Z.to_nat k = pattern_of r !! Z.to_nat (k mod datalen r)).
Proof.
  intros HP Hr Hblk.
  destruct (catalog_rules P r HP Hr) as [-> | (bytes & -> & Hlen)].
  - split_and!.
    + eexists. split; [by apply FillBlock_random|].
      by rewrite GetRandomData_length.
    + intros _. split_and!; [done|done|]. intros d. reflexivity.
    + intros H. discriminate H.
  - destruct (FillBlock_pattern rnd bytes w Hlen Hblk) as (blk & Ef & E & Hl & Hk).
    split_and!.
    + eexists. split; [exact E|]. simpl. by rewrite Hl.
    + intros H. by destruct H.
    + intros _. split_and!.
      * destruct Hlen as [-> | ->]; [by left|by right].
      * destruct Hlen as [-> | ->]; [by exists 98304|by exists 32768].
      * exists blk. split_and!; [exact Ef|exact E|exact Hl|].
        intros k Hk'. rewrite Hk by lia. unfold pattern_of.
        cbn [data datalen pat_rule lit default]. unfold id.
        rewrite Nat2Z.id, take_app_length. f_equal.
        rewrite <- (Z2Nat.id k) at 2 by lia.
        by rewrite <- Nat2Z.inj_mod, Nat2Z.id.
Qed.

Lemma FillBlock_catalog_safe_witness :
  PeterGutmannPolicy ∈ wPolicies
  ∧ (pat_rule [x92; x49; x24] 3) ∈ rules PeterGutmannPolicy
  ∧ Z.of_nat (length (w_block (boot (mkTarget 1 [xff] true true) []))) = blockSize
  ∧ (∃ w', FillBlock rnd_dry (pat_rule [x92; x49; x24] 3) (boot (mkTarget 1 [xff] true true) []) = Ok w'
           ∧ Z.of_nat (length (w_block w')) = blockSize)
  ∧ (random (pat_rule [x92; x49; x24] 3) ≠ 0 →
       data (pat_rule [x92; x49; x24] 3) = None
       ∧ FillBlock rnd_dry (pat_rule [x92; x49; x24] 3) (boot (mkTarget 1 [xff] true true) [])
         = Ok (GetRandomData rnd_dry blockSize (boot (mkTarget 1 [xff] true true) []))
       ∧ ∀ d, FillBlock rnd_dry
                (mkRule d (datalen (pat_rule [x92; x49; x24] 3)) (random (pat_rule [x92; x49; x24] 3)) (_reserved (pat_rule [x92; x49; x24] 3))) (boot (mkTarget 1 [xff] true true) [])
              = FillBlock rnd_dry (pat_rule [x92; x49; x24] 3) (boot (mkTarget 1 [xff] true true) []))
  ∧ (random (pat_rule [x92; x49; x24] 3) = 0 →
       (datalen (pat_rule [x92; x49; x24] 3) = 1 ∨ datalen (pat_rule [x92; x49; x24] 3) = 3)
       ∧ (datalen (pat_rule [x92; x49; x24] 3) | blockSize)
       ∧ ∃ blk, fill_pattern blockSize (pat_rule [x92; x49; x24] 3) (w_block (boot (mkTarget 1 [xff] true true) [])) = Ok blk
           ∧ FillBlock rnd_dry (pat_rule [x92; x49; x24] 3) (boot (mkTarget 1 [xff] true true) [])
             = Ok (mkWorld blk (w_target (boot (mkTarget 1 [xff] true true) [])) (w_pos (boot (mkTarget 1 [xff] true true) [])) (w_bad (boot (mkTarget 1 [xff] true true) []))
                     (w_nwrite (boot (mkTarget 1 [xff] true true) [])) (w_nrandom (boot (mkTarget 1 [xff] true true) []))
                     (w_trace (boot (mkTarget 1 [xff] true true) []) ++ [EvFill]) (w_log (boot (mkTarget 1 [xff] true true) [])))
           ∧ length blk = length (w_block (boot (mkTarget 1 [xff] true true) []))
           ∧ ∀ k, 0 ≤ k < blockSize →
               blk !! Z.to_nat k
               = pattern_of (pat_rule [x92; x49; x24] 3) !! Z.to_nat (k mod datalen (pat_rule [x92; x49; x24] 3))).
Proof.
  assert (PeterGutmannPolicy ∈ wPolicies) as HP.
  { do 4 apply list_elem_of_further. apply list_elem_of_here. }
  assert ((pat_rule [x92; x49; x24] 3) ∈ rules PeterGutmannPolicy) as Hr.
  { do 6 apply list_elem_of_further. apply list_elem_of_here. }
  assert (Z.of_nat (length (w_block (boot (mkTarget 1 [xff] true true) []))) = blockSize) as Hblk.
  { change (w_block (boot (mkTarget 1 [xff] true true) []))
      with (resize (Z.to_nat blockSize) x00 (@nil byte)).
    rewrite length_resize. reflexivity. }
  split; [exact HP|]. split; [exact Hr|]. split; [exact Hblk|].
  exact (FillBlock_catalog_safe rnd_dry PeterGutmannPolicy (pat_rule [x92; x49; x24] 3) (boot (mkTarget 1 [xff] true true) []) HP Hr Hblk).
Defined.

(** ** The block within a pass *)

Section FillDiscipline.

Context (rnd : nat → list byte) (io : nat → Z → Z) (clock : nat → tm).




End FillDiscipline.








(** * The options *)

Lemma given_snoc c opts o :
  given c (opts ++ [o]) = given c opts || bool_decide (o.1 = c).
Proof.
  unfold given, letters. rewrite fmap_app. simpl.
  apply eq_true_iff_eq.
  rewrite orb_true_iff, !bool_decide_eq_true, elem_of_app, list_elem_of_singleton.
  split; (intros [?|?]; [by left|by right]).
Qed.

Lemma last_arg_snoc c opts o :
  last_arg c (opts ++ [o]) = if bool_decide (o.1 = c) then o.2 else last_arg c opts.
Proof.
  unfold last_arg. rewrite filter_app.
  assert (Hf : filter (fun o : ascii * string => o.1 = c) [o]
               = if bool_decide (o.1 = c) then [o] else []).
  { rewrite filter_cons, filter_nil. case_bool_decide; by destruct (decide _). }
  rewrite Hf. case_bool_decide.
  - rewrite fmap_app. change ([o].*2) with [o.2]. by rewrite last_snoc.
  - by rewrite app_nil_r.
Qed.

Lemma getopt_loop opts :
  foldl DiskWiper.getopt_case DiskWiper.new opts
  = DiskWiper.mk (last_arg "p" opts) (last_arg "d" opts) (last_arg "r" opts)
      (last_arg "s" opts) (given "q" opts) (given "h" opts) (given "s" opts)
      (given "p" opts) (given "d" opts) (given "r" opts) None.
Proof.
  induction opts as [|[cmd optarg] opts IH] using rev_ind; [reflexivity|].
  rewrite foldl_app, IH, !given_snoc, !last_arg_snoc.
  cbn [foldl fst snd]. unfold DiskWiper.getopt_case.
  cbn [DiskWiper._PolicySelection DiskWiper._DeviceName DiskWiper._ReportFile
       DiskWiper._ShowDetails DiskWiper._Quite DiskWiper._Help DiskWiper._Show
       DiskWiper._Policy DiskWiper._Device DiskWiper._Reporting
       DiskWiper._ValidPolicySel].
  destruct (Ascii.eqb_spec cmd "h") as [->|Hh];
    [cbn; by rewrite ?orb_true_r, ?orb_false_r|].
  destruct (Ascii.eqb_spec cmd "q") as [->|Hq];
    [cbn; by rewrite ?orb_true_r, ?orb_false_r|].
  destruct (Ascii.eqb_spec cmd "s") as [->|Hs];
    [cbn; by rewrite ?orb_true_r, ?orb_false_r|].
  destruct (Ascii.eqb_spec cmd "p") as [->|Hp];
    [cbn; by rewrite ?orb_true_r, ?orb_false_r|].
  destruct (Ascii.eqb_spec cmd "d") as [->|Hd];
    [cbn; by rewrite ?orb_true_r, ?orb_false_r|].
  destruct (Ascii.eqb_spec cmd "r") as [->|Hr];
    [cbn; by rewrite ?orb_true_r, ?orb_false_r|].
  rewrite !bool_decide_eq_false_2 by done.
  by rewrite !orb_false_r.
Qed.

Lemma getopt_cerr_fold opts h :
  foldl DiskWiper.getopt_cerr h opts = heard opts h.
Proof.
  unfold heard, complaints. revert h.
  induction opts as [|[cmd line] opts IH]; intros h.
  - destruct h. simpl. by rewrite app_nil_r.
  - cbn [foldl]. rewrite IH. unfold DiskWiper.getopt_cerr.
    rewrite filter_cons. cbn [fst].
    destruct (Ascii.eqb_spec cmd "?") as [->|Hc].
    + rewrite decide_True by done. unfold say. cbn [h_cerr h_created h_asked fmap list_fmap snd].
      by rewrite <- app_assoc.
    + by rewrite decide_False by done.
Qed.

Lemma heard_frame opts h :
  h_cerr (heard opts h) = h_cerr h ++ complaints opts
  ∧ h_created (heard opts h) = h_created h ∧ h_asked (heard opts h) = h_asked h.
Proof. done. Qed.

(** * The help page and the policy pages *)

Lemma string_app_assoc (a b c : string) : (a +:+ b) +:+ c = a +:+ b +:+ c.
Proof.
  induction a as [|x a IH]; [done|].
  change (String x ((a +:+ b) +:+ c) = String x (a +:+ b +:+ c)). by rewrite IH.
Qed.

Lemma string_app_nil_r (a : string) : a +:+ "" = a.
Proof.
  induction a as [|x a IH]; [done|].
  change (String x (a +:+ "") = String x a). by rewrite IH.
Qed.

Lemma for_go_preserves {St} (I : Z → St → Prop) (body : Z → St → outcome St) n i s s' :
  for_go n i body s = Ok s' → I i s →
  (∀ j s s', i ≤ j < i + Z.of_nat n → I j s → body j s = Ok s' → I (j + 1) s') →
  I (i + Z.of_nat n) s'.
Proof.
  revert i s. induction n as [|n IH]; intros i s Hrun Hi Hstep.
  - injection Hrun as <-. by replace (i + Z.of_nat 0) with i by lia.
  - rewrite for_go_S in Hrun. destruct (body i s) as [s1|f] eqn:Hb; [|done].
    rewrite bind_Ok in Hrun.
    replace (i + Z.of_nat (S n)) with (i + 1 + Z.of_nat n) by lia.
    apply (IH (i + 1) s1 Hrun).
    + apply (Hstep i s); [lia|done|done].
    + intros j t t' Hj. apply Hstep. lia.
Qed.

Lemma say_all {A} (f : A → string) (l : list A) (h : Host) :
  foldl (fun h x => say (f x) h) h l
  = mkHost (h_cerr h ++ (f <$> l)) (h_created h) (h_asked h).
Proof.
  revert h. induction l as [|x l IH]; intros h.
  - destruct h. simpl. by rewrite app_nil_r.
  - simpl. rewrite IH. unfold say. simpl. by rewrite <- app_assoc.
Qed.

Lemma say_mk text c cr a : say text (mkHost c cr a) = mkHost (c ++ [text]) cr a.
Proof. reflexivity. Qed.

Lemma Usage_frame h :
  DiskWiper.Usage h
  = mkHost (h_cerr h ++ h_cerr (DiskWiper.Usage host0)) (h_created h) (h_asked h).
Proof.
  set (u := h_cerr (DiskWiper.Usage host0)). vm_compute in u. subst u.
  destruct h as [c cr a]. unfold DiskWiper.Usage. cbv zeta.
  rewrite !say_mk, say_all. cbn [h_cerr h_created h_asked].
  rewrite !say_mk, <- !app_assoc. reflexivity.
Qed.

Section Pages.

Variable r : OverWriteRule.
Variable d : list byte.
Hypothesis Hdata : data r = Some d.

Lemma text_loop (f : Z → string) n a acc :
  (a + n ≤ length d)%nat →
  for_go n (Z.of_nat a)
    (fun k tmp => c ← load r k; Ok (tmp +:+ f (byte_value c) +:+ " ")) acc
  = Ok (acc +:+ foldr (fun c s => f (byte_value c) +:+ " " +:+ s) ""
                  (take n (drop a d))).
Proof.
  revert a acc. induction n as [|n IH]; intros a acc Hn.
  - simpl. by rewrite string_app_nil_r.
  - rewrite for_go_S.
    destruct (d !! a) as [c|] eqn:Hc;
      [|apply lookup_ge_None in Hc; lia].
    assert (Hl : load r (Z.of_nat a) = Ok c).
    { unfold load. by rewrite Hdata, Nat2Z.id, Hc. }
    cbv beta. rewrite Hl, bind_Ok, bind_Ok.
    replace (Z.of_nat a + 1) with (Z.of_nat (S a)) by lia.
    rewrite IH by lia.
    rewrite (drop_S d c a Hc). simpl.
    by rewrite !string_app_assoc.
Qed.

Lemma rule_text_take :
  datalen r ≤ Z.of_nat (length d) →
  DiskWiper.rule_text r
  = Ok (hex_part (take (Z.to_nat (datalen r)) d) +:+ ": "
        +:+ bits_part (take (Z.to_nat (datalen r)) d)).
Proof.
  intros Hlen. unfold DiskWiper.rule_text, for_loop.
  rewrite Z.sub_0_r. change 0 with (Z.of_nat 0).
  rewrite (text_loop hex) by (simpl; lia). rewrite bind_Ok.
  rewrite (text_loop bits) by (simpl; lia).
  rewrite drop_0. simpl. by rewrite !string_app_assoc.
Qed.

End Pages.

Lemma show_step_line P i r h :
  rules P !! Z.to_nat i = Some r →
  (random r = 0 → ∃ d, data r = Some d ∧ datalen r ≤ Z.of_nat (length d)) →
  DiskWiper.show_step P i h = Ok (say (step_line r i) h).
Proof.
  intros Hr Hd. unfold DiskWiper.show_step, step_line, pattern_of. rewrite Hr.
  destruct (Z.eqb_spec (random r) 0) as [Hz|Hz]; [|done].
  destruct (Hd Hz) as (d & Hdata & Hlen).
  rewrite (rule_text_take r d Hdata Hlen), bind_Ok, Hdata. done.
Qed.

Lemma ShowPolicyDetail_showable P h :
  showable P →
  DiskWiper.ShowPolicyDetail P h
  = Ok (mkHost (h_cerr h ++ page P) (h_created h) (h_asked h)).
Proof.
  intros HP. unfold DiskWiper.ShowPolicyDetail, for_loop.
  set (f := fun i => match rules P !! Z.to_nat i with
                     | Some r => step_line r i
                     | None => ""
                     end).
  set (h1 := say _ (say _ h)).
  destruct (for_go_invariant
              (fun j h' => 0 ≤ j
                 ∧ h' = mkHost (h_cerr h1 ++ (f <$> seqZ 0 j)) (h_created h) (h_asked h))
              (DiskWiper.show_step P) (Z.to_nat (passes P - 0)) 0 h1)
    as (h2 & Hrun & Hj & ->).
  - split; [done|]. subst h1. unfold say. simpl. by rewrite app_nil_r.
  - intros j s Hj [Hj0 ->].
    destruct (HP j) as (r & Hr & Hd); [lia|].
    exists (say (step_line r j) (mkHost (h_cerr h1 ++ (f <$> seqZ 0 j))
                                   (h_created h) (h_asked h))).
    split; [by apply show_step_line|]. split; [lia|].
    unfold say. cbn [h_cerr h_created h_asked].
    rewrite seqZ_snoc by done. rewrite fmap_app, <- app_assoc.
    cbn [fmap list_fmap]. subst f. cbv beta. by rewrite Hr.
  - rewrite Hrun, bind_Ok. unfold say, page. subst h1. unfold say.
    cbn [h_cerr h_created h_asked].
    replace (0 + Z.of_nat (Z.to_nat (passes P - 0))) with (Z.of_nat (Z.to_nat (passes P))) by lia.
    rewrite <- !app_assoc. simpl. do 4 f_equal.
    destruct (decide (0 ≤ passes P)); [by rewrite Z2Nat.id|].
    by rewrite !seqZ_nil by lia.
Qed.

Lemma catalog_showable P : P ∈ wPolicies → showable P.
Proof.
  intros HP i Hi.
  destruct (rule_at_catalog P i HP Hi) as (r & _ & Hr & Hc).
  exists r. split; [done|]. intros Hz.
  destruct Hc as [->|(bs & -> & _)]; [done|].
  exists (bs ++ [x00]). split; [done|]. simpl. rewrite length_app. lia.
Qed.

Lemma page_length P : length (page P) = (Z.to_nat (passes P) + 3)%nat.
Proof.
  unfold page. rewrite !length_app, length_fmap, length_seqZ. simpl. lia.
Qed.

Ltac project_dw :=
  cbn [DiskWiper._PolicySelection DiskWiper._DeviceName DiskWiper._ReportFile
       DiskWiper._ShowDetails DiskWiper._Quite DiskWiper._Help DiskWiper._Show
       DiskWiper._Policy DiskWiper._Device DiskWiper._Reporting
       DiskWiper._ValidPolicySel].

Lemma valid_number sel :
  (sel <? 1) || (N_POLICIES <? sel) = false ↔ 1 ≤ sel ≤ N_POLICIES.
Proof. rewrite orb_false_iff, !Z.ltb_ge. lia. Qed.

Section OptionFacts.

Variable atoi : string → Z.
Variable os_access : nat → string → Z → Z * Z.
Variable os_create : nat → string → bool.

Lemma AccessFile_frame path mode h :
  let r := OS.AccessFile os_access os_create path mode h in
  h_cerr r.2 = h_cerr h ∧ h_asked r.2 = S (h_asked h)
  ∧ h_created r.2
    = h_created h
      ++ (if ((os_access (h_asked h) path mode).1 <? 0)
             && ((os_access (h_asked h) path mode).2 =? ENOENT)
             && os_create (h_asked h) path
          then [path] else [])
  ∧ r.1 = (if ((os_access (h_asked h) path mode).1 <? 0)
              && ((os_access (h_asked h) path mode).2 =? ENOENT)
              && os_create (h_asked h) path
           then 0 else (os_access (h_asked h) path mode).1).
Proof.
  unfold OS.AccessFile. destruct (os_access (h_asked h) path mode) as [ret errno].
  cbn [fst snd]. destruct ((ret <? 0) && (errno =? ENOENT)); cbn [andb].
  - destruct (os_create (h_asked h) path); cbn; by rewrite ?app_nil_r.
  - cbn. by rewrite app_nil_r.
Qed.

(** [ParseOption] with the loop over [getopt] done. *)
Lemma ParseOption_help opts h :
  given "h" opts = true →
  DiskWiper.ParseOption atoi os_access os_create opts DiskWiper.new h
  = Ok (Code E_FAILURE, foldl DiskWiper.getopt_case DiskWiper.new opts,
        DiskWiper.Usage (heard opts h)).
Proof.
  intros Hh. unfold DiskWiper.ParseOption. rewrite getopt_cerr_fold, getopt_loop.
  project_dw. by rewrite Hh.
Qed.

Lemma ParseOption_show opts h :
  given "h" opts = false → given "s" opts = true →
  1 ≤ atoi (last_arg "s" opts) ≤ N_POLICIES →
  ∃ P, policy_at (atoi (last_arg "s" opts) - 1) = Ok P
    ∧ DiskWiper.ParseOption atoi os_access os_create opts DiskWiper.new h
      = Ok (Indeterminate, foldl DiskWiper.getopt_case DiskWiper.new opts,
            mkHost (h_cerr h ++ complaints opts ++ page P) (h_created h) (h_asked h)).
Proof.
  intros Hh Hs Hsel.
  destruct (policy_at_valid (atoi (last_arg "s" opts) - 1)) as [P HP]; [lia|].
  exists P. split; [done|].
  unfold DiskWiper.ParseOption. rewrite getopt_cerr_fold, getopt_loop. project_dw.
  rewrite Hh, Hs. cbv zeta.
  rewrite (proj2 (valid_number _) Hsel), HP, bind_Ok.
  rewrite ShowPolicyDetail_showable, bind_Ok;
    [unfold heard; cbn [h_cerr h_created h_asked]; by rewrite <- app_assoc|].
  apply catalog_showable. by apply policy_at_catalog in HP as [? _].
Qed.

Lemma ParseOption_checks opts h :
  given "h" opts = false → given "s" opts = false →
  ∃ dw, DiskWiper.ParseOption atoi os_access os_create opts DiskWiper.new h
        = Ok ((checks atoi os_access os_create opts (heard opts h)).1, dw,
              (checks atoi os_access os_create opts (heard opts h)).2)
    ∧ DiskWiper._DeviceName dw = last_arg "d" opts
    ∧ DiskWiper._Reporting dw = given "r" opts
    ∧ DiskWiper._Quite dw = given "q" opts
    ∧ DiskWiper._ValidPolicySel dw
      = (if given "p" opts && (1 <=? atoi (last_arg "p" opts))
            && (atoi (last_arg "p" opts) <=? N_POLICIES) && given "d" opts
         then Some (atoi (last_arg "p" opts) - 1) else None).
Proof.
  intros Hh Hs. unfold DiskWiper.ParseOption, checks.
  rewrite getopt_cerr_fold, getopt_loop. project_dw.
  generalize (heard opts h). clear h. intros h.
  rewrite Hh, Hs. cbv zeta.
  destruct (given "p" opts) eqn:Hp; cbn [andb negb orb].
  - destruct (Z.ltb_spec (atoi (last_arg "p" opts)) 1) as [H1|H1]; cbn [orb].
    { eexists. split; [done|]. project_dw.
      destruct (Z.leb_spec 1 (atoi (last_arg "p" opts))); [lia|done]. }
    destruct (Z.ltb_spec N_POLICIES (atoi (last_arg "p" opts))) as [H2|H2].
    { eexists. split; [done|]. project_dw.
      destruct (Z.leb_spec 1 (atoi (last_arg "p" opts))); [|lia].
      destruct (Z.leb_spec (atoi (last_arg "p" opts)) N_POLICIES); [lia|done]. }
    destruct (Z.leb_spec 1 (atoi (last_arg "p" opts))); [|lia].
    destruct (Z.leb_spec (atoi (last_arg "p" opts)) N_POLICIES); [|lia].
    destruct (given "d" opts) eqn:Hd; cbn [andb negb orb].
    2:{ eexists. split; [done|]. by project_dw. }
    unfold DiskWiper.set_ValidPolicySel. project_dw.
    destruct (OS.AccessFile os_access os_create (last_arg "d" opts) OS.Perm.W h)
      as [acc1 h1]. cbn [fst snd].
    destruct (acc1 =? OS.AccessOK); cbn [negb].
    2:{ eexists. split; [done|]. by project_dw. }
    destruct (given "r" opts) eqn:Hr; cbn [andb].
    2:{ eexists. split; [done|]. by project_dw. }
    destruct (OS.AccessFile os_access os_create (last_arg "r" opts) OS.Perm.W h1)
      as [acc2 h2]. cbn [fst snd].
    destruct (acc2 =? OS.AccessOK); cbn [negb];
      (eexists; split; [done|]; by project_dw).
  - destruct (given "d" opts) eqn:Hd; cbn [andb negb orb]; project_dw.
    + destruct (OS.AccessFile os_access os_create (last_arg "d" opts) OS.Perm.W h)
        as [acc1 h1]. cbn [fst snd].
      destruct (acc1 =? OS.AccessOK); cbn [negb];
        (eexists; split; [done|]; by project_dw).
    + destruct (given "r" opts) eqn:Hr; cbn [andb].
      2:{ eexists. split; [done|]. by project_dw. }
      destruct (OS.AccessFile os_access os_create (last_arg "r" opts) OS.Perm.W h)
        as [acc2 h2]. cbn [fst snd].
      destruct (acc2 =? OS.AccessOK); cbn [negb];
        (eexists; split; [done|]; by project_dw).
Qed.

End OptionFacts.

Section ProgramFacts.

Variable atoi : string → Z.
Variable os_access : nat → string → Z → Z * Z.
Variable os_create : nat → string → bool.
Variable rnd : nat → list byte.
Variable io : nat → Z → Z.
Variable clock : nat → tm.

Lemma ParseOption_show_bad opts h :
  given "h" opts = false → given "s" opts = true →
  ¬ (1 ≤ atoi (last_arg "s" opts) ≤ N_POLICIES) →
  DiskWiper.ParseOption atoi os_access os_create opts DiskWiper.new h
  = Ok (Code E_FAILURE, foldl DiskWiper.getopt_case DiskWiper.new opts,
        say "Bad Option (-s): Invalid Policy Number" (heard opts h)).
Proof.
  intros Hh Hs Hsel. unfold DiskWiper.ParseOption.
  rewrite getopt_cerr_fold, getopt_loop. project_dw.
  rewrite Hh, Hs. cbv zeta.
  destruct ((atoi (last_arg "s" opts) <? 1) || (N_POLICIES <? atoi (last_arg "s" opts)))
    eqn:E; [done|].
  by apply valid_number in E.
Qed.

Lemma main_exit opts a bytes blk opens stack h c dw h' :
  DiskWiper.ParseOption atoi os_access os_create opts DiskWiper.new h
  = Ok (Code c, dw, h') →
  c ≠ E_CONTINUE →
  DiskWiper.main atoi os_access os_create rnd io clock opts a bytes blk opens stack h
  = Ok (Exit c, h').
Proof.
  intros HP Hc. unfold DiskWiper.main. rewrite HP, bind_Ok.
  by destruct (Z.eqb_spec c E_CONTINUE).
Qed.

Lemma main_undefined opts a bytes blk opens stack h dw h' :
  DiskWiper.ParseOption atoi os_access os_create opts DiskWiper.new h
  = Ok (Indeterminate, dw, h') →
  DiskWiper.main atoi os_access os_create rnd io clock opts a bytes blk opens stack h
  = Ok (Undefined, h').
Proof. intros HP. unfold DiskWiper.main. by rewrite HP, bind_Ok. Qed.

Lemma main_continue opts a bytes blk opens stack h dw h' sel :
  DiskWiper.ParseOption atoi os_access os_create opts DiskWiper.new h
  = Ok (Code E_CONTINUE, dw, h') →
  DiskWiper._ValidPolicySel dw = Some sel →
  DiskWiper.main atoi os_access os_create rnd io clock opts a bytes blk opens stack h
  = (r ← main rnd io clock
           (mkOptions sel (DiskWiper._DeviceName dw) (DiskWiper._Reporting dw)
              (DiskWiper._Quite dw))
           (mkTarget (OS.GetDeviceSize a) bytes blk opens) stack;
     Ok (Session r.1 r.2, h')).
Proof.
  intros HP Hsel. unfold DiskWiper.main. rewrite HP, bind_Ok.
  change (E_CONTINUE =? E_CONTINUE) with true. cbv iota. rewrite Hsel.
  destruct (main _ _ _ _ _ _) as [[code w]|f]; done.
Qed.

(** The verdict of the checks: a refusal, or the go-ahead with everything
    the session needs in place. *)
Lemma checks_verdict opts h :
  let c := checks atoi os_access os_create opts h in
  let a1 := OS.AccessFile os_access os_create (last_arg "d" opts) OS.Perm.W h in
  let a2 := OS.AccessFile os_access os_create (last_arg "r" opts) OS.Perm.W a1.2 in
  c.1 = Code E_FAILURE
  ∨ c.1 = Code E_CONTINUE
    ∧ given "p" opts = true ∧ given "d" opts = true
    ∧ 1 ≤ atoi (last_arg "p" opts) ≤ N_POLICIES
    ∧ a1.1 = OS.AccessOK
    ∧ (given "r" opts = true → a2.1 = OS.AccessOK)
    ∧ c.2 = (if given "r" opts then a2.2 else a1.2).
Proof.
  unfold checks. cbv zeta.
  destruct (given "p" opts) eqn:Hp; cbn [andb negb orb]; [|
    destruct (given "d" opts) eqn:Hd; cbn [andb negb orb];
    [destruct (_ =? OS.AccessOK); cbn [negb]; by left|
     destruct (given "r" opts && _); by left]].
  destruct ((atoi (last_arg "p" opts) <? 1) || (N_POLICIES <? atoi (last_arg "p" opts)))
    eqn:Hsel; [by left|].
  apply valid_number in Hsel.
  destruct (given "d" opts) eqn:Hd; cbn [andb negb orb]; [|by left].
  destruct (Z.eqb_spec (OS.AccessFile os_access os_create (last_arg "d" opts)
                          OS.Perm.W h).1 OS.AccessOK) as [H1|H1];
    cbn [negb]; [|by left].
  destruct (given "r" opts) eqn:Hr; cbn [andb negb orb].
  - destruct (Z.eqb_spec (OS.AccessFile os_access os_create (last_arg "r" opts)
                            OS.Perm.W
                            (OS.AccessFile os_access os_create (last_arg "d" opts)
                               OS.Perm.W h).2).1 OS.AccessOK) as [H2|H2];
      cbn [negb]; [|by left].
    right. split_and!; (done || lia).
  - right. split_and!; (done || lia).
Qed.

Lemma checks_accept opts h :
  let a1 := OS.AccessFile os_access os_create (last_arg "d" opts) OS.Perm.W h in
  let a2 := OS.AccessFile os_access os_create (last_arg "r" opts) OS.Perm.W a1.2 in
  given "p" opts = true → given "d" opts = true →
  1 ≤ atoi (last_arg "p" opts) ≤ N_POLICIES →
  a1.1 = OS.AccessOK →
  (given "r" opts = true → a2.1 = OS.AccessOK) →
  checks atoi os_access os_create opts h
  = (Code E_CONTINUE, if given "r" opts then a2.2 else a1.2).
Proof.
  intros a1 a2 Hp Hd Hsel H1 H2. unfold checks. cbv zeta.
  rewrite Hp, Hd. cbn [andb negb orb].
  rewrite (proj2 (valid_number _) Hsel).
  fold a1. rewrite H1. change (OS.AccessOK =? OS.AccessOK) with true. cbn [negb].
  fold a2. destruct (given "r" opts); cbn [andb]; [|done].
  rewrite H2 by done. done.
Qed.

End ProgramFacts.
(** * The wrappers of the operating system *)

Lemma S_IFBLK_bits n : Z.testbit S_IFBLK n = bool_decide (n = 13 ∨ n = 14).
Proof.
  destruct (decide (n < 0)) as [Hn|Hn].
  { rewrite Z.testbit_neg_r; [|lia]. by rewrite bool_decide_eq_false_2; [|lia]. }
  destruct (decide (14 < n)) as [Hb|Hb].
  { rewrite Z.bits_above_log2; [|done|by change (Z.log2 S_IFBLK) with 14].
    by rewrite bool_decide_eq_false_2; [|lia]. }
  assert (Hall : forallb (fun n => Bool.eqb (Z.testbit S_IFBLK n)
                                     (bool_decide (n = 13 ∨ n = 14)))
                   (seqZ 0 15) = true) by (vm_compute; reflexivity).
  apply Bool.eqb_prop.
  apply (range_check _ 0 15 Hall). lia.
Qed.

Lemma land_S_IFBLK m :
  (Z.land m S_IFBLK =? 0) = negb (Z.testbit m 13 || Z.testbit m 14).
Proof.
  destruct (Z.testbit m 13) eqn:E13; [|destruct (Z.testbit m 14) eqn:E14]; simpl.
  - apply Z.eqb_neq. intros H.
    assert (Hb : Z.testbit (Z.land m S_IFBLK) 13 = false) by (rewrite H; done).
    rewrite Z.land_spec, E13, S_IFBLK_bits in Hb. done.
  - apply Z.eqb_neq. intros H.
    assert (Hb : Z.testbit (Z.land m S_IFBLK) 14 = false) by (rewrite H; done).
    rewrite Z.land_spec, E14, S_IFBLK_bits in Hb. done.
  - apply Z.eqb_eq, Z.bits_inj'. intros n _.
    rewrite Z.land_spec, S_IFBLK_bits, Z.bits_0.
    case_bool_decide as Hn; [|apply andb_false_r].
    by destruct Hn as [->| ->]; rewrite ?E13, ?E14.
Qed.

Lemma to_uint_range z : 0 ≤ to_uint z < 2 ^ 32.
Proof. apply Z.mod_pos_bound. done. Qed.

Lemma to_uint_zero z : to_uint z = 0 ↔ (2 ^ 32 | z).
Proof. unfold to_uint. rewrite Z.mod_divide; done. Qed.

(** X1. [OS::GetDeviceSize] on a descriptor above 0 tests the mode with
    [st_mode & S_IFBLK] and not against the file type: the size comes from
    the two [ioctl] answers, multiplied modulo 2^32, as soon as one of the
    bits 13 and 14 of the mode is set, which holds for block devices and
    also for character devices and directories; otherwise it is [st_size]
    modulo 2^32. *)
Theorem GetDeviceSize_branch (a : DeviceAnswers) :
  0 < a_fd a →
  OS.GetDeviceSize a
  = (if Z.testbit (a_mode a) 13 || Z.testbit (a_mode a) 14
     then to_uint (a_block_count a * a_block_size a)
     else to_uint (a_size a))
  ∧ Z.testbit S_IFCHR 13 = true ∧ Z.testbit S_IFDIR 14 = true
  ∧ (Z.testbit S_IFREG 13 || Z.testbit S_IFREG 14) = false.
Proof.
  intros Hfd. split; [|done].
  unfold OS.GetDeviceSize.
  destruct (Z.ltb_spec 0 (a_fd a)); [|lia].
  rewrite land_S_IFBLK. by destruct (_ || _).
Qed.

Lemma GetDeviceSize_branch_witness :
  0 < a_fd (mkAnswers 3 (S_IFCHR + 420) 0 512 1000)
  ∧ OS.GetDeviceSize (mkAnswers 3 (S_IFCHR + 420) 0 512 1000) = 512000.
Proof.
  assert (H : 0 < a_fd (mkAnswers 3 (S_IFCHR + 420) 0 512 1000)) by done.
  split; [exact H|].
  exact (proj1 (GetDeviceSize_branch _ H)).
Defined.

(** X2. The size [OS::GetDeviceSize] answers fits an [unsigned int], and it
    is 0, the size [main] takes for invalid, exactly when [open] gave a
    descriptor that is not above 0 (0 itself included), or the length of
    the file, or the product of block count and block size, is a multiple
    of 2^32. *)
Theorem GetDeviceSize_zero (a : DeviceAnswers) :
  0 ≤ OS.GetDeviceSize a < 2 ^ 32
  ∧ (OS.GetDeviceSize a = 0
     ↔ a_fd a ≤ 0
       ∨ (Z.land (a_mode a) S_IFBLK = 0 ∧ (2 ^ 32 | a_size a))
       ∨ (Z.land (a_mode a) S_IFBLK ≠ 0 ∧ (2 ^ 32 | a_block_count a * a_block_size a))).
Proof.
  unfold OS.GetDeviceSize.
  destruct (Z.ltb_spec 0 (a_fd a)) as [Hfd|Hfd]; [|split; [done|]; split; [lia|done]].
  destruct (Z.eqb_spec (Z.land (a_mode a) S_IFBLK) 0) as [Hm|Hm].
  - split; [apply to_uint_range|]. rewrite to_uint_zero. split.
    + intros Hd. right. left. done.
    + intros [?|[[_ ?]|[? _]]]; [lia|done|done].
  - split; [apply to_uint_range|]. rewrite to_uint_zero. split.
    + intros Hd. right. right. done.
    + intros [?|[[? _]|[_ ?]]]; [lia|done|done].
Qed.

(** * The program from its options on *)

(** X3. The loop over [getopt] in closed form: a flag is set exactly when
    its letter was given, a string member holds the argument of the last
    occurrence of its letter, letters the switch does not know change
    nothing, and [_ValidPolicySel] is still unset after the loop. *)
Theorem getopt_loop_closed_form (opts : list (ascii * string)) :
  foldl DiskWiper.getopt_case DiskWiper.new opts
  = DiskWiper.mk (last_arg "p" opts) (last_arg "d" opts) (last_arg "r" opts)
      (last_arg "s" opts) (given "q" opts) (given "h" opts) (given "s" opts)
      (given "p" opts) (given "d" opts) (given "r" opts) None.
Proof. apply getopt_loop. Qed.

(** X4. [-h] wins over every other option: after the lines [getopt] itself
    wrote for letters it does not know, the program prints the help page,
    ends with [E_FAILURE], asks nothing of the file system and creates no
    file, whatever else the command line holds. *)
Theorem help_first atoi os_access os_create rnd io clock opts a bytes blk opens
    stack h :
  given "h" opts = true →
  DiskWiper.main atoi os_access os_create rnd io clock opts a bytes blk opens stack h
  = Ok (Exit E_FAILURE,
        mkHost (h_cerr h ++ complaints opts ++ h_cerr (DiskWiper.Usage host0))
          (h_created h) (h_asked h)).
Proof.
  intros Hh.
  rewrite (main_exit atoi os_access os_create rnd io clock opts a bytes blk opens
             stack h E_FAILURE _ _
             (ParseOption_help atoi os_access os_create opts h Hh)) by done.
  rewrite Usage_frame. unfold heard. cbn [h_cerr h_created h_asked].
  by rewrite <- app_assoc.
Qed.

Lemma help_first_witness :
  given "h" opts_help = true
  ∧ DiskWiper.main atoi_plain access_missing create_ok rnd_zero io_all clock_2013
      opts_help disk1 [] true true [] host0
    = Ok (Exit E_FAILURE,
          mkHost (h_cerr host0 ++ complaints opts_help
                  ++ h_cerr (DiskWiper.Usage host0))
            (h_created host0) (h_asked host0)).
Proof.
  assert (H : given "h" opts_help = true) by (vm_compute; reflexivity).
  split; [exact H|].
  exact (help_first atoi_plain access_missing create_ok rnd_zero io_all clock_2013
           opts_help disk1 [] true true [] host0 H).
Defined.

(** X5. [-s n] with a number of the catalog (and no [-h]) prints, after the
    lines [getopt] itself wrote, the page of policy [n], of [passes + 3]
    lines, touches no file even when [-p], [-d] and [-r] are given too, and
    then [ShowPolicyDetail] ends without a [return]: the value [main] gives
    back is not defined by the source. *)
Theorem show_page atoi os_access os_create rnd io clock opts a bytes blk opens
    stack h :
  given "h" opts = false → given "s" opts = true →
  1 ≤ atoi (last_arg "s" opts) ≤ N_POLICIES →
  ∃ P, wPolicies !! Z.to_nat (atoi (last_arg "s" opts) - 1) = Some P
    ∧ DiskWiper.main atoi os_access os_create rnd io clock opts a bytes blk opens
        stack h
      = Ok (Undefined,
            mkHost (h_cerr h ++ complaints opts ++ page P) (h_created h) (h_asked h))
    ∧ length (page P) = (Z.to_nat (passes P) + 3)%nat.
Proof.
  intros Hh Hs Hsel.
  destruct (ParseOption_show atoi os_access os_create opts h Hh Hs Hsel)
    as (P & HP & Hrun).
  exists P. split_and!.
  - by apply policy_at_catalog in HP as (_ & ? & _).
  - eapply main_undefined. exact Hrun.
  - apply page_length.
Qed.

Lemma show_page_witness :
  given "h" opts_show = false
  ∧ given "s" opts_show = true
  ∧ 1 ≤ atoi_plain (last_arg "s" opts_show) ≤ N_POLICIES
  ∧ ∃ P, wPolicies !! Z.to_nat (atoi_plain (last_arg "s" opts_show) - 1)
         = Some P
      ∧ DiskWiper.main atoi_plain access_missing create_ok rnd_zero io_all clock_2013
          opts_show
          disk1 [] true true [] host0
        = Ok (Undefined,
              mkHost (h_cerr host0 ++ complaints opts_show ++ page P)
                (h_created host0) (h_asked host0))
      ∧ length (page P) = (Z.to_nat (passes P) + 3)%nat.
Proof.
  assert (H1 : given "h" opts_show = false)
    by (vm_compute; reflexivity).
  assert (H2 : given "s" opts_show = true)
    by (vm_compute; reflexivity).
  assert (H3 : 1 ≤ atoi_plain (last_arg "s" opts_show)
               ≤ N_POLICIES)
    by (vm_compute; split; discriminate).
  refine (conj H1 (conj H2 (conj H3 _))).
  exact (show_page atoi_plain access_missing create_ok rnd_zero io_all clock_2013
           _ disk1 [] true true [] host0 H1 H2 H3).
Defined.

(** X6. A policy number outside the catalog, after [-s] or after [-p], is
    refused before any file is looked at: one line on the standard error
    stream after those [getopt] itself wrote, [E_FAILURE], no question to
    the file system and no file created, also when [-d] and [-r] name files
    that do not exist. *)
Theorem bad_number_touches_nothing atoi os_access os_create rnd io clock opts a
    bytes blk opens stack h :
  given "h" opts = false →
  given "s" opts || given "p" opts = true →
  ¬ (1 ≤ atoi (last_arg (if given "s" opts then "s" else "p")%char opts) ≤ N_POLICIES) →
  DiskWiper.main atoi os_access os_create rnd io clock opts a bytes blk opens stack h
  = Ok (Exit E_FAILURE,
        mkHost (h_cerr h ++ complaints opts
                ++ [if given "s" opts then "Bad Option (-s): Invalid Policy Number"
                    else "Bad Option (-p): Invalid Policy Number"])
          (h_created h) (h_asked h)).
Proof.
  intros Hh Hsp Hsel.
  assert (Hsay : ∀ text, say text (heard opts h)
                 = mkHost (h_cerr h ++ complaints opts ++ [text])
                     (h_created h) (h_asked h)).
  { intros text. unfold say, heard. cbn [h_cerr h_created h_asked].
    by rewrite <- app_assoc. }
  destruct (given "s" opts) eqn:Hs.
  - rewrite <- Hsay. eapply main_exit; [by apply ParseOption_show_bad|done].
  - simpl in Hsp. rewrite <- Hsay.
    destruct (ParseOption_checks atoi os_access os_create opts h Hh Hs)
      as (dw & Hrun & _).
    assert (Hc : checks atoi os_access os_create opts (heard opts h)
                 = (Code E_FAILURE,
                    say "Bad Option (-p): Invalid Policy Number" (heard opts h))).
    { unfold checks. cbv zeta. rewrite Hsp. cbn [andb].
      destruct ((atoi (last_arg "p" opts) <? 1) || (N_POLICIES <? atoi (last_arg "p" opts)))
        eqn:E; [done|]. by apply valid_number in E. }
    rewrite Hc in Hrun. eapply main_exit; [exact Hrun|done].
Qed.

Lemma bad_number_touches_nothing_witness :
  given "h" opts_bad = false
  ∧ given "s" opts_bad || given "p" opts_bad = true
  ∧ ¬ (1 ≤ atoi_plain (last_arg (if given "s" opts_bad then "s" else "p")%char
                         opts_bad) ≤ N_POLICIES)
  ∧ DiskWiper.main atoi_plain access_missing create_ok rnd_zero io_all clock_2013
      opts_bad file_4GiB [] false true [] host0
    = Ok (Exit E_FAILURE,
          mkHost (h_cerr host0 ++ complaints opts_bad
                  ++ [if given "s" opts_bad
                      then "Bad Option (-s): Invalid Policy Number"
                      else "Bad Option (-p): Invalid Policy Number"])
            (h_created host0) (h_asked host0)).
Proof.
  assert (H1 : given "h" opts_bad = false)
    by (vm_compute; reflexivity).
  assert (H2 : given "s" opts_bad || given "p" opts_bad = true)
    by (vm_compute; reflexivity).
  assert (H3 : ¬ (1 ≤ atoi_plain (last_arg (if given "s" opts_bad then "s" else "p")%char
                                    opts_bad)
                  ≤ N_POLICIES))
    by (vm_compute; intros [_ H]; apply H; reflexivity).
  refine (conj H1 (conj H2 (conj H3 _))).
  exact (bad_number_touches_nothing atoi_plain access_missing create_ok rnd_zero
           io_all clock_2013 _ file_4GiB [] false true []
           host0 H1 H2 H3).
Defined.

(** X7. [-d] without [-p]: the device path is probed before the missing
    policy is noticed, and probing creates what is missing. When [access]
    fails with [ENOENT] and the file can be made, the refused command line
    leaves a new file under the device name behind. *)
Theorem device_alone_is_made atoi os_access os_create rnd io clock opts a bytes
    blk opens stack h ret :
  given "h" opts = false → given "s" opts = false → given "p" opts = false →
  given "d" opts = true →
  os_access (h_asked h) (last_arg "d" opts) W_OK = (ret, ENOENT) → ret < 0 →
  os_create (h_asked h) (last_arg "d" opts) = true →
  DiskWiper.main atoi os_access os_create rnd io clock opts a bytes blk opens stack h
  = Ok (Exit E_FAILURE,
        mkHost (h_cerr h ++ complaints opts
                ++ ["Bad Parameters: you have select a valid device name (-d) but a valid policy (-p) is missing"])
          (h_created h ++ [last_arg "d" opts]) (S (h_asked h))).
Proof.
  intros Hh Hs Hp Hd Hacc Hret Hmk.
  destruct (ParseOption_checks atoi os_access os_create opts h Hh Hs)
    as (dw & Hrun & _).
  assert (Ha : OS.AccessFile os_access os_create (last_arg "d" opts) OS.Perm.W
                 (heard opts h)
               = (0, mkHost (h_cerr h ++ complaints opts)
                       (h_created h ++ [last_arg "d" opts]) (S (h_asked h)))).
  { unfold OS.AccessFile, OS.Perm.W, heard. cbn [h_cerr h_created h_asked].
    rewrite Hacc, Hmk. destruct (Z.ltb_spec ret 0); [|lia]. done. }
  assert (Hc : checks atoi os_access os_create opts (heard opts h)
               = (Code E_FAILURE,
                  mkHost (h_cerr h ++ complaints opts
                          ++ ["Bad Parameters: you have select a valid device name (-d) but a valid policy (-p) is missing"])
                    (h_created h ++ [last_arg "d" opts]) (S (h_asked h)))).
  { unfold checks. cbv zeta. rewrite Hp, Hd, Ha. unfold say.
    cbn [andb negb orb fst snd h_cerr h_created h_asked].
    change (0 =? OS.AccessOK) with true. cbn [negb]. by rewrite <- app_assoc. }
  rewrite Hc in Hrun. eapply main_exit; [exact Hrun|done].
Qed.

Lemma device_alone_is_made_witness :
  given "h" opts_device = false ∧ given "s" opts_device = false
  ∧ given "p" opts_device = false ∧ given "d" opts_device = true
  ∧ access_missing (h_asked host0) (last_arg "d" opts_device) W_OK = (-1, ENOENT)
  ∧ -1 < 0
  ∧ create_ok (h_asked host0) (last_arg "d" opts_device) = true
  ∧ DiskWiper.main atoi_plain access_missing create_ok rnd_zero io_all clock_2013
      opts_device disk1 [] false true [] host0
    = Ok (Exit E_FAILURE,
          mkHost (h_cerr host0 ++ complaints opts_device
                  ++ ["Bad Parameters: you have select a valid device name (-d) but a valid policy (-p) is missing"])
            (h_created host0 ++ [last_arg "d" opts_device]) (S (h_asked host0))).
Proof.
  assert (H1 : given "h" opts_device = false) by (vm_compute; reflexivity).
  assert (H2 : given "s" opts_device = false) by (vm_compute; reflexivity).
  assert (H3 : given "p" opts_device = false) by (vm_compute; reflexivity).
  assert (H4 : given "d" opts_device = true) by (vm_compute; reflexivity).
  assert (H5 : access_missing (h_asked host0) (last_arg "d" opts_device) W_OK
               = (-1, ENOENT)) by reflexivity.
  assert (H6 : -1 < 0) by lia.
  assert (H7 : create_ok (h_asked host0) (last_arg "d" opts_device) = true)
    by reflexivity.
  refine (conj H1 (conj H2 (conj H3 (conj H4 (conj H5 (conj H6 (conj H7 _))))))).
  exact (device_alone_is_made atoi_plain access_missing create_ok rnd_zero io_all
           clock_2013 opts_device disk1 [] false true [] host0 (-1)
           H1 H2 H3 H4 H5 H6 H7).
Defined.

(** X8. [-r] without [-p] and [-d]: the report file is probed, and made
    when it is missing, before the command line is refused with the advice
    to read the help. *)
Theorem report_alone_is_made atoi os_access os_create rnd io clock opts a bytes
    blk opens stack h ret :
  given "h" opts = false → given "s" opts = false → given "p" opts = false →
  given "d" opts = false → given "r" opts = true →
  os_access (h_asked h) (last_arg "r" opts) W_OK = (ret, ENOENT) → ret < 0 →
  os_create (h_asked h) (last_arg "r" opts) = true →
  DiskWiper.main atoi os_access os_create rnd io clock opts a bytes blk opens stack h
  = Ok (Exit E_FAILURE,
        mkHost (h_cerr h ++ complaints opts
                ++ ["Please read diskwiper inline help: ./diskwiper -h"])
          (h_created h ++ [last_arg "r" opts]) (S (h_asked h))).
Proof.
  intros Hh Hs Hp Hd Hr Hacc Hret Hmk.
  destruct (ParseOption_checks atoi os_access os_create opts h Hh Hs)
    as (dw & Hrun & _).
  assert (Ha : OS.AccessFile os_access os_create (last_arg "r" opts) OS.Perm.W
                 (heard opts h)
               = (0, mkHost (h_cerr h ++ complaints opts)
                       (h_created h ++ [last_arg "r" opts]) (S (h_asked h)))).
  { unfold OS.AccessFile, OS.Perm.W, heard. cbn [h_cerr h_created h_asked].
    rewrite Hacc, Hmk. destruct (Z.ltb_spec ret 0); [|lia]. done. }
  assert (Hc : checks atoi os_access os_create opts (heard opts h)
               = (Code E_FAILURE,
                  mkHost (h_cerr h ++ complaints opts
                          ++ ["Please read diskwiper inline help: ./diskwiper -h"])
                    (h_created h ++ [last_arg "r" opts]) (S (h_asked h)))).
  { unfold checks. cbv zeta. rewrite Hp, Hd, Hr. cbn [andb negb orb]. rewrite Ha.
    unfold say. cbn [andb negb orb fst snd h_cerr h_created h_asked].
    change (0 =? OS.AccessOK) with true. cbn [negb]. by rewrite <- app_assoc. }
  rewrite Hc in Hrun. eapply main_exit; [exact Hrun|done].
Qed.

Lemma report_alone_is_made_witness :
  given "h" opts_report = false ∧ given "s" opts_report = false
  ∧ given "p" opts_report = false ∧ given "d" opts_report = false
  ∧ given "r" opts_report = true
  ∧ access_missing (h_asked host0) (last_arg "r" opts_report) W_OK = (-1, ENOENT)
  ∧ -1 < 0
  ∧ create_ok (h_asked host0) (last_arg "r" opts_report) = true
  ∧ DiskWiper.main atoi_plain access_missing create_ok rnd_zero io_all clock_2013
      opts_report disk1 [] false true [] host0
    = Ok (Exit E_FAILURE,
          mkHost (h_cerr host0 ++ complaints opts_report
                  ++ ["Please read diskwiper inline help: ./diskwiper -h"])
            (h_created host0 ++ [last_arg "r" opts_report]) (S (h_asked host0))).
Proof.
  assert (H1 : given "h" opts_report = false) by (vm_compute; reflexivity).
  assert (H2 : given "s" opts_report = false) by (vm_compute; reflexivity).
  assert (H3 : given "p" opts_report = false) by (vm_compute; reflexivity).
  assert (H4 : given "d" opts_report = false) by (vm_compute; reflexivity).
  assert (H4' : given "r" opts_report = true) by (vm_compute; reflexivity).
  assert (H5 : access_missing (h_asked host0) (last_arg "r" opts_report) W_OK
               = (-1, ENOENT)) by reflexivity.
  assert (H6 : -1 < 0) by lia.
  assert (H7 : create_ok (h_asked host0) (last_arg "r" opts_report) = true)
    by reflexivity.
  refine (conj H1 (conj H2 (conj H3 (conj H4 (conj H4' (conj H5 (conj H6 (conj H7 _)))))))).
  exact (report_alone_is_made atoi_plain access_missing create_ok rnd_zero io_all
           clock_2013 opts_report disk1 [] false true [] host0 (-1)
           H1 H2 H3 H4 H4' H5 H6 H7).
Defined.

(** X9. [ParseOption] answers [E_CONTINUE] only for a command line with
    [-p] and [-d] and without [-h] and [-s], whose policy number is one of
    the catalog and whose device was found writable or was made; then
    [_ValidPolicySel] holds that number less one, the standard error stream
    has got the lines [getopt] itself wrote for letters it does not know or
    arguments that are missing, and nothing else, and the file system was
    asked once, or twice when [-r] is given. *)
Theorem ParseOption_continue atoi os_access os_create opts h dw h' :
  DiskWiper.ParseOption atoi os_access os_create opts DiskWiper.new h
  = Ok (Code E_CONTINUE, dw, h') →
  given "h" opts = false ∧ given "s" opts = false
  ∧ given "p" opts = true ∧ given "d" opts = true
  ∧ 1 ≤ atoi (last_arg "p" opts) ≤ N_POLICIES
  ∧ DiskWiper._ValidPolicySel dw = Some (atoi (last_arg "p" opts) - 1)
  ∧ DiskWiper._DeviceName dw = last_arg "d" opts
  ∧ (OS.AccessFile os_access os_create (last_arg "d" opts) W_OK (heard opts h)).1
    = OS.AccessOK
  ∧ h_cerr h' = h_cerr h ++ complaints opts
  ∧ h_asked h' = (h_asked h + (if given "r" opts then 2 else 1))%nat.
Proof.
  intros Hrun.
  destruct (given "h" opts) eqn:Hh.
  { rewrite (ParseOption_help atoi os_access os_create opts h Hh) in Hrun.
    discriminate Hrun. }
  destruct (given "s" opts) eqn:Hs.
  { destruct (decide (1 ≤ atoi (last_arg "s" opts) ≤ N_POLICIES)) as [Hsel|Hsel].
    - destruct (ParseOption_show atoi os_access os_create opts h Hh Hs Hsel)
        as (P & _ & HP). rewrite HP in Hrun. discriminate Hrun.
    - rewrite (ParseOption_show_bad atoi os_access os_create opts h Hh Hs Hsel)
        in Hrun. discriminate Hrun. }
  destruct (ParseOption_checks atoi os_access os_create opts h Hh Hs)
    as (dw0 & HP & Hdev & _ & _ & Hsel).
  rewrite HP in Hrun. injection Hrun as Hc <- Hh'.
  destruct (checks_verdict atoi os_access os_create opts (heard opts h))
    as [Hv|(_ & Hp & Hd & Hn & Ha1 & Ha2 & Hh2)];
    [rewrite Hv in Hc; discriminate Hc|].
  rewrite Hp, Hd in Hsel.
  destruct (Z.leb_spec 1 (atoi (last_arg "p" opts))); [|lia].
  destruct (Z.leb_spec (atoi (last_arg "p" opts)) N_POLICIES); [|lia].
  destruct (heard_frame opts h) as (F1 & _ & F3).
  split_and!; try done; try lia.
  - rewrite <- Hh', Hh2, <- F1.
    pose proof (AccessFile_frame os_access os_create (last_arg "d" opts) OS.Perm.W
                  (heard opts h)) as (E1 & _).
    destruct (given "r" opts); [|done].
    pose proof (AccessFile_frame os_access os_create (last_arg "r" opts) OS.Perm.W
                  (OS.AccessFile os_access os_create (last_arg "d" opts) OS.Perm.W
                     (heard opts h)).2)
      as (E2 & _).
    cbv zeta in E1, E2. congruence.
  - rewrite <- Hh', Hh2, <- F3.
    pose proof (AccessFile_frame os_access os_create (last_arg "d" opts) OS.Perm.W
                  (heard opts h)) as (_ & E1 & _).
    destruct (given "r" opts); [|cbv zeta in E1; lia].
    pose proof (AccessFile_frame os_access os_create (last_arg "r" opts) OS.Perm.W
                  (OS.AccessFile os_access os_create (last_arg "d" opts) OS.Perm.W
                     (heard opts h)).2)
      as (_ & E2 & _).
    cbv zeta in E1, E2. lia.
Qed.

Lemma ParseOption_continue_witness :
  DiskWiper.ParseOption atoi_plain access_ok create_no opts_odd DiskWiper.new host0
  = Ok (Code E_CONTINUE,
        DiskWiper.mk "1" "f5" "" "" true false false true true false (Some 0),
        mkHost ["diskwiper: illegal option -- z"] [] 1)
  ∧ given "h" opts_odd = false ∧ given "s" opts_odd = false
  ∧ given "p" opts_odd = true ∧ given "d" opts_odd = true
  ∧ 1 ≤ atoi_plain (last_arg "p" opts_odd) ≤ N_POLICIES
  ∧ DiskWiper._ValidPolicySel
      (DiskWiper.mk "1" "f5" "" "" true false false true true false (Some 0))
    = Some (atoi_plain (last_arg "p" opts_odd) - 1)
  ∧ DiskWiper._DeviceName
      (DiskWiper.mk "1" "f5" "" "" true false false true true false (Some 0))
    = last_arg "d" opts_odd
  ∧ (OS.AccessFile access_ok create_no (last_arg "d" opts_odd) W_OK
       (heard opts_odd host0)).1
    = OS.AccessOK
  ∧ h_cerr (mkHost ["diskwiper: illegal option -- z"] [] 1)
    = h_cerr host0 ++ complaints opts_odd
  ∧ h_asked (mkHost ["diskwiper: illegal option -- z"] [] 1)
    = (h_asked host0 + (if given "r" opts_odd then 2 else 1))%nat.
Proof.
  assert (H : DiskWiper.ParseOption atoi_plain access_ok create_no opts_odd
                DiskWiper.new host0
              = Ok (Code E_CONTINUE,
                    DiskWiper.mk "1" "f5" "" "" true false false true true false
                      (Some 0),
                    mkHost ["diskwiper: illegal option -- z"] [] 1))
    by (vm_compute; reflexivity).
  split; [exact H|].
  exact (ParseOption_continue atoi_plain access_ok create_no opts_odd host0 _ _ H).
Defined.

(** X10. The program, from its command line to its exit, ends without a
    fault on every input: it never reads [_ValidPolicySel] unset and never
    indexes the catalog outside its bounds. Before the session it ends with
    [E_FAILURE] only, or after [-s] with no defined value; the session ends
    with [E_FAILURE] exactly when the size found for the device is 0, and
    with [E_SUCCESS] otherwise. *)
Theorem main_total atoi os_access os_create rnd io clock opts a bytes blk opens
    stack h :
  ∃ f h',
    DiskWiper.main atoi os_access os_create rnd io clock opts a bytes blk opens stack h
    = Ok (f, h')
    ∧ match f with
      | Exit c => c = E_FAILURE
      | Undefined => given "h" opts = false ∧ given "s" opts = true
      | Session code w =>
          code = (if OS.GetDeviceSize a =? 0 then E_FAILURE else E_SUCCESS)
      | Unset => False
      end.
Proof.
  destruct (given "h" opts) eqn:Hh.
  { eexists _, _. split; [|shelve].
    eapply main_exit; [by apply ParseOption_help|done]. Unshelve. done. }
  destruct (given "s" opts) eqn:Hs.
  { destruct (decide (1 ≤ atoi (last_arg "s" opts) ≤ N_POLICIES)) as [Hsel|Hsel].
    - destruct (ParseOption_show atoi os_access os_create opts h Hh Hs Hsel)
        as (P & _ & HP).
      eexists _, _. split; [eapply main_undefined; exact HP|done].
    - eexists _, _. split; [|shelve].
      eapply main_exit; [by apply ParseOption_show_bad|done]. Unshelve. done. }
  destruct (ParseOption_checks atoi os_access os_create opts h Hh Hs)
    as (dw & HP & Hdev & _ & _ & Hsel).
  destruct (checks_verdict atoi os_access os_create opts (heard opts h))
    as [Hv|(Hv & Hp & Hd & Hn & _)]; rewrite Hv in HP.
  { eexists _, _. split; [|shelve]. eapply main_exit; [exact HP|done].
    Unshelve. done. }
  rewrite Hp, Hd in Hsel.
  destruct (Z.leb_spec 1 (atoi (last_arg "p" opts))); [|lia].
  destruct (Z.leb_spec (atoi (last_arg "p" opts)) N_POLICIES); [|lia].
  cbn [andb] in Hsel.
  destruct (policy_at_valid (atoi (last_arg "p" opts) - 1)) as [P HPol]; [lia|].
  destruct (session_log rnd io clock
              (mkOptions (atoi (last_arg "p" opts) - 1) (DiskWiper._DeviceName dw)
                 (DiskWiper._Reporting dw) (DiskWiper._Quite dw))
              (mkTarget (OS.GetDeviceSize a) bytes blk opens) stack P HPol)
    as (w & Hmain & _).
  eexists _, _. split.
  - rewrite (main_continue atoi os_access os_create rnd io clock opts a bytes blk
               opens stack h dw _ _ HP Hsel).
    rewrite Hmain, bind_Ok. reflexivity.
  - done.
Qed.

(** X11. A command line with [-p n] and [-d dev], [n] a number of the
    catalog, the device writable and the report file, if one is asked for,
    writable, and neither [-h] nor [-s]: the standard error stream gets the
    lines [getopt] itself wrote for letters it does not know or arguments
    that are missing, and nothing else, and the session runs with policy
    [n] of the help page on [dev] with the size [OS::GetDeviceSize] finds,
    logging the lines of that session; the last [-p] and the last [-d] of
    the command line count. *)
Theorem accepted_run atoi os_access os_create rnd io clock opts a bytes blk opens
    stack h :
  given "h" opts = false → given "s" opts = false →
  given "p" opts = true → given "d" opts = true →
  1 ≤ atoi (last_arg "p" opts) ≤ N_POLICIES →
  (OS.AccessFile os_access os_create (last_arg "d" opts) W_OK (heard opts h)).1
  = OS.AccessOK →
  (given "r" opts = true →
   (OS.AccessFile os_access os_create (last_arg "r" opts) W_OK
      (OS.AccessFile os_access os_create (last_arg "d" opts) W_OK (heard opts h)).2).1
   = OS.AccessOK) →
  ∃ P w h',
    wPolicies !! Z.to_nat (atoi (last_arg "p" opts) - 1) = Some P
    ∧ DiskWiper.main atoi os_access os_create rnd io clock opts a bytes blk opens
        stack h
      = Ok (Session (if OS.GetDeviceSize a =? 0 then E_FAILURE else E_SUCCESS) w, h')
    ∧ h_cerr h' = h_cerr h ++ complaints opts
    ∧ w_log w
      = log_after clock (mkLog (given "r" opts) (given "q" opts) 0 [] [] [])
          (log_session P (last_arg "d" opts) (OS.GetDeviceSize a)).
Proof.
  intros Hh Hs Hp Hd Hn Ha1 Ha2.
  destruct (ParseOption_checks atoi os_access os_create opts h Hh Hs)
    as (dw & HP & Hdev & Hrep & Hq & Hsel).
  rewrite (checks_accept atoi os_access os_create opts (heard opts h) Hp Hd Hn Ha1 Ha2)
    in HP.
  cbn [fst snd] in HP.
  rewrite Hp, Hd in Hsel.
  destruct (Z.leb_spec 1 (atoi (last_arg "p" opts))); [|lia].
  destruct (Z.leb_spec (atoi (last_arg "p" opts)) N_POLICIES); [|lia].
  cbn [andb] in Hsel.
  destruct (policy_at_valid (atoi (last_arg "p" opts) - 1)) as [P HPol]; [lia|].
  destruct (session_log rnd io clock
              (mkOptions (atoi (last_arg "p" opts) - 1) (DiskWiper._DeviceName dw)
                 (DiskWiper._Reporting dw) (DiskWiper._Quite dw))
              (mkTarget (OS.GetDeviceSize a) bytes blk opens) stack P HPol)
    as (w & Hmain & Hlog).
  exists P, w. eexists. split_and!.
  - by apply policy_at_catalog in HPol as (_ & ? & _).
  - rewrite (main_continue atoi os_access os_create rnd io clock opts a bytes blk
               opens stack h dw _ _ HP Hsel).
    rewrite Hmain, bind_Ok. reflexivity.
  - destruct (heard_frame opts h) as (<- & _).
    pose proof (AccessFile_frame os_access os_create (last_arg "d" opts) OS.Perm.W
                  (heard opts h)) as (E1 & _).
    destruct (given "r" opts); [|done].
    pose proof (AccessFile_frame os_access os_create (last_arg "r" opts) OS.Perm.W
                  (OS.AccessFile os_access os_create (last_arg "d" opts) OS.Perm.W
                     (heard opts h)).2)
      as (E2 & _).
    cbv zeta in E1, E2. congruence.
  - rewrite Hlog. unfold log_boot. cbn [_Reporting _Quite _DeviceName t_size].
    by rewrite Hdev, Hrep, Hq.
Qed.

Lemma accepted_run_witness :
  given "h" opts_odd = false ∧ given "s" opts_odd = false
  ∧ given "p" opts_odd = true ∧ given "d" opts_odd = true
  ∧ 1 ≤ atoi_plain (last_arg "p" opts_odd) ≤ N_POLICIES
  ∧ (OS.AccessFile access_ok create_no (last_arg "d" opts_odd) W_OK
       (heard opts_odd host0)).1
    = OS.AccessOK
  ∧ (given "r" opts_odd = true →
     (OS.AccessFile access_ok create_no (last_arg "r" opts_odd) W_OK
        (OS.AccessFile access_ok create_no (last_arg "d" opts_odd) W_OK
           (heard opts_odd host0)).2).1
     = OS.AccessOK)
  ∧ ∃ P w h',
      wPolicies !! Z.to_nat (atoi_plain (last_arg "p" opts_odd) - 1) = Some P
      ∧ DiskWiper.main atoi_plain access_ok create_no rnd_zero io_all clock_2013
          opts_odd disk1 [] true true [] host0
        = Ok (Session (if OS.GetDeviceSize disk1 =? 0 then E_FAILURE
                       else E_SUCCESS) w, h')
      ∧ h_cerr h' = h_cerr host0 ++ complaints opts_odd
      ∧ w_log w
        = log_after clock_2013 (mkLog (given "r" opts_odd) (given "q" opts_odd) 0 [] [] [])
            (log_session P (last_arg "d" opts_odd) (OS.GetDeviceSize disk1)).
Proof.
  assert (H1 : given "h" opts_odd = false) by (vm_compute; reflexivity).
  assert (H2 : given "s" opts_odd = false) by (vm_compute; reflexivity).
  assert (H3 : given "p" opts_odd = true) by (vm_compute; reflexivity).
  assert (H4 : given "d" opts_odd = true) by (vm_compute; reflexivity).
  assert (H5 : 1 ≤ atoi_plain (last_arg "p" opts_odd) ≤ N_POLICIES)
    by (vm_compute; split; discriminate).
  assert (H6 : (OS.AccessFile access_ok create_no (last_arg "d" opts_odd) W_OK
                  (heard opts_odd host0)).1
               = OS.AccessOK) by reflexivity.
  assert (H7 : given "r" opts_odd = true →
               (OS.AccessFile access_ok create_no (last_arg "r" opts_odd) W_OK
                  (OS.AccessFile access_ok create_no (last_arg "d" opts_odd) W_OK
                     (heard opts_odd host0)).2).1 = OS.AccessOK)
    by (intros _; reflexivity).
  refine (conj H1 (conj H2 (conj H3 (conj H4 (conj H5 (conj H6 (conj H7 _))))))).
  exact (accepted_run atoi_plain access_ok create_no rnd_zero io_all clock_2013
           opts_odd disk1 [] true true [] host0 H1 H2 H3 H4 H5 H6 H7).
Defined.

(** X12. The numbers of the help page are the numbers [-p] and [-s] take:
    line [n] of the list of policies shows the name and the pass count of
    the policy that the number [n] selects, which is entry [n-1] of
    [wPolicies]. *)
Theorem Usage_numbers (n : Z) (h : Host) :
  1 ≤ n ≤ N_POLICIES →
  ∃ P, policy_at (n - 1) = Ok P
    ∧ h_cerr (DiskWiper.Usage h) !! (length (h_cerr h) + 9 + Z.to_nat n)%nat
      = Some (dec n +:+ ") " +:+ name P +:+ " ( " +:+ dec (passes P) +:+ " passes ) ")
    ∧ length (h_cerr (DiskWiper.Usage h))
      = (length (h_cerr h) + 11 + Z.to_nat N_POLICIES)%nat.
Proof.
  intros Hn. rewrite Usage_frame. cbn [h_cerr].
  rewrite length_app. rewrite lookup_app_r by lia.
  replace (length (h_cerr h) + 9 + Z.to_nat n - length (h_cerr h))%nat
    with (9 + Z.to_nat n)%nat by lia.
  assert (HN : N_POLICIES = 5) by reflexivity.
  assert (Hc : n = 1 ∨ n = 2 ∨ n = 3 ∨ n = 4 ∨ n = 5) by lia.
  destruct Hc as [->|[->|[->|[->| ->]]]]; eexists; split_and!;
    try (vm_compute; reflexivity); cbn; lia.
Qed.

Lemma Usage_numbers_witness :
  1 ≤ 5 ≤ N_POLICIES
  ∧ ∃ P, policy_at (5 - 1) = Ok P
      ∧ h_cerr (DiskWiper.Usage host0) !! (length (h_cerr host0) + 9 + Z.to_nat 5)%nat
        = Some (dec 5 +:+ ") " +:+ name P +:+ " ( " +:+ dec (passes P) +:+ " passes ) ")
      ∧ length (h_cerr (DiskWiper.Usage host0))
        = (length (h_cerr host0) + 11 + Z.to_nat N_POLICIES)%nat.
Proof.
  assert (H : 1 ≤ 5 ≤ N_POLICIES) by (vm_compute; split; discriminate).
  split; [exact H|].
  exact (Usage_numbers 5 host0 H).
Defined.

(** X13. The policy page prints the bits of a pattern byte from the least
    significant to the most significant: each group of eight digits is the
    binary numeral of the byte read backwards. The byte shows as a value
    from 0 to 255, and its hexadecimal numeral on the page, one digit for a
    value under 16, reads back as that value. *)
Theorem bits_mirror (c : byte) :
  bits (byte_value c) = String.rev (binary8 (byte_value c))
  ∧ 0 ≤ byte_value c < 256
  ∧ hex_value (hex (byte_value c)) = Some (byte_value c).
Proof. destruct c; vm_compute; split_and!; congruence. Qed.

(** X14. [ShowPolicyDetail] on a policy that has a rule for every step up
    to [passes] and, for every rule that is not random, [datalen] bytes
    behind [data]: no read outside the rules or the pattern, and the page
    is the two heading lines, one line per step numbered from 1 (while the
    log of a session numbers the same steps from 0), and an empty line; a
    pattern step shows its [datalen] bytes in hexadecimal and then bit by
    bit. Nothing else of the host changes. *)
Theorem ShowPolicyDetail_page (P : WipePolicy) (h : Host) :
  showable P →
  DiskWiper.ShowPolicyDetail P h
  = Ok (mkHost (h_cerr h ++ page P) (h_created h) (h_asked h))
  ∧ length (page P) = (Z.to_nat (passes P) + 3)%nat.
Proof.
  intros HP. split; [by apply ShowPolicyDetail_showable|apply page_length].
Qed.

Lemma ShowPolicyDetail_page_witness :
  showable PeterGutmannPolicy
  ∧ DiskWiper.ShowPolicyDetail PeterGutmannPolicy host0
    = Ok (mkHost (h_cerr host0 ++ page PeterGutmannPolicy) (h_created host0)
            (h_asked host0))
  ∧ length (page PeterGutmannPolicy) = (Z.to_nat (passes PeterGutmannPolicy) + 3)%nat.
Proof.
  assert (H : showable PeterGutmannPolicy).
  { apply catalog_showable. unfold wPolicies. repeat constructor. }
  split; [exact H|].
  exact (ShowPolicyDetail_page PeterGutmannPolicy host0 H).
Defined.

(** X19. A device that cannot be written, or that is missing and cannot be
    made, is refused with [E_FAILURE] and one line naming it, after the
    lines [getopt] itself wrote; no file is created, and the report file of
    [-r] is not looked at. Any value of [access] other than 0 counts as a
    refusal. *)
Theorem unwritable_device_refused atoi os_access os_create rnd io clock opts a
    bytes blk opens stack h ret errno :
  given "h" opts = false → given "s" opts = false → given "d" opts = true →
  (given "p" opts = true → 1 ≤ atoi (last_arg "p" opts) ≤ N_POLICIES) →
  os_access (h_asked h) (last_arg "d" opts) W_OK = (ret, errno) → ret ≠ 0 →
  (ret < 0 → errno = ENOENT → os_create (h_asked h) (last_arg "d" opts) = false) →
  DiskWiper.main atoi os_access os_create rnd io clock opts a bytes blk opens stack h
  = Ok (Exit E_FAILURE,
        mkHost (h_cerr h ++ complaints opts
                ++ ["Bad Device File Access: Check file path and permissions: "
                    +:+ last_arg "d" opts])
          (h_created h) (S (h_asked h))).
Proof.
  intros Hh Hs Hd Hp Hacc Hret Hmk.
  destruct (ParseOption_checks atoi os_access os_create opts h Hh Hs)
    as (dw & Hrun & _).
  assert (Ha : OS.AccessFile os_access os_create (last_arg "d" opts) OS.Perm.W
                 (heard opts h)
               = (ret, mkHost (h_cerr h ++ complaints opts) (h_created h)
                         (S (h_asked h)))).
  { unfold OS.AccessFile, OS.Perm.W, heard. cbn [h_cerr h_created h_asked].
    rewrite Hacc.
    destruct (Z.ltb_spec ret 0); [|done].
    destruct (Z.eqb_spec errno ENOENT); [|done].
    cbn [andb]. by rewrite Hmk. }
  assert (Hc : checks atoi os_access os_create opts (heard opts h)
               = (Code E_FAILURE,
                  mkHost (h_cerr h ++ complaints opts
                          ++ ["Bad Device File Access: Check file path and permissions: "
                              +:+ last_arg "d" opts])
                    (h_created h) (S (h_asked h)))).
  { unfold checks. cbv zeta. rewrite Hd, Ha. unfold say.
    cbn [andb negb orb fst snd h_cerr h_created h_asked].
    destruct (Z.eqb_spec ret OS.AccessOK) as [E|_]; [by rewrite E in Hret|].
    cbn [negb]. rewrite <- app_assoc.
    destruct (given "p" opts); cbn [andb]; [|done].
    by rewrite (proj2 (valid_number _) (Hp eq_refl)). }
  rewrite Hc in Hrun. eapply main_exit; [exact Hrun|done].
Qed.

Lemma unwritable_device_refused_witness :
  given "h" opts_run = false ∧ given "s" opts_run = false ∧ given "d" opts_run = true
  ∧ (given "p" opts_run = true → 1 ≤ atoi_plain (last_arg "p" opts_run) ≤ N_POLICIES)
  ∧ access_missing (h_asked host0) (last_arg "d" opts_run) W_OK = (-1, ENOENT)
  ∧ -1 ≠ 0
  ∧ (-1 < 0 → ENOENT = ENOENT
     → create_no (h_asked host0) (last_arg "d" opts_run) = false)
  ∧ DiskWiper.main atoi_plain access_missing create_no rnd_zero io_all clock_2013
      opts_run disk1 [] true true [] host0
    = Ok (Exit E_FAILURE,
          mkHost (h_cerr host0 ++ complaints opts_run
                  ++ ["Bad Device File Access: Check file path and permissions: "
                      +:+ last_arg "d" opts_run])
            (h_created host0) (S (h_asked host0))).
Proof.
  assert (H1 : given "h" opts_run = false) by (vm_compute; reflexivity).
  assert (H2 : given "s" opts_run = false) by (vm_compute; reflexivity).
  assert (H3 : given "d" opts_run = true) by (vm_compute; reflexivity).
  assert (H4 : given "p" opts_run = true
               → 1 ≤ atoi_plain (last_arg "p" opts_run) ≤ N_POLICIES)
    by (intros _; vm_compute; split; discriminate).
  assert (H5 : access_missing (h_asked host0) (last_arg "d" opts_run) W_OK
               = (-1, ENOENT)) by reflexivity.
  assert (H6 : -1 ≠ 0) by discriminate.
  assert (H7 : -1 < 0 → ENOENT = ENOENT
               → create_no (h_asked host0) (last_arg "d" opts_run) = false)
    by (intros _ _; reflexivity).
  refine (conj H1 (conj H2 (conj H3 (conj H4 (conj H5 (conj H6 (conj H7 _))))))).
  exact (unwritable_device_refused atoi_plain access_missing create_no rnd_zero
           io_all clock_2013 opts_run disk1 [] true true [] host0 (-1) ENOENT
           H1 H2 H3 H4 H5 H6 H7).
Defined.

(** * The session on targets that do not behave *)

Lemma catalog_passes P : P ∈ wPolicies → 1 ≤ passes P.
Proof.
  intros HP. apply wPolicies_cases in HP.
  destruct HP as [->|[->|[->|[->| ->]]]]; by vm_compute.
Qed.

Lemma put_at_grow (p : nat) bytes target :
  (p ≤ length target)%nat →
  length (put_at p bytes target) = Nat.max (length target) (p + length bytes).
Proof.
  intros Hp. unfold put_at. rewrite !length_app, length_take, length_drop. lia.
Qed.

Section FileLength.

Context (rnd : nat → list byte) (clock : nat → tm).

Lemma write_grow L count w :
  0 ≤ count ≤ blockSize → grown L w →
  grown L (write io_all count w) ∧ w_pos (write io_all count w) = w_pos w + count.
Proof.
  intros Hc (Hbad & Hpos & Hlen & Hblk).
  unfold grown, write. rewrite Hbad. unfold io_all.
  cbn [w_bad w_pos w_target w_block].
  assert (Ht : length (take (Z.to_nat count) (take (Z.to_nat count) (w_block w)))
               = Z.to_nat count).
  { rewrite !length_take. lia. }
  rewrite Ht. split; [|lia]. split_and!.
  - apply Z.ltb_ge. lia.
  - lia.
  - rewrite put_at_grow, Ht by lia. lia.
  - done.
Qed.

Lemma round_grow L rules count w :
  0 ≤ count ≤ blockSize → grown L w →
  grown L (round rnd io_all rules count w)
  ∧ w_pos (round rnd io_all rules count w) = w_pos w + count.
Proof.
  intros Hc (Hbad & Hpos & Hlen & Hblk). unfold round.
  destruct (refill_frame rnd rules w) as (Ht & Hp & Hb & _).
  destruct (write_grow L count (refill rnd rules w) Hc) as [HG HP].
  { split_and!; [by rewrite Hb|by rewrite Hp|by rewrite Ht, Hp|
                 by apply refill_block_length]. }
  split; [done|]. by rewrite HP, Hp.
Qed.

Lemma rounds_grow L rules count n w :
  0 ≤ count ≤ blockSize → grown L w →
  grown L (Nat.iter n (round rnd io_all rules count) w)
  ∧ w_pos (Nat.iter n (round rnd io_all rules count) w)
    = w_pos w + Z.of_nat n * count.
Proof.
  intros Hc HG. induction n as [|n [IHG IHP]].
  - simpl. split; [done|lia].
  - rewrite Nat.iter_succ.
    destruct (round_grow L rules count _ Hc IHG) as [HG' HP'].
    split; [done|]. rewrite HP', IHP. lia.
Qed.

Lemma pass_grow P size step w w' :
  w_bad w = false → Z.of_nat (length (w_block w)) = blockSize →
  pass rnd io_all clock P size step w = Ok w' →
  w_bad w' = false
  ∧ Z.of_nat (length (w_target w'))
    = Z.max (Z.of_nat (length (w_target w))) (handed size).
Proof.
  intros Hbad Hblk H.
  destruct (pass_inv _ _ _ _ _ _ _ _ H) as (r & w2 & Hr & Hf & ->).
  assert (Z.of_nat (length (w_block w2)) = blockSize) as Hblk2.
  { rewrite (FillBlock_block_length _ _ _ _ Hf).
    - by destruct (prologue_frame clock r step w) as (-> & _).
    - by destruct (prologue_frame clock r step w) as (-> & _). }
  apply FillBlock_frame in Hf as (_ & Ht2 & Hp2 & Hb2 & _).
  destruct (prologue_frame clock r step w) as (_ & Ht1 & Hp1 & Hb1 & _).
  rewrite Hbad in Hp1.
  pose proof blockSize_pos as Hbs.
  assert (HG : grown (Z.of_nat (length (w_target w))) w2).
  { split_and!; [by rewrite Hb2, Hb1|rewrite Hp2, Hp1; lia|
                 rewrite Ht2, Ht1, Hp2, Hp1; lia|done]. }
  destruct (rounds_grow _ r blockSize (Z.to_nat (size / blockSize - 1)) w2
              ltac:(lia) HG) as (A1 & A2).
  destruct (rounds_grow _ r 1 (Z.to_nat (size mod blockSize)) _ ltac:(lia) A1)
    as ((B1 & _ & B3 & _) & B2).
  unfold epilogue.
  match goal with |- context [Log clock ?m ?v] =>
    destruct (Log_frame clock m v) as (_ & -> & _ & -> & _) end.
  split; [done|]. rewrite B3, B2, A2, Hp2, Hp1. unfold handed. lia.
Qed.

End FileLength.

(** X15. A regular file as target, every write taken: opening it for
    writing empties it, and each pass writes one block less than the size
    found for it holds, so after the session the file has the bytes of the
    blocks but one and of the remainder, [size - blockSize] when the size
    was a block or more, and its old length only when it was less than a
    block. *)
Theorem regular_file_shrinks rnd clock o t stack P :
  policy_at (_ValidPolicySel o) = Ok P → 0 < t_size t →
  t_opens t = true → t_blk t = false →
  ∃ w, main rnd io_all clock o t stack = Ok (E_SUCCESS, w)
    ∧ Z.of_nat (length (w_target w))
      = (if blockSize <=? t_size t then t_size t - blockSize else t_size t).
Proof.
  intros HP Hsize Hopen Hblk.
  assert (Hh : 0 ≤ handed (t_size t)).
  { unfold handed. pose proof blockSize_pos.
    apply Z.add_nonneg_nonneg; [apply Z.mul_nonneg_nonneg|]; lia. }
  destruct (session_invariant rnd io_all clock
              (fun j w => w_bad w = false
                 ∧ Z.of_nat (length (w_target w))
                   = (if j =? 0 then 0 else handed (t_size t)))
              o t stack P HP ltac:(lia)) as (w & Hmain & Hbad & Hlen).
  - destruct (open_devfd_frame t (header_world clock o t stack P))
      as (_ & _ & -> & -> & _).
    rewrite Hopen, Hblk. done.
  - intros j w w' Hj Hb (Hbad & Hlen) Hpass.
    destruct (pass_grow rnd clock P (t_size t) j w w' Hbad Hb Hpass) as (-> & ->).
    split; [done|]. rewrite Hlen.
    destruct (Z.eqb_spec (j + 1) 0); [lia|].
    destruct (Z.eqb_spec j 0); lia.
  - eexists. split; [exact Hmain|].
    match goal with |- context [Log clock ?m (Log clock ?m' ?v)] =>
      destruct (Log_frame clock m (Log clock m' v)) as (_ & -> & _);
      destruct (Log_frame clock m' v) as (_ & -> & _) end.
    rewrite Hlen.
    pose proof (catalog_passes P) as Hp.
    apply policy_at_catalog in HP as (HP & _). specialize (Hp HP).
    destruct (Z.eqb_spec (passes P) 0); [lia|].
    destruct (Z.leb_spec blockSize (t_size t)).
    + by apply handed_large.
    + apply handed_small. lia.
Qed.

Lemma regular_file_shrinks_witness :
  policy_at (_ValidPolicySel (mkOptions 2 "disk.img" false true)) = Ok DOD522022MPolicy
  ∧ 0 < t_size (mkTarget 100000 [] false true)
  ∧ t_opens (mkTarget 100000 [] false true) = true
  ∧ t_blk (mkTarget 100000 [] false true) = false
  ∧ ∃ w, main rnd_dry io_all clock_2013 (mkOptions 2 "disk.img" false true)
           (mkTarget 100000 [] false true) [] = Ok (E_SUCCESS, w)
      ∧ Z.of_nat (length (w_target w)) = 1696.
Proof.
  assert (H1 : policy_at (_ValidPolicySel (mkOptions 2 "disk.img" false true))
               = Ok DOD522022MPolicy) by reflexivity.
  assert (H2 : 0 < t_size (mkTarget 100000 [] false true)) by reflexivity.
  assert (H3 : t_opens (mkTarget 100000 [] false true) = true) by reflexivity.
  assert (H4 : t_blk (mkTarget 100000 [] false true) = false) by reflexivity.
  refine (conj H1 (conj H2 (conj H3 (conj H4 _)))).
  exact (regular_file_shrinks rnd_dry clock_2013 (mkOptions 2 "disk.img" false true)
           (mkTarget 100000 [] false true) [] DOD522022MPolicy H1 H2 H3 H4).
Defined.

(** X16. When the target cannot be opened for writing, nothing notices:
    every pass still issues all its writes, no byte reaches the target, the
    log reads as that of a session that worked, and [main] returns
    [E_SUCCESS]. *)
Theorem open_failure_unnoticed rnd io clock o t stack P :
  policy_at (_ValidPolicySel o) = Ok P → t_size t ≠ 0 → t_opens t = false →
  ∃ w, main rnd io clock o t stack = Ok (E_SUCCESS, w)
    ∧ w_target w = t_bytes t
    ∧ calls (w_log w) = log_session P (_DeviceName o) (t_size t)
    ∧ (MsgSessionAborted ∉ calls (w_log w))
    ∧ writes_of (w_trace w)
      = concat (replicate (Z.to_nat (passes P))
                  (replicate (Z.to_nat (t_size t / blockSize - 1)) blockSize
                   ++ replicate (Z.to_nat (t_size t mod blockSize)) 1)).
Proof.
  intros HP Hsize Hopen.
  destruct (session_invariant rnd io clock
              (fun j w => w_bad w = true ∧ w_target w = t_bytes t)
              o t stack P HP Hsize) as (w & Hmain & Hbad & Htar).
  - destruct (open_devfd_frame t (header_world clock o t stack P))
      as (_ & _ & -> & -> & _).
    rewrite Hopen. split; [done|].
    by destruct (header_world_frame clock o t stack P) as (_ & -> & _).
  - intros j w w' Hj Hb (Hbad & Htar) Hpass.
    destruct (pass_bad rnd io clock P (t_size t) j w w' Hbad Hpass) as (-> & ->).
    done.
  - destruct (session_log rnd io clock o t stack P HP) as (w1 & Hm1 & Hlog).
    destruct (Z.eqb_spec (t_size t) 0) as [|_]; [done|].
    pose proof (main_functional Hm1 Hmain) as Hw.
    destruct (session_writes rnd io clock o t stack P HP Hsize) as (w2 & Hm2 & Hwr).
    pose proof (main_functional Hm2 Hmain) as Hw2.
    eexists. split; [exact Hmain|].
    assert (Hcalls : calls (w_log (Log clock MsgSeparator (Log clock MsgSessionDone w)))
                     = log_session P (_DeviceName o) (t_size t)).
    { rewrite Hw, Hlog.
      by destruct (log_after_fields clock (log_boot o)
                     (log_session P (_DeviceName o) (t_size t)))
        as (_ & _ & -> & _). }
    split_and!.
    + match goal with |- context [Log clock ?m (Log clock ?m' ?v)] =>
        destruct (Log_frame clock m (Log clock m' v)) as (_ & -> & _);
        destruct (Log_frame clock m' v) as (_ & -> & _) end.
      done.
    + done.
    + rewrite Hcalls. by apply log_session_no_abort.
    + by rewrite Hw2.
Qed.

Lemma open_failure_unnoticed_witness :
  policy_at (_ValidPolicySel (mkOptions 0 "/dev/disk1" false false)) = Ok FastPolicy
  ∧ t_size (mkTarget 512000 [x01; x02; x03] true false) ≠ 0
  ∧ t_opens (mkTarget 512000 [x01; x02; x03] true false) = false
  ∧ ∃ w, main rnd_zero io_all clock_2013 (mkOptions 0 "/dev/disk1" false false)
           (mkTarget 512000 [x01; x02; x03] true false) [] = Ok (E_SUCCESS, w)
      ∧ w_target w = [x01; x02; x03]
      ∧ calls (w_log w) = log_session FastPolicy "/dev/disk1" 512000
      ∧ (MsgSessionAborted ∉ calls (w_log w))
      ∧ writes_of (w_trace w)
        = concat (replicate (Z.to_nat (passes FastPolicy))
                    (replicate (Z.to_nat (512000 / blockSize - 1)) blockSize
                     ++ replicate (Z.to_nat (512000 mod blockSize)) 1)).
Proof.
  assert (H1 : policy_at (_ValidPolicySel (mkOptions 0 "/dev/disk1" false false))
               = Ok FastPolicy) by reflexivity.
  assert (H2 : t_size (mkTarget 512000 [x01; x02; x03] true false) ≠ 0) by discriminate.
  assert (H3 : t_opens (mkTarget 512000 [x01; x02; x03] true false) = false)
    by reflexivity.
  refine (conj H1 (conj H2 (conj H3 _))).
  exact (open_failure_unnoticed rnd_zero io_all clock_2013
           (mkOptions 0 "/dev/disk1" false false)
           (mkTarget 512000 [x01; x02; x03] true false) [] FastPolicy H1 H2 H3).
Defined.

Section DrySource.

Context (rnd : nat → list byte) (io : nat → Z → Z) (clock : nat → tm).
Hypothesis Hdry : ∀ n, rnd n = [].

Lemma GetRandomData_dry sz w : w_block (GetRandomData rnd sz w) = w_block w.
Proof.
  unfold GetRandomData. rewrite Hdry, take_nil. cbn [w_block]. done.
Qed.

Lemma stale_step w0 w w' (e : Event) :
  stale w0 w → w_block w' = w_block w → w_trace w' = w_trace w ++ [e] →
  (∀ count bs, e = EvWrite count bs → bs = take (Z.to_nat count) (w_block w)) →
  stale w0 w'.
Proof.
  intros (Hb & tr & Ht & Hw) Hb' Ht' He. split; [congruence|].
  exists (tr ++ [e]). split; [by rewrite Ht', Ht, app_assoc|].
  intros count bs [Hin|Hin%list_elem_of_singleton]%elem_of_app.
  - by apply Hw.
  - rewrite <- Hb. by apply He.
Qed.

Lemma round_stale w0 rules count w :
  random rules ≠ 0 → stale w0 w → stale w0 (round rnd io rules count w).
Proof.
  intros Hr Hs. unfold round.
  destruct (refill_frame rnd rules w) as (_ & _ & _ & _ & _ & Ht & _).
  destruct (Z.eqb_spec (random rules) 0) as [|_]; [done|].
  assert (Hb : w_block (refill rnd rules w) = w_block w).
  { unfold refill. destruct (Z.eqb_spec (random rules) 0); [done|].
    apply GetRandomData_dry. }
  assert (Hs1 : stale w0 (refill rnd rules w)).
  { by apply (stale_step w0 w _ (EvRandom (w_nrandom w))). }
  destruct (write_frame io count (refill rnd rules w)) as (Hb2 & _ & _ & _ & Ht2).
  apply (stale_step w0 _ _ _ Hs1 Hb2 Ht2).
  by intros c bs [= <- <-].
Qed.

Lemma rounds_stale w0 rules count n w :
  random rules ≠ 0 → stale w0 w → stale w0 (Nat.iter n (round rnd io rules count) w).
Proof.
  intros Hr Hs. induction n as [|n IH]; [done|].
  rewrite Nat.iter_succ. by apply round_stale.
Qed.

Lemma Log_stale w0 m w : stale w0 w → stale w0 (Log clock m w).
Proof.
  intros (Hb & tr & Ht & Hw).
  destruct (Log_frame clock m w) as (Hb' & _ & _ & _ & _ & _ & Ht').
  split; [congruence|]. exists tr. split; [congruence|done].
Qed.

Lemma pass_stale P size step w r :
  P ∈ wPolicies → 0 ≤ step < passes P →
  Z.of_nat (length (w_block w)) = blockSize →
  rules P !! Z.to_nat step = Some r → random r ≠ 0 →
  ∃ w', pass rnd io clock P size step w = Ok w' ∧ stale w w'.
Proof.
  intros HP Hstep Hblk Hr Hrand.
  destruct (pass_total rnd io clock P size step w HP Hstep Hblk)
    as (r' & w2 & Hr' & _ & Hf & _ & Hpass).
  unfold rule_at in Hr'. rewrite Hr in Hr'. injection Hr' as <-.
  exists (epilogue rnd io clock r size step w2). split; [done|].
  rewrite FillBlock_random in Hf by done. injection Hf as <-.
  assert (H0 : stale w w).
  { split; [done|]. exists []. split; [by rewrite app_nil_r|].
    intros ? ? Hin. by apply elem_of_nil in Hin. }
  assert (H1 : stale w (prologue clock r step w)).
  { destruct (prologue_frame clock r step w) as (Hb & _ & _ & _ & _ & _ & Ht).
    by apply (stale_step w w _ EvSeek). }
  assert (H2 : stale w (GetRandomData rnd blockSize (prologue clock r step w))).
  { apply (stale_step w _ _ (EvRandom (w_nrandom (prologue clock r step w))) H1).
    - apply GetRandomData_dry.
    - reflexivity.
    - done. }
  unfold epilogue. apply Log_stale.
  apply rounds_stale; [done|]. by apply rounds_stale.
Qed.

End DrySource.

(** X17. Nothing looks at what [/dev/random] delivers: when it delivers
    nothing, [OS::GetRandomData] leaves the block as it was, and a random
    pass of the catalog writes, in every one of its writes, the bytes the
    block held when the pass began, which are the pattern of the pass
    before or, in a first pass, what the stack held. *)
Theorem random_pass_without_randomness rnd io clock P size step w r :
  (∀ n, rnd n = []) →
  P ∈ wPolicies → 0 ≤ step < passes P →
  Z.of_nat (length (w_block w)) = blockSize →
  rules P !! Z.to_nat step = Some r → random r ≠ 0 →
  ∃ w', pass rnd io clock P size step w = Ok w'
    ∧ w_block w' = w_block w
    ∧ ∀ count bs, EvWrite count bs ∈ since w w' →
        bs = take (Z.to_nat count) (w_block w).
Proof.
  intros Hdry HP Hstep Hblk Hr Hrand.
  destruct (pass_stale rnd io clock Hdry P size step w r HP Hstep Hblk Hr Hrand)
    as (w' & Hpass & Hb & tr & Ht & Hw).
  exists w'. split_and!; [done|done|].
  intros count bs. unfold since. rewrite Ht, drop_app_length. apply Hw.
Qed.

Lemma random_pass_without_randomness_witness :
  (∀ n, rnd_dry n = [])
  ∧ DOD522022MPolicy ∈ wPolicies ∧ 0 ≤ 2 < passes DOD522022MPolicy
  ∧ Z.of_nat (length (w_block world_ff)) = blockSize
  ∧ rules DOD522022MPolicy !! Z.to_nat 2 = Some rnd_rule ∧ random rnd_rule ≠ 0
  ∧ ∃ w', pass rnd_dry io_all clock_2013 DOD522022MPolicy 512000 2 world_ff = Ok w'
      ∧ w_block w' = w_block world_ff
      ∧ ∀ count bs, EvWrite count bs ∈ since world_ff w' →
          bs = take (Z.to_nat count) (w_block world_ff).
Proof.
  assert (H1 : ∀ n, rnd_dry n = []) by (intros n; reflexivity).
  assert (H2 : DOD522022MPolicy ∈ wPolicies) by (unfold wPolicies; repeat constructor).
  assert (H3 : 0 ≤ 2 < passes DOD522022MPolicy) by (vm_compute; split; [discriminate|reflexivity]).
  assert (H4 : Z.of_nat (length (w_block world_ff)) = blockSize)
    by (vm_compute; reflexivity).
  assert (H5 : rules DOD522022MPolicy !! Z.to_nat 2 = Some rnd_rule) by reflexivity.
  assert (H6 : random rnd_rule ≠ 0) by discriminate.
  refine (conj H1 (conj H2 (conj H3 (conj H4 (conj H5 (conj H6 _)))))).
  exact (random_pass_without_randomness rnd_dry io_all clock_2013 DOD522022MPolicy
           512000 2 world_ff rnd_rule H1 H2 H3 H4 H5 H6).
Defined.

(** X18. A rule that is not random and has [datalen] 0 makes [FillBlock]
    loop for ever: the outer loop adds 0 to [b] in every round, so no number
    of rounds ends it, while the policy page shows such a rule without
    trouble. *)
Theorem FillBlock_datalen_0_never_ends rnd (rules : OverWriteRule) (w : World) :
  random rules = 0 → datalen rules = 0 →
  (∀ fuel, tile_go fuel blockSize rules 0 (w_block w) = Fault Diverges)
  ∧ FillBlock rnd rules w = Fault Diverges
  ∧ DiskWiper.rule_text rules = Ok ": ".
Proof.
  intros Hr Hd.
  assert (Hgo : ∀ fuel b, tile_go fuel blockSize rules 0 b = Fault Diverges).
  { induction fuel as [|fuel IH]; intros b; simpl; [done|].
    unfold copy_pattern, for_loop. rewrite Hd. simpl. apply IH. }
  split_and!.
  - intros fuel. apply Hgo.
  - unfold FillBlock. rewrite Hr. change (0 =? 0) with true. cbv iota.
    unfold fill_pattern. by rewrite Hgo.
  - unfold DiskWiper.rule_text, for_loop. rewrite Hd. reflexivity.
Qed.

Lemma FillBlock_datalen_0_never_ends_witness :
  random rule_empty = 0 ∧ datalen rule_empty = 0
  ∧ (∀ fuel, tile_go fuel blockSize rule_empty 0 (w_block world_ff) = Fault Diverges)
  ∧ FillBlock rnd_dry rule_empty world_ff = Fault Diverges
  ∧ DiskWiper.rule_text rule_empty = Ok ": ".
Proof.
  assert (H1 : random rule_empty = 0) by reflexivity.
  assert (H2 : datalen rule_empty = 0) by reflexivity.
  refine (conj H1 (conj H2 _)).
  exact (FillBlock_datalen_0_never_ends rnd_dry rule_empty world_ff H1 H2).
Defined.

(** * What a pattern pass leaves on the target, and the readings of the clock *)

Section PatternContent.

Context (rnd : nat → list byte) (clock : nat → tm).

(** The target holds [W], the bytes written since the seek, and from there
    on the bytes of [t0]. *)
Lemma write_appends t0 W count w :
  w_bad w = false → 0 ≤ count ≤ Z.of_nat (length (w_block w)) →
  w_pos w = Z.of_nat (length W) → w_target w = W ++ drop (length W) t0 →
  let W' := W ++ take (Z.to_nat count) (w_block w) in
  let w' := write io_all count w in
  w_bad w' = false ∧ w_pos w' = Z.of_nat (length W') ∧ w_block w' = w_block w
  ∧ w_target w' = W' ++ drop (length W') t0.
Proof.
  intros Hbad Hc Hpos Ht. unfold write, io_all. rewrite Hbad.
  cbn [w_bad w_pos w_target w_block].
  rewrite take_take, Nat.min_id.
  assert (Hl : length (take (Z.to_nat count) (w_block w)) = Z.to_nat count).
  { rewrite length_take. lia. }
  rewrite !length_app, Hl.
  split_and!; [apply Z.ltb_ge; lia|lia|done|].
  unfold put_at. rewrite Ht, Hpos, Nat2Z.id, Hl.
  rewrite take_app_length, drop_app_add, drop_drop.
  by rewrite <- app_assoc.
Qed.

Lemma rounds_appends t0 W rules count n w :
  random rules = 0 →
  w_bad w = false → 0 ≤ count ≤ Z.of_nat (length (w_block w)) →
  w_pos w = Z.of_nat (length W) → w_target w = W ++ drop (length W) t0 →
  let W' := W ++ concat (replicate n (take (Z.to_nat count) (w_block w))) in
  let w' := Nat.iter n (round rnd io_all rules count) w in
  w_bad w' = false ∧ w_pos w' = Z.of_nat (length W') ∧ w_block w' = w_block w
  ∧ w_target w' = W' ++ drop (length W') t0.
Proof.
  intros Hr Hbad Hc Hpos Ht. induction n as [|n IH].
  - cbn. rewrite app_nil_r. done.
  - destruct IH as (H1 & H2 & H3 & H4). cbv zeta. rewrite Nat.iter_succ.
    set (v := Nat.iter n (round rnd io_all rules count) w) in *.
    assert (round rnd io_all rules count v = write io_all count v) as ->.
    { unfold round, refill. by rewrite Hr. }
    destruct (write_appends t0 _ count v H1 ltac:(by rewrite H3) H2 H4)
      as (G1 & G2 & G3 & G4).
    rewrite H3 in G2, G4.
    rewrite replicate_S_end, concat_app. cbn [concat]. rewrite app_nil_r.
    rewrite !app_assoc.
    split_and!; [done|done|congruence|done].
Qed.

(** X20. A pass of a pattern rule of the catalog on a target that takes
    every byte leaves, from the start of the target on: the block with the
    pattern tiled, once per block write; then the first byte of the pattern,
    once per byte of the remainder, because each of those writes hands over
    the start of the block again, so that a three-byte pattern is not
    continued into the remainder; then the bytes the target had from offset
    [handed size] on. *)
Theorem pattern_pass_content P size step w r :
  P ∈ wPolicies → 0 ≤ step < passes P →
  rules P !! Z.to_nat step = Some r → random r = 0 →
  Z.of_nat (length (w_block w)) = blockSize → w_bad w = false →
  ∃ blk w', pass rnd io_all clock P size step w = Ok w'
    ∧ fill_pattern blockSize r (w_block w) = Ok blk
    ∧ (∀ k, (k < Z.to_nat blockSize)%nat →
         blk !! k = pattern_of r !! (k mod length (pattern_of r))%nat)
    ∧ w_target w'
      = concat (replicate (Z.to_nat (size / blockSize - 1)) blk)
        ++ concat (replicate (Z.to_nat (size mod blockSize)) (take 1 (pattern_of r)))
        ++ drop (Z.to_nat (handed size)) (w_target w).
Proof.
  intros HP Hstep Hr Hrand Hblk Hbad. pose proof blockSize_pos as Hbs.
  destruct (pass_total rnd io_all clock P size step w HP Hstep Hblk)
    as (r' & w2 & Hr' & Hcat & Hf & Hb2 & Hpass).
  unfold rule_at in Hr'. rewrite Hr in Hr'. injection Hr' as <-.
  destruct Hcat as [->|(bs & -> & Hbs13)]; [done|].
  assert (Hpat : pattern_of (pat_rule bs (Z.of_nat (length bs))) = bs).
  { unfold pattern_of, pat_rule, lit. simpl.
    by rewrite Nat2Z.id, take_app_length. }
  rewrite Hpat.
  set (rl := pat_rule bs (Z.of_nat (length bs))) in *.
  destruct (prologue_frame clock rl step w) as (Pb & Pt & Pp & Pbad & _).
  rewrite Hbad in Pp.
  destruct (FillBlock_pattern rnd bs (prologue clock rl step w))
    as (blk & Hfill & E & Hl & Hk); [done|by rewrite Pb|].
  fold rl in Hfill, E. rewrite Pb in Hfill, Hl.
  assert (Hw2 : w_block w2 = blk).
  { rewrite E in Hf. by injection Hf as <-. }
  destruct (FillBlock_frame rnd _ _ _ Hf) as (_ & Ft & Fp & Fb & _).
  rewrite Pt in Ft. rewrite Pp in Fp. rewrite Pbad, Hbad in Fb.
  assert (Hlb : length blk = Z.to_nat blockSize) by lia.
  destruct (rounds_appends (w_target w) [] rl blockSize
              (Z.to_nat (size / blockSize - 1)) w2)
    as (A1 & A2 & A3 & A4); [done|done|rewrite Hw2; lia|by rewrite Fp|by rewrite Ft|].
  rewrite Hw2, take_ge in A2, A4 by lia. rewrite Hw2 in A3.
  destruct (rounds_appends (w_target w) _ rl 1 (Z.to_nat (size mod blockSize)) _
              ltac:(done) A1 ltac:(rewrite A3; lia) A2 A4)
    as (B1 & B2 & B3 & B4).
  rewrite A3 in B2, B4.
  assert (Hpos : w_pos (epilogue rnd io_all clock rl size step w2) = handed size).
  { by destruct (pass_all rnd clock P size step w _ Hbad Hblk Hpass) as (_ & ?). }
  exists blk, (epilogue rnd io_all clock rl size step w2).
  split_and!; [done|done| |].
  - intros k Hk'. apply Hk. lia.
  - revert Hpos. unfold epilogue.
    match goal with |- context [Log clock ?m ?v] =>
      destruct (Log_frame clock m v) as (_ & -> & -> & _) end.
    rewrite B2, B4. intros Hpos.
    assert (Htk : take (Z.to_nat 1) blk = take 1 bs).
    { change (Z.to_nat 1) with 1%nat.
      destruct blk as [|x blk]; [simpl in Hlb; lia|].
      destruct bs as [|y bs]; [simpl in Hbs13; lia|].
      specialize (Hk 0%nat ltac:(simpl; lia)). rewrite Nat.Div0.mod_0_l in Hk.
      by injection Hk as ->. }
    rewrite Htk in Hpos |- *. cbn [app] in Hpos |- *.
    rewrite <- app_assoc. do 2 f_equal. f_equal. lia.
Qed.

End PatternContent.

Lemma pattern_pass_content_witness :
  PeterGutmannPolicy ∈ wPolicies ∧ 0 ≤ 6 < passes PeterGutmannPolicy
  ∧ rules PeterGutmannPolicy !! Z.to_nat 6 = Some (pat_rule [x92; x49; x24] 3)
  ∧ random (pat_rule [x92; x49; x24] 3) = 0
  ∧ Z.of_nat (length (w_block world_ff)) = blockSize ∧ w_bad world_ff = false
  ∧ ∃ blk w', pass rnd_dry io_all clock_2013 PeterGutmannPolicy 300000 6 world_ff = Ok w'
      ∧ fill_pattern blockSize (pat_rule [x92; x49; x24] 3) (w_block world_ff) = Ok blk
      ∧ (∀ k, (k < Z.to_nat blockSize)%nat →
           blk !! k = pattern_of (pat_rule [x92; x49; x24] 3)
                      !! (k mod length (pattern_of (pat_rule [x92; x49; x24] 3)))%nat)
      ∧ w_target w'
        = concat (replicate (Z.to_nat (300000 / blockSize - 1)) blk)
          ++ concat (replicate (Z.to_nat (300000 mod blockSize))
                       (take 1 (pattern_of (pat_rule [x92; x49; x24] 3))))
          ++ drop (Z.to_nat (handed 300000)) (w_target world_ff).
Proof.
  assert (H1 : PeterGutmannPolicy ∈ wPolicies) by (unfold wPolicies; repeat constructor).
  assert (H2 : 0 ≤ 6 < passes PeterGutmannPolicy)
    by (vm_compute; split; [discriminate|reflexivity]).
  assert (H3 : rules PeterGutmannPolicy !! Z.to_nat 6 = Some (pat_rule [x92; x49; x24] 3))
    by reflexivity.
  assert (H4 : random (pat_rule [x92; x49; x24] 3) = 0) by reflexivity.
  assert (H5 : Z.of_nat (length (w_block world_ff)) = blockSize)
    by (vm_compute; reflexivity).
  assert (H6 : w_bad world_ff = false) by reflexivity.
  refine (conj H1 (conj H2 (conj H3 (conj H4 (conj H5 (conj H6 _)))))).
  exact (pattern_pass_content rnd_dry clock_2013 PeterGutmannPolicy 300000 6 world_ff
           (pat_rule [x92; x49; x24] 3) H1 H2 H3 H4 H5 H6).
Defined.

(** X21. [ReportLog::Log] reads the clock once for every message, and not
    at all when the log is quiet and has no report file, where it returns
    before [std::time]: over a whole session the clock is read as many
    times as the session has messages, or never. *)
Theorem clock_reads rnd io clock o t stack P :
  policy_at (_ValidPolicySel o) = Ok P →
  ∃ code w, main rnd io clock o t stack = Ok (code, w)
    ∧ ticks (w_log w)
      = (if _Quite o && negb (_Reporting o) then 0
         else length (log_session P (_DeviceName o) (t_size t)))%nat.
Proof.
  intros HP. destruct (session_log rnd io clock o t stack P HP) as (w & Hmain & Hlog).
  eexists _, w. split; [exact Hmain|]. rewrite Hlog.
  by destruct (log_after_fields clock (log_boot o)
                 (log_session P (_DeviceName o) (t_size t)))
    as (_ & _ & _ & -> & _).
Qed.

Lemma clock_reads_witness :
  policy_at (_ValidPolicySel (mkOptions 0 "/dev/disk1" false true)) = Ok FastPolicy
  ∧ ∃ code w, main rnd_zero io_all clock_2013 (mkOptions 0 "/dev/disk1" false true)
                (mkTarget 512000 [] true true) [] = Ok (code, w)
      ∧ ticks (w_log w) = 0%nat.
Proof.
  assert (H1 : policy_at (_ValidPolicySel (mkOptions 0 "/dev/disk1" false true))
               = Ok FastPolicy) by reflexivity.
  split; [exact H1|].
  exact (clock_reads rnd_zero io_all clock_2013 (mkOptions 0 "/dev/disk1" false true)
           (mkTarget 512000 [] true true) [] FastPolicy H1).
Defined.
